(** * Superior RAG core: segmenter, hybrid retrieval, reflection, memory tiers

    A shallow embedding of the Python sources

      - [src/core/document_processor.py]  (text segmenter),
      - [src/retrieval/retriever.py]      (hybrid retrieval),
      - [src/core/reflection_engine.py]   (reflection controller),
      - [src/memory/memory_manager.py]    (tiered memory over SQL),

    together with the properties of the specification that concern them.

    Conventions of the embedding.
      - Python [int] is [Z]; [//] is [Z.div] (both round towards minus
        infinity).
      - A Python [float] is a binary64 number, held as the rational ([Q])
        that it denotes; comparing two floats is comparing these
        rationals.  The sums and products that rank results (the combined
        score of the hybrid merge, the final score of the reflection
        merge) round every result to binary64, and their constants [0.7],
        [0.3], [0.05], [0.1], [0.15] are the binary64 numbers nearest to
        these fractions ([Float64]).  The analysis of the reflection
        engine, which compares its two scores with thresholds only, is
        computed on the rationals.
      - Python [str] is [string]; indices are code points, one [ascii] each.
      - A [dict] with a fixed set of keys is a record of options ([None] is
        a missing key); an open [dict] is an association list.
      - A [while] loop runs on fuel; running out of fuel is the outcome
        [OutOfFuel], and termination is proved separately. *)

From Stdlib Require Import ZArith QArith Lia Lqa List Bool Ascii String.
From Stdlib Require Import Sorted Permutation DecimalString DecimalZ.
From Stdlib Require Import SpecFloat.
Import ListNotations.

Local Open Scope string_scope.
Local Open Scope list_scope.
Local Open Scope Z_scope.

(** ** Outcomes of a call *)

Inductive exn : Type :=
| InvalidArgument
| CollaboratorUnavailable (who : string).

Inductive run (A : Type) : Type :=
| Done (a : A)
| Fail (e : exn)
| OutOfFuel.

Arguments Done {A} a.
Arguments Fail {A} e.
Arguments OutOfFuel {A}.

Definition bind {A B : Type} (m : run A) (k : A -> run B) : run B :=
  match m with
  | Done a => k a
  | Fail e => Fail e
  | OutOfFuel => OutOfFuel
  end.

Notation "x <- m ;; k" := (bind m (fun x => k))
  (at level 61, m at next level, right associativity).

(** ** Python string primitives *)

Module PyStr.

Definition len (s : string) : Z := Z.of_nat (String.length s).

(** Index normalisation of slices and of [str.rfind]: a negative index
    counts from the end, and everything is clamped to [0, len]. *)
Definition norm_index (n i : Z) : Z :=
  if i <? 0 then Z.max 0 (i + n) else Z.min i n.

(** [s[a:b]] *)
Definition slice (s : string) (a b : Z) : string :=
  let n := len s in
  let a' := norm_index n a in
  let b' := norm_index n b in
  substring (Z.to_nat a') (Z.to_nat (b' - a')) s.

(** Candidates [lo + k - 1], ..., [lo], highest first. *)
Fixpoint rfind_down (sub s : string) (lo : Z) (k : nat) : Z :=
  match k with
  | O => -1
  | S k' =>
      let i := lo + Z.of_nat k' in
      if String.eqb (substring (Z.to_nat i) (String.length sub) s) sub
      then i
      else rfind_down sub s lo k'
  end.

(** [s.rfind(sub, a, b)]: the highest index at which [sub] occurs inside
    [s[a:b]], or [-1]. *)
Definition rfind (s sub : string) (a b : Z) : Z :=
  let n := len s in
  let a' := norm_index n a in
  let b' := norm_index n b in
  rfind_down sub s a' (Z.to_nat (b' - len sub - a' + 1)).

(** [str.isspace] on one code point below 256; it is also the class [\s]
    of a [str] pattern. *)
Definition is_space (c : ascii) : bool :=
  let n := nat_of_ascii c in
  (((9 <=? n) && (n <=? 13)) || ((28 <=? n) && (n <=? 32))
   || (n =? 133) || (n =? 160))%nat.

Fixpoint lstrip (l : list ascii) : list ascii :=
  match l with
  | c :: l' => if is_space c then lstrip l' else l
  | [] => []
  end.

(** [s.strip()] *)
Definition strip (s : string) : string :=
  string_of_list_ascii
    (rev (lstrip (rev (lstrip (list_ascii_of_string s))))).

(** [sep.join(parts)] *)
Fixpoint join (sep : string) (parts : list string) : string :=
  match parts with
  | [] => ""
  | [p] => p
  | p :: rest => (p ++ sep ++ join sep rest)%string
  end.

End PyStr.

(** ** Text segmenter ([document_processor.py]) *)

Module Segmenter.
Import PyStr.

Record chunk : Type := mkChunk {
  text : string;
  start_char : Z;
  end_char : Z
}.

(** One turn of the [while] loop of [_create_fixed_chunks]: the end of the
    window that starts at [start]. *)
Definition window_end (txt : string) (chunk_size start : Z) : Z :=
  let e := start + chunk_size in
  if e <? len txt then
    let sentence_end := rfind txt ". " start e + 1 in
    if sentence_end >? start + chunk_size / 2 then sentence_end else e
  else len txt.

(** The test that leaves the loop early: the rest after the overlap would be
    a tiny chunk. *)
Definition tiny_tail (txt : string) (chunk_size start : Z) : bool :=
  (start + chunk_size >? len txt) && (len txt - start <? chunk_size / 2).

Fixpoint fixed_loop (fuel : nat) (txt : string) (chunk_size chunk_overlap : Z)
    (start : Z) : run (list chunk) :=
  match fuel with
  | O => OutOfFuel
  | S fuel' =>
      if start <? len txt then
        let e := window_end txt chunk_size start in
        let c := mkChunk (slice txt start e) start e in
        let start' := e - chunk_overlap in
        if tiny_tail txt chunk_size start' then Done [c]
        else
          rest <- fixed_loop fuel' txt chunk_size chunk_overlap start' ;;
          Done (c :: rest)
      else Done []
  end.

Definition _create_fixed_chunks (fuel : nat) (txt : string)
    (chunk_size chunk_overlap : Z) : run (list chunk) :=
  if len txt <=? chunk_size then
    Done [mkChunk txt 0 (len txt)]
  else fixed_loop fuel txt chunk_size chunk_overlap 0.

(** [re.split(r'\n\s*\n', text)].  The separator starts at a newline and,
    [\s*] being greedy, ends at the last newline of the whitespace run that
    follows; a run without a second newline is no separator.  The scan
    keeps the piece read so far and, inside a candidate separator, whether
    a second newline was met and the blanks read since the last newline. *)
Inductive sep_state : Type :=
| NoSep
| InSep (second_newline : bool) (blanks : list ascii).

Definition newline : ascii := ascii_of_nat 10.

Fixpoint split_scan (l piece : list ascii) (st : sep_state)
    : list (list ascii) :=
  match l with
  | [] =>
      match st with
      | NoSep => [piece]
      | InSep true blanks => [piece; blanks]
      | InSep false blanks => [piece ++ newline :: blanks]
      end
  | c :: l' =>
      match st with
      | NoSep =>
          if Ascii.eqb c newline then split_scan l' piece (InSep false [])
          else split_scan l' (piece ++ [c]) NoSep
      | InSep seen blanks =>
          if Ascii.eqb c newline then split_scan l' piece (InSep true [])
          else if is_space c then split_scan l' piece (InSep seen (blanks ++ [c]))
          else if seen then piece :: split_scan l' (blanks ++ [c]) NoSep
          else split_scan l' (piece ++ newline :: blanks ++ [c]) NoSep
      end
  end.

Definition split_paragraphs (txt : string) : list string :=
  map string_of_list_ascii (split_scan (list_ascii_of_string txt) [] NoSep).

(** The variables of the [for] loop of [_create_adaptive_chunks]. *)
Record adaptive_state : Type := mkState {
  chunks : list chunk;
  current_chunk : list string;
  current_size : Z;
  current_start : Z
}.

Definition sum_len (ps : list string) : Z :=
  fold_right (fun p acc => len p + acc) 0 ps.

Definition flush (st : adaptive_state) : adaptive_state :=
  let chunk_text := join (String newline (String newline "")) (current_chunk st) in
  let emitted := mkChunk chunk_text (current_start st)
                   (current_start st + len chunk_text) in
  let overlap_start :=
    Z.max 0 (Z.of_nat (List.length (current_chunk st)) - 2) in
  let kept := skipn (Z.to_nat overlap_start) (current_chunk st) in
  let size := sum_len kept + Z.of_nat (List.length kept) - 1 in
  mkState (chunks st ++ [emitted]) kept size
          (current_start st + len chunk_text - size).

Definition shift (base : Z) (c : chunk) : chunk :=
  mkChunk (text c) (base + start_char c) (base + end_char c).

Definition adaptive_step (fuel : nat) (chunk_size chunk_overlap : Z)
    (st : adaptive_state) (raw : string) : run adaptive_state :=
  let paragraph := strip raw in
  if String.eqb paragraph "" then Done st
  else
    let paragraph_size := len paragraph in
    let st1 :=
      if (current_size st + paragraph_size >? chunk_size)
         && (current_size st >? 0)
      then flush st else st in
    let st2 := mkState (chunks st1) (current_chunk st1 ++ [paragraph])
                 (current_size st1 + paragraph_size + 2) (current_start st1) in
    if paragraph_size >? chunk_size then
      para_chunks <- _create_fixed_chunks fuel paragraph chunk_size chunk_overlap ;;
      Done (mkState
              (chunks st2 ++ map (shift (current_start st2)) (tl para_chunks))
              [] 0 (current_start st2 + paragraph_size))
    else Done st2.

Fixpoint adaptive_loop (fuel : nat) (chunk_size chunk_overlap : Z)
    (paragraphs : list string) (st : adaptive_state) : run adaptive_state :=
  match paragraphs with
  | [] => Done st
  | p :: ps =>
      st' <- adaptive_step fuel chunk_size chunk_overlap st p ;;
      adaptive_loop fuel chunk_size chunk_overlap ps st'
  end.

Definition _create_adaptive_chunks (fuel : nat) (txt : string)
    (chunk_size chunk_overlap : Z) : run (list chunk) :=
  st <- adaptive_loop fuel chunk_size chunk_overlap (split_paragraphs txt)
          (mkState [] [] 0 0) ;;
  match current_chunk st with
  | [] => Done (chunks st)
  | _ :: _ =>
      let chunk_text := join (String newline (String newline "")) (current_chunk st) in
      Done (chunks st ++ [mkChunk chunk_text (current_start st)
                            (current_start st + len chunk_text)])
  end.

Definition _create_chunks (fuel : nat) (txt : string)
    (chunk_size chunk_overlap : Z) (adaptive : bool) : run (list chunk) :=
  if adaptive then _create_adaptive_chunks fuel txt chunk_size chunk_overlap
  else _create_fixed_chunks fuel txt chunk_size chunk_overlap.

(** Position [p] lies in the span of some chunk. *)
Definition covers (cs : list chunk) (p : Z) : Prop :=
  Exists (fun c => start_char c <= p < end_char c) cs.

(** Position [p] lies in the tail that the early exit of the loop drops. *)
Definition dropped_tail (txt : string) (chunk_size chunk_overlap : Z)
    (cs : list chunk) (p : Z) : Prop :=
  let e := end_char (last cs (mkChunk "" 0 0)) in
  tiny_tail txt chunk_size (e - chunk_overlap) = true /\ e <= p.

(** The property of fixed-mode segmentation: the call returns, the starts
    do not decrease, and every position is covered or in the dropped tail. *)
Definition fixed_spans_ok (txt : string) (chunk_size chunk_overlap : Z) : Prop :=
  exists fuel cs,
    _create_fixed_chunks fuel txt chunk_size chunk_overlap = Done cs /\
    Sorted Z.le (map start_char cs) /\
    forall p, 0 <= p < len txt ->
      covers cs p \/ dropped_tail txt chunk_size chunk_overlap cs p.

(** Chunks that start at [s], each next one starting [o] before the end of
    the previous one, the last one ending at [e]. *)
Inductive tiled (o : Z) : Z -> list chunk -> Z -> Prop :=
| tiled_last c :
    tiled o (start_char c) [c] (end_char c)
| tiled_next c cs e :
    start_char c <= end_char c - o ->
    tiled o (end_char c - o) cs e ->
    tiled o (start_char c) (c :: cs) e.

End Segmenter.

(** ** Python values, dictionaries and sorting *)

Module Py.

(** The values that identifiers and payload fields take. *)
Inductive pyval : Type :=
| PNone
| PInt (z : Z)
| PStr (s : string).

(** Truth value of [v] in a condition. *)
Definition truthy (v : pyval) : bool :=
  match v with
  | PNone => false
  | PInt z => negb (z =? 0)
  | PStr s => negb (String.eqb s "")
  end.

(** [v is None] *)
Definition is_none (v : pyval) : bool :=
  match v with
  | PNone => true
  | _ => false
  end.

Definition str_of_Z (z : Z) : string := NilZero.string_of_int (Z.to_int z).

(** [str(v)], as an f-string formats it. *)
Definition py_str (v : pyval) : string :=
  match v with
  | PNone => "None"
  | PInt z => str_of_Z z
  | PStr s => s
  end.

(** No colon occurs in [s]. *)
Definition colon : ascii := ":"%char.

Fixpoint no_colon (s : string) : Prop :=
  match s with
  | EmptyString => True
  | String c s' => c <> colon /\ no_colon s'
  end.

(** A dictionary keeps its keys in insertion order; assigning to a key that
    is present keeps the key where it is. *)
Definition dict (V : Type) : Type := list (string * V).

Fixpoint dict_get {V : Type} (k : string) (d : dict V) : option V :=
  match d with
  | [] => None
  | (k', v) :: d' => if String.eqb k' k then Some v else dict_get k d'
  end.

Fixpoint dict_set {V : Type} (k : string) (v : V) (d : dict V) : dict V :=
  match d with
  | [] => [(k, v)]
  | (k', v') :: d' =>
      if String.eqb k' k then (k', v) :: d'
      else (k', v') :: dict_set k v d'
  end.

Fixpoint dict_del {V : Type} (k : string) (d : dict V) : dict V :=
  match d with
  | [] => []
  | (k', v) :: d' =>
      if String.eqb k' k then d' else (k', v) :: dict_del k d'
  end.

Definition keys {V : Type} (d : dict V) : list string := map fst d.
Definition values {V : Type} (d : dict V) : list V := map snd d.

(** [d.get(k)] on a dictionary of values: a missing key reads as [None]. *)
Definition get (k : string) (d : dict pyval) : pyval :=
  match dict_get k d with
  | Some v => v
  | None => PNone
  end.

(** [list(dict.fromkeys(ks))]: the keys in order of first occurrence. *)
Definition remember (acc : list string) (k : string) : list string :=
  if existsb (String.eqb k) acc then acc else acc ++ [k].

Definition fromkeys (ks : list string) : list string :=
  fold_left remember ks [].

(** A stable insertion sort for the order [leb]: an element goes before
    the first one that it does not follow, so that equal elements stay in
    their order. *)
Fixpoint insert_by {A : Type} (leb : A -> A -> bool) (x : A) (l : list A)
    : list A :=
  match l with
  | [] => [x]
  | y :: l' => if leb x y then x :: l else y :: insert_by leb x l'
  end.

Definition sort_by {A : Type} (leb : A -> A -> bool) (l : list A) : list A :=
  fold_right (insert_by leb) [] l.

(** [l.sort(key=..., reverse=True)]: a stable sort, largest key first. *)
Definition sort_desc {A : Type} (key : A -> Q) (l : list A) : list A :=
  sort_by (fun x y => Qle_bool (key y) (key x)) l.

(** The order of a list sorted that way: largest key first. *)
Definition desc {A : Type} (key : A -> Q) (a b : A) : Prop :=
  (key b <= key a)%Q.

(** [a%Q < b] on scores. *)
Definition Qlt_bool (a b : Q) : bool := negb (Qle_bool b a).

(** [max(a, b)] *)
Definition py_max (a b : Q) : Q := if Qlt_bool a b then b else a.

(** [min(a, b)] *)
Definition py_min (a b : Q) : Q := if Qlt_bool b a then b else a.

(** [x or y] on numbers read from a dictionary: the first one that is
    present and not zero. *)
Definition num_or (x : option Q) (y : Q) : Q :=
  match x with
  | Some q => if Qeq_bool q 0%Q then y else q
  | None => y
  end.

End Py.

(** ** Python floats *)

Module Float64.

(** The integer [z] as a number of the Standard Library's specification
    of floating-point arithmetic. *)
Definition of_Z (z : Z) : spec_float :=
  match z with
  | Z0 => S754_zero false
  | Zpos p => S754_finite false p 0
  | Zneg p => S754_finite true p 0
  end.

(** The rational that a finite number denotes.  Infinities and NaN, which
    no score is, are not modelled and read as zero. *)
Definition to_Q (x : spec_float) : Q :=
  match x with
  | S754_finite s m e =>
      let v :=
        match e with
        | Z0 => inject_Z (Zpos m)
        | Zpos p => inject_Z (Zpos m * 2 ^ Zpos p)
        | Zneg p => Qmake (Zpos m) (2 ^ p)%positive
        end in
      if s then Qopp v else v
  | _ => 0%Q
  end.

(** The binary64 number nearest to the rational [q], ties to even: the
    quotient of its numerator and denominator as the specification
    rounds it.  It is what Python makes of a decimal literal. *)
Definition float_of (q : Q) : Q :=
  to_Q (SFdiv 53 1024 (of_Z (Qnum q)) (of_Z (Zpos (Qden q)))).

(** [a * b] on floats: the exact product, rounded. *)
Definition fmul (a b : Q) : Q := float_of (a * b).

(** [a + b] on floats: adding zero is exact, otherwise the exact sum,
    rounded. *)
Definition fadd (a b : Q) : Q :=
  if Qeq_bool a 0 then b
  else if Qeq_bool b 0 then a
  else float_of (a + b).

Arguments float_of : simpl never.
Arguments fmul : simpl never.
Arguments fadd : simpl never.

End Float64.

(** ** Hybrid retrieval ([retriever.py]) *)

Module Retriever.
Import Py Float64.

(** A result dictionary.  The same type serves for what the vector store
    returns, for the merged entries and for the processed results.  The
    scores are floats: rationals that [float_of] leaves as they are. *)
Record result : Type := mkResult {
  r_id : option pyval;
  r_document_id : option pyval;
  r_chunk_index : option pyval;
  r_score : option Q;
  r_vector_score : option Q;
  r_keyword_score : option Q;
  r_combined_score : option Q;
  r_payload : option (dict pyval);
  r_content : option string;
  r_metadata : option (dict pyval)
}.

(** [result.get(field)] and [result.get(field, default)] *)
Definition field (f : option pyval) : pyval :=
  match f with Some v => v | None => PNone end.

Definition number (f : option Q) : Q :=
  match f with Some q => q | None => 0%Q end.

Definition payload_of (r : result) : dict pyval :=
  match r_payload r with Some p => p | None => [] end.

(** [f"{doc_id}:{chunk_index}"] *)
Definition make_key (doc_id chunk_index : pyval) : string :=
  (py_str doc_id ++ ":" ++ py_str chunk_index)%string.

(** The test [doc_id and chunk_index is not None]. *)
Definition usable (doc_id chunk_index : pyval) : bool :=
  truthy doc_id && negb (is_none chunk_index).

(** One turn of the first loop of [_merge_results]. *)
Definition add_vector (merged : dict result) (r : result) : dict result :=
  let doc_id := get "document_id" (payload_of r) in
  let chunk_index := get "chunk_index" (payload_of r) in
  if negb (usable doc_id chunk_index) then merged
  else
    let key := make_key doc_id chunk_index in
    dict_set key
      {| r_id := Some (PStr key);
         r_document_id := Some doc_id;
         r_chunk_index := Some chunk_index;
         r_score := None;
         r_vector_score := Some (number (r_score r));
         r_keyword_score := Some 0%Q;
         r_combined_score := Some (number (r_score r));
         r_payload := Some (payload_of r);
         r_content := None;
         r_metadata := None |}
      merged.

(** One turn of the second loop of [_merge_results]. *)
Definition add_keyword (merged : dict result) (r : result) : dict result :=
  let doc_id := field (r_document_id r) in
  let chunk_index := field (r_chunk_index r) in
  if negb (usable doc_id chunk_index) then merged
  else
    let key := make_key doc_id chunk_index in
    let keyword_score := number (r_score r) in
    match dict_get key merged with
    | Some m =>
        dict_set key
          {| r_id := r_id m;
             r_document_id := r_document_id m;
             r_chunk_index := r_chunk_index m;
             r_score := r_score m;
             r_vector_score := r_vector_score m;
             r_keyword_score := Some keyword_score;
             r_combined_score :=
               Some (fadd (fmul (float_of (7 # 10)) (number (r_vector_score m)))
                          (fmul (float_of (3 # 10)) keyword_score));
             r_payload := r_payload m;
             r_content := r_content m;
             r_metadata := r_metadata m |}
          merged
    | None =>
        dict_set key
          {| r_id := Some (PStr key);
             r_document_id := Some doc_id;
             r_chunk_index := Some chunk_index;
             r_score := None;
             r_vector_score := Some 0%Q;
             r_keyword_score := Some keyword_score;
             r_combined_score := Some (fmul (float_of (3 # 10)) keyword_score);
             r_payload := Some (payload_of r);
             r_content := None;
             r_metadata := None |}
          merged
    end.

(** The dictionary [merged] after both loops. *)
Definition merged_dict (vector_results keyword_results : list result)
    : dict result :=
  fold_left add_keyword keyword_results
    (fold_left add_vector vector_results []).

Definition combined (r : result) : Q := number (r_combined_score r).

Definition _merge_results (vector_results keyword_results : list result)
    : list result :=
  sort_desc combined (values (merged_dict vector_results keyword_results)).

(** [_keyword_search] is a placeholder that finds nothing. *)
Definition _keyword_search (query : string) (top_k : Z) : list result := [].

(** [_rerank_results] is a placeholder that changes nothing. *)
Definition _rerank_results (query : string) (results : list result)
    : list result := results.

(** What [_batch_fetch_chunks] found for a pair of identifiers. *)
Record chunk_row : Type := mkRow {
  row_content : option string;
  row_metadata : dict pyval
}.

Definition pyval_eqb (a b : pyval) : bool :=
  match a, b with
  | PNone, PNone => true
  | PInt x, PInt y => x =? y
  | PStr x, PStr y => String.eqb x y
  | _, _ => false
  end.

Fixpoint lookup_pair (d c : pyval) (rows : list ((pyval * pyval) * chunk_row))
    : option chunk_row :=
  match rows with
  | [] => None
  | ((d', c'), row) :: rows' =>
      if pyval_eqb d' d && pyval_eqb c' c then Some row
      else lookup_pair d c rows'
  end.

(** [_fetch_chunk_content], over the answer [batch_fetch] of the relational
    store (a failing store answers with no rows). *)
Definition _fetch_chunk_content
    (batch_fetch : list (pyval * pyval) -> list ((pyval * pyval) * chunk_row))
    (results : list result) : list result :=
  let ids_to_fetch :=
    flat_map (fun r =>
      let doc_id := field (r_document_id r) in
      let chunk_index := field (r_chunk_index r) in
      if negb (is_none doc_id) && negb (is_none chunk_index)
      then [(doc_id, chunk_index)] else []) results in
  match ids_to_fetch with
  | [] => results
  | _ :: _ =>
      let contents := batch_fetch ids_to_fetch in
      map (fun r =>
        match lookup_pair (field (r_document_id r)) (field (r_chunk_index r))
                contents with
        | Some row =>
            {| r_id := r_id r;
               r_document_id := r_document_id r;
               r_chunk_index := r_chunk_index r;
               r_score := r_score r;
               r_vector_score := r_vector_score r;
               r_keyword_score := r_keyword_score r;
               r_combined_score := r_combined_score r;
               r_payload := r_payload r;
               r_content := row_content row;
               r_metadata := Some (row_metadata row) |}
        | None => r
        end) results
  end.

(** The metadata that [_process_results] attaches: the result's metadata
    or, when that is empty, its payload, without the redundant fields. *)
Definition clean_metadata (r : result) : option (dict pyval) :=
  let metadata := match r_metadata r with Some m => m | None => [] end in
  let metadata :=
    match metadata, r_payload r with
    | [], Some p => p
    | _, _ => metadata
    end in
  match dict_del "id" (dict_del "chunk_index" (dict_del "document_id" metadata)) with
  | [] => None
  | m => Some m
  end.

Definition process_one (r : result) : result :=
  {| r_id := Some (field (r_id r));
     r_document_id := Some (field (r_document_id r));
     r_chunk_index := Some (field (r_chunk_index r));
     r_score := Some (num_or (r_combined_score r) (num_or (r_vector_score r) 0%Q));
     r_vector_score := None;
     r_keyword_score := None;
     r_combined_score := None;
     r_payload := None;
     r_content := r_content r;
     r_metadata := clean_metadata r |}.

Definition _process_results (results : list result) : list result :=
  map process_one results.

(** The collaborators of [retrieve]: the vector store (behind the query
    embedding) and the relational store. *)
Record stores : Type := mkStores {
  vector_search : string -> Z -> run (list result);
  batch_fetch : list (pyval * pyval) -> list ((pyval * pyval) * chunk_row)
}.

Record settings : Type := mkSettings {
  default_top_k : Z;
  hybrid_search_enabled : bool;
  reranking_enabled : bool
}.

(** [retrieve] without a cache key. *)
Definition retrieve (cfg : settings) (env : stores) (query : string)
    (top_k : option Z) (use_hybrid : option bool) (include_content : bool)
    : run (list result) :=
  let top_k :=
    match top_k with
    | Some k => if k =? 0 then default_top_k cfg else k
    | None => default_top_k cfg
    end in
  let use_hybrid :=
    match use_hybrid with
    | Some b => b
    | None => hybrid_search_enabled cfg
    end in
  vector_results <- vector_search env query top_k ;;
  let results :=
    if use_hybrid
    then _merge_results vector_results (_keyword_search query top_k)
    else vector_results in
  let results :=
    if reranking_enabled cfg && (1 <? Z.of_nat (List.length results))
    then _rerank_results query results else results in
  let results :=
    if include_content then _fetch_chunk_content (batch_fetch env) results
    else results in
  Done (_process_results results).

(** *** Vocabulary of the merge property *)

(** The candidates that the loops of [_merge_results] do not skip. *)
Definition vector_usable (r : result) : bool :=
  usable (get "document_id" (payload_of r)) (get "chunk_index" (payload_of r)).

Definition keyword_usable (r : result) : bool :=
  usable (field (r_document_id r)) (field (r_chunk_index r)).

(** The key under which a vector candidate, resp. a keyword candidate, is
    merged; [None] when the candidate is skipped. *)
Definition vector_key (r : result) : option string :=
  let doc_id := get "document_id" (payload_of r) in
  let chunk_index := get "chunk_index" (payload_of r) in
  if usable doc_id chunk_index then Some (make_key doc_id chunk_index) else None.

Definition keyword_key (r : result) : option string :=
  let doc_id := field (r_document_id r) in
  let chunk_index := field (r_chunk_index r) in
  if usable doc_id chunk_index then Some (make_key doc_id chunk_index) else None.

Definition has_key (key_of : result -> option string) (k : string)
    (r : result) : bool :=
  match key_of r with
  | Some k' => String.eqb k' k
  | None => false
  end.

(** The score of the last candidate of [rs] merged under [k]. *)
Fixpoint last_score (key_of : result -> option string) (k : string)
    (rs : list result) : option Q :=
  match rs with
  | [] => None
  | r :: rs' =>
      match last_score key_of k rs' with
      | Some q => Some q
      | None => if has_key key_of k r then Some (number (r_score r)) else None
      end
  end.

(** The keys of all merged candidates, vector candidates first. *)
Definition key_list (key_of : result -> option string) (rs : list result)
    : list string :=
  flat_map (fun r => match key_of r with Some k => [k] | None => [] end) rs.

Definition candidate_keys (vector_results keyword_results : list result)
    : list string :=
  key_list vector_key vector_results ++ key_list keyword_key keyword_results.

Definition id_key (r : result) : string := py_str (field (r_id r)).

Definition same_score (q : Q) (r : result) : bool := Qeq_bool (combined r) q.


(** A merged entry comes from a candidate that passed the test [usable]. *)
Definition from_usable_candidate (vs ks : list result) (e : result) : Prop :=
  exists doc_id chunk_index,
    r_document_id e = Some doc_id /\
    r_chunk_index e = Some chunk_index /\
    truthy doc_id = true /\
    chunk_index <> PNone /\
    (Exists (fun r => get "document_id" (payload_of r) = doc_id /\
                      get "chunk_index" (payload_of r) = chunk_index) vs
     \/ Exists (fun r => field (r_document_id r) = doc_id /\
                         field (r_chunk_index r) = chunk_index) ks).

(** Every entry carries its own key as identifier. *)
Definition ids_ok (d : dict result) : Prop :=
  Forall (fun p => r_id (snd p) = Some (PStr (fst p))) d.

(** The vector score already stored under [k], zero when there is none. *)
Definition stored_vector_score (k : string) (d : dict result) : Q :=
  match dict_get k d with
  | Some m => number (r_vector_score m)
  | None => 0%Q
  end.

(** *** Sample data *)

(** A candidate as the Qdrant store returns it: a score and a payload. *)
Definition point (doc_id : string) (chunk_index : Z) (score : Q) : result :=
  {| r_id := None; r_document_id := None; r_chunk_index := None;
     r_score := Some score;
     r_vector_score := None; r_keyword_score := None;
     r_combined_score := None;
     r_payload := Some [("document_id", PStr doc_id);
                        ("chunk_index", PInt chunk_index)];
     r_content := None; r_metadata := None |}.

(** A candidate with its identifiers at top level, as the keyword search
    and the mock vector store return it. *)
Definition hit (doc_id : string) (chunk_index : Z) (score : Q) : result :=
  {| r_id := None;
     r_document_id := Some (PStr doc_id);
     r_chunk_index := Some (PInt chunk_index);
     r_score := Some score;
     r_vector_score := None; r_keyword_score := None;
     r_combined_score := None;
     r_payload := None; r_content := None; r_metadata := None |}.

(** A processed result without content and metadata. *)
Definition processed (id doc_id chunk_index : pyval) (score : Q) : result :=
  {| r_id := Some id;
     r_document_id := Some doc_id;
     r_chunk_index := Some chunk_index;
     r_score := Some score;
     r_vector_score := None; r_keyword_score := None;
     r_combined_score := None;
     r_payload := None; r_content := None; r_metadata := None |}.

Definition plain_settings : settings :=
  {| default_top_k := 5; hybrid_search_enabled := true;
     reranking_enabled := false |}.

(** Stores whose vector search answers [candidates] and whose relational
    store finds nothing. *)
Definition stores_with (candidates : list result) : stores :=
  {| vector_search := fun _ _ => Done candidates;
     batch_fetch := fun _ => [] |}.

End Retriever.

(** ** Reflection controller ([reflection_engine.py]) *)

Module Reflection.
Import Py Float64 Retriever.

Local Open Scope Q_scope.

Record reflection_config : Type := mk_reflection_config {
  enabled : bool;
  max_iterations : Z;
  min_relevance_threshold : Q;
  min_coverage_threshold : Q;
  max_gap_queries : Z
}.

(** The values [__init__] falls back to. *)
Definition default_reflection_config : reflection_config :=
  {| enabled := true;
     max_iterations := 2;
     min_relevance_threshold := 6 # 10;
     min_coverage_threshold := 7 # 10;
     max_gap_queries := 3 |}.

(** The dataclass [RetrievalResult]. *)
Record RetrievalResult : Type := mkRetrievalResult {
  query : string;
  results : list result;
  has_reflected : bool;
  reflection_queries : list string;
  reflection_results : list (list result);
  knowledge_gaps : list string;
  has_sufficient_info : bool;
  relevance_score : Q;
  coverage_score : Q;
  ranked_chunks : list result
}.

(** *** Key terms *)

(** [c.lower()] on one code point below 256. *)
Definition lower_char (c : ascii) : ascii :=
  let n := nat_of_ascii c in
  if (((65 <=? n) && (n <=? 90))
      || ((192 <=? n) && (n <=? 222) && negb (n =? 215)))%nat
  then ascii_of_nat (n + 32) else c.

(** The class [\w] of a [str] pattern on one code point below 256. *)
Definition is_word_char (c : ascii) : bool :=
  let n := nat_of_ascii c in
  (((48 <=? n) && (n <=? 57)) || ((65 <=? n) && (n <=? 90))
   || ((97 <=? n) && (n <=? 122)) || (n =? 95)
   || (n =? 170) || (n =? 178) || (n =? 179) || (n =? 181)
   || (n =? 185) || (n =? 186) || ((188 <=? n) && (n <=? 190))
   || ((192 <=? n) && (n <=? 214)) || ((216 <=? n) && (n <=? 246))
   || ((248 <=? n) && (n <=? 255)))%nat.

(** [re.findall(r'\w+', s)]: the maximal runs of word characters. *)
Fixpoint word_runs (l current : list ascii) : list (list ascii) :=
  match l with
  | [] => match current with [] => [] | _ :: _ => [current] end
  | c :: l' =>
      if is_word_char c then word_runs l' (current ++ [c])
      else match current with
           | [] => word_runs l' []
           | _ :: _ => current :: word_runs l' []
           end
  end.

Definition findall_words (s : string) : list string :=
  map string_of_list_ascii (word_runs (list_ascii_of_string s) []).

Definition lower (s : string) : string :=
  string_of_list_ascii (map lower_char (list_ascii_of_string s)).

Definition stop_words : list string :=
  ["a"; "an"; "the"; "and"; "or"; "but"; "is"; "are"; "was"; "were";
   "be"; "been"; "being"; "to"; "of"; "for"; "with"; "by"; "about";
   "against"; "between"; "into"; "through"; "during"; "before"; "after";
   "above"; "below"; "from"; "up"; "down"; "in"; "out"; "on"; "off";
   "over"; "under"; "again"; "further"; "then"; "once"; "here"; "there";
   "when"; "where"; "why"; "how"; "all"; "any"; "both"; "each"; "few";
   "more"; "most"; "other"; "some"; "such"; "no"; "nor"; "not"; "only";
   "own"; "same"; "so"; "than"; "too"; "very"; "can"; "will"; "just";
   "should"; "now"]%string.

Definition mem (s : string) (l : list string) : bool :=
  existsb (String.eqb s) l.

Definition _extract_key_terms (text : string) : list string :=
  filter (fun w => negb (mem w stop_words) && (2 <? PyStr.len w)%Z)
    (findall_words (lower text)).

(** *** Analysis of the initial results *)

Definition length_Q {A : Type} (l : list A) : Q :=
  inject_Z (Z.of_nat (List.length l)).

Definition sum_scores (rs : list result) : Q :=
  fold_left (fun acc r => acc + number (r_score r)) rs 0.

Definition mean_score (rs : list result) : Q :=
  sum_scores rs / length_Q rs.

Definition content_of (r : result) : string :=
  match r_content r with Some c => c | None => ""%string end.

(** [len(query_terms.intersection(result_terms)) / len(query_terms)] on
    the sets of key terms; zero when the query has no key term. *)
Definition term_overlap (query : string) (rs : list result) : Q :=
  let query_terms := fromkeys (_extract_key_terms query) in
  let result_terms := flat_map (fun r => _extract_key_terms (content_of r)) rs in
  match query_terms with
  | [] => 0
  | _ :: _ =>
      length_Q (filter (fun t => mem t result_terms) query_terms)
      / length_Q query_terms
  end.

Definition relevance_of (rs : list result) : Q :=
  match rs with
  | [] => 0
  | _ :: _ =>
      let avg_score := mean_score rs in
      let count_factor := py_min (length_Q rs / 5) 1 in
      avg_score * (7 # 10) + count_factor * (3 # 10)
  end.

Definition coverage_of (query : string) (rs : list result) : Q :=
  match rs with
  | [] => 0
  | _ :: _ =>
      let min_coverage := py_min (length_Q rs / 10) (7 # 10) in
      py_max (term_overlap query rs) min_coverage
  end.

(** [l[:n]] *)
Definition take {A : Type} (n : Z) (l : list A) : list A :=
  if (n <? 0)%Z then firstn (Z.to_nat (Z.of_nat (List.length l) + n)) l
  else firstn (Z.to_nat n) l.

(** The bookkeeping that [_merge_and_rank_results] adds to a copy of a
    result. *)
Inductive source : Type :=
| Initial
| FromReflection (i : nat).

Record entry : Type := mkEntry {
  e_result : result;
  e_source : source;
  e_queries : list string;
  e_reflection_score : option Q;
  e_final_score : option Q
}.

Definition is_initial (e : entry) : bool :=
  match e_source e with
  | Initial => true
  | FromReflection _ => false
  end.

(** [f"{result.get('document_id')}:{result.get('chunk_index')}"] *)
Definition key_of (r : result) : string :=
  make_key (field (r_document_id r)) (field (r_chunk_index r)).

Definition add_initial (original_query : string) (all_results : dict entry)
    (r : result) : dict entry :=
  let key := key_of r in
  match dict_get key all_results with
  | Some _ => all_results
  | None =>
      dict_set key
        {| e_result := r; e_source := Initial;
           e_queries := [original_query];
           e_reflection_score := None; e_final_score := None |}
        all_results
  end.

Definition add_reflection (i : nat) (follow_up : string)
    (all_results : dict entry) (r : result) : dict entry :=
  let key := key_of r in
  match dict_get key all_results with
  | Some e =>
      dict_set key
        {| e_result := e_result e; e_source := e_source e;
           e_queries := e_queries e ++ [follow_up];
           e_reflection_score :=
             Some (py_max (number (e_reflection_score e)) (number (r_score r)));
           e_final_score := e_final_score e |}
        all_results
  | None =>
      dict_set key
        {| e_result := r; e_source := FromReflection (i + 1);
           e_queries := [follow_up];
           e_reflection_score := Some (number (r_score r));
           e_final_score := None |}
        all_results
  end.

(** [enumerate(zip(reflection_results, reflection_queries))], from [i]. *)
Fixpoint add_reflections (i : nat) (reflection_results : list (list result))
    (reflection_queries : list string) (all_results : dict entry)
    : dict entry :=
  match reflection_results, reflection_queries with
  | query_results :: rest, follow_up :: queries =>
      add_reflections (S i) rest queries
        (fold_left (add_reflection i follow_up) query_results all_results)
  | _, _ => all_results
  end.

Definition all_results_of (original_query : string)
    (initial_results : list result)
    (reflection_results : list (list result))
    (reflection_queries : list string) : dict entry :=
  add_reflections 0 reflection_results reflection_queries
    (fold_left (add_initial original_query) initial_results []).

Definition final_score_of (e : entry) : Q :=
  let base_score :=
    if is_initial e then number (r_score (e_result e))
    else number (e_reflection_score e) in
  let query_bonus :=
    py_min (fmul (length_Q (e_queries e)) (float_of (5 # 100)))
           (float_of (15 # 100)) in
  let initial_bonus := if is_initial e then float_of (1 # 10) else 0 in
  fadd (fadd base_score query_bonus) initial_bonus.

Definition with_final_score (e : entry) : entry :=
  {| e_result := e_result e; e_source := e_source e;
     e_queries := e_queries e;
     e_reflection_score := e_reflection_score e;
     e_final_score := Some (final_score_of e) |}.

(** The clean-up loop: the bookkeeping goes, [final_score] becomes
    [score]. *)
Definition strip_entry (e : entry) : result :=
  let r := e_result e in
  match e_final_score e with
  | Some final =>
      {| r_id := r_id r; r_document_id := r_document_id r;
         r_chunk_index := r_chunk_index r;
         r_score := Some final;
         r_vector_score := r_vector_score r;
         r_keyword_score := r_keyword_score r;
         r_combined_score := r_combined_score r;
         r_payload := r_payload r; r_content := r_content r;
         r_metadata := r_metadata r |}
  | None => r
  end.

Definition _merge_and_rank_results (original_query : string)
    (initial_results : list result)
    (reflection_results : list (list result))
    (reflection_queries : list string) : list result :=
  let merged_results :=
    map with_final_score
      (values (all_results_of original_query initial_results
                 reflection_results reflection_queries)) in
  map strip_entry
    (sort_desc (fun e => number (e_final_score e)) merged_results).

(** *** Vocabulary of the merge property *)

Definition has_key_of (k : string) (r : result) : bool :=
  String.eqb (key_of r) k.

(** The scores found under key [k] in one follow-up result set, and in all
    of them in the order in which the loop meets them. *)
Definition hits_in (k : string) (rs : list result) : list Q :=
  map (fun r => number (r_score r)) (filter (has_key_of k) rs).

Fixpoint follow_up_hits (k : string) (reflection_results : list (list result))
    (reflection_queries : list string) : list Q :=
  match reflection_results, reflection_queries with
  | rs :: rest, _ :: queries => hits_in k rs ++ follow_up_hits k rest queries
  | _, _ => []
  end.

(** The largest of a list of scores. *)
Definition best_score (hits : list Q) : Q :=
  match hits with
  | [] => 0
  | h :: t => fold_left py_max t h
  end.

(** The bonus for [n] contributing queries. *)
Definition query_bonus (n : nat) : Q :=
  py_min (fmul (inject_Z (Z.of_nat n)) (float_of (5 # 100)))
         (float_of (15 # 100)).

(** The result that leaves the clean-up loop. *)
Definition rescored (e : entry) : result :=
  let r := e_result e in
  {| r_id := r_id r; r_document_id := r_document_id r;
     r_chunk_index := r_chunk_index r;
     r_score := Some (final_score_of e);
     r_vector_score := r_vector_score r;
     r_keyword_score := r_keyword_score r;
     r_combined_score := r_combined_score r;
     r_payload := r_payload r; r_content := r_content r;
     r_metadata := r_metadata r |}.

Definition score_of (r : result) : Q := number (r_score r).

(** What the slot of a key holds once the initial results and the follow-up
    hits [hs] met so far are merged; [r0] is the first initial result with
    that key. *)
Definition slot_ok (r0 : option result) (hs : list Q) (slot : option entry)
    : Prop :=
  match r0, slot with
  | Some r, Some e =>
      e_result e = r /\ is_initial e = true /\
      List.length (e_queries e) = S (List.length hs)
  | None, Some e =>
      hs <> [] /\ is_initial e = false /\
      List.length (e_queries e) = List.length hs /\
      e_reflection_score e = Some (best_score hs)
  | None, None => hs = []
  | Some _, None => False
  end.

(** Every entry sits under the key of its result, and no key twice. *)
Definition well_keyed (d : dict entry) : Prop :=
  NoDup (keys d) /\ Forall (fun p => key_of (e_result (snd p)) = fst p) d.

(** The final score as the specification words it, on the rationals: the
    base score, plus 0.10 for an initial entry, plus 0.05 per contributing
    follow-up query, at most 0.15. *)
Definition spec_final_score (initial : bool) (base : Q) (follow_ups : nat) : Q :=
  base + (if initial then 1 # 10 else 0)
  + py_min (inject_Z (Z.of_nat follow_ups) * (5 # 100)) (15 # 100).

(** *** The engine *)

Section Engine.

(** The configuration of the engine and its two collaborators:
    [_extract_query_topics], a pair of regular expressions whose matches
    go through [list(set(...))] and so come in no specified order, and the
    retriever, called with [top_k=5] and a cache key made from the query. *)
Variable cfg : reflection_config.
Variable _extract_query_topics : string -> list string.
Variable retriever_retrieve : string -> run (list result).

Definition insufficient (relevance coverage : Q) : bool :=
  Qlt_bool relevance (min_relevance_threshold cfg)
  || Qlt_bool coverage (min_coverage_threshold cfg).

Definition _analyze_results (q : string) (rs : list result)
    : Q * Q * list string :=
  let relevance := relevance_of rs in
  let coverage := coverage_of q rs in
  let gaps :=
    if insufficient relevance coverage then _extract_query_topics q else [] in
  (relevance, coverage, gaps).

Definition _generate_follow_up_queries (original_query : string)
    (gaps : list string) : list string :=
  let follow_up_queries :=
    flat_map (fun gap =>
      if (PyStr.len gap <=? 3)%Z then []
      else [(original_query ++ " regarding " ++ gap)%string]) gaps in
  let follow_up_queries :=
    match follow_up_queries with
    | [] => [("more details about " ++ original_query)%string;
             ("additional information on " ++ original_query)%string;
             ("extended explanation of " ++ original_query)%string]
    | _ :: _ => follow_up_queries
    end in
  take (max_gap_queries cfg) (fromkeys follow_up_queries).

(** The loop that runs the follow-up queries, in order. *)
Fixpoint run_follow_ups (queries : list string) : run (list (list result)) :=
  match queries with
  | [] => Done []
  | q :: rest =>
      additional_results <- retriever_retrieve q ;;
      others <- run_follow_ups rest ;;
      Done (additional_results :: others)
  end.

(** The follow-up queries that [reflect] runs. *)
Definition executed_follow_ups (q : string) (gaps : list string)
    : list string :=
  let follow_up_queries := _generate_follow_up_queries q gaps in
  if (max_gap_queries cfg <? Z.of_nat (List.length follow_up_queries))%Z
  then take (max_gap_queries cfg) follow_up_queries
  else follow_up_queries.

Definition reflect (q : string) (initial_results : list result)
    : run RetrievalResult :=
  if negb (enabled cfg) || match initial_results with [] => true | _ => false end
  then
    let some := match initial_results with [] => false | _ => true end in
    Done {| query := q; results := initial_results;
            has_reflected := false;
            reflection_queries := []; reflection_results := [];
            knowledge_gaps := [];
            has_sufficient_info := some;
            relevance_score := if some then 7 # 10 else 0;
            coverage_score := if some then 7 # 10 else 0;
            ranked_chunks := initial_results |}
  else
    let '(relevance, coverage, gaps) := _analyze_results q initial_results in
    let has_sufficient_info :=
      Qle_bool (min_relevance_threshold cfg) relevance
      && Qle_bool (min_coverage_threshold cfg) coverage in
    if has_sufficient_info then
      Done {| query := q; results := initial_results;
              has_reflected := false;
              reflection_queries := []; reflection_results := [];
              knowledge_gaps := gaps;
              has_sufficient_info := true;
              relevance_score := relevance;
              coverage_score := coverage;
              ranked_chunks := initial_results |}
    else
      let follow_up_queries := executed_follow_ups q gaps in
      reflection_results <- run_follow_ups follow_up_queries ;;
      let all_chunks :=
        _merge_and_rank_results q initial_results reflection_results
          follow_up_queries in
      Done {| query := q; results := initial_results;
              has_reflected := true;
              reflection_queries := _generate_follow_up_queries q gaps;
              reflection_results := reflection_results;
              knowledge_gaps := gaps;
              has_sufficient_info := true;
              relevance_score := relevance;
              coverage_score := coverage;
              ranked_chunks := all_chunks |}.

End Engine.

(** *** Sample data *)

(** Collaborators for the examples: no topic found, and a retriever that
    finds nothing, resp. that is down. *)
Definition no_topics (q : string) : list string := [].

Definition empty_retriever (q : string) : run (list result) := Done [].


Definition five_good_results : list result :=
  [hit "d1" 0 (9 # 10); hit "d1" 1 (9 # 10); hit "d1" 2 (9 # 10);
   hit "d1" 3 (9 # 10); hit "d1" 4 (9 # 10)].

End Reflection.

(** ** Tiered memory ([memory_manager.py]) *)

Module Memory.
Import Py.

(** Modelled from the spec: the table [memory_items], whose schema is not
    in the sources.  Its columns are those of MemoryItem in the data model
    (id, optional owner, optional conversation, content, tier, importance,
    metadata, createdAt, lastAccessedAt, accessCount, expiry that may be
    null); times are seconds.  The table is the list of its rows. *)
Record memory_item : Type := mkItem {
  id : Z;
  user_id : option Z;
  conversation_id : option string;
  content : string;
  memory_type : string;
  importance : Q;
  metadata : dict pyval;
  created_at : Z;
  last_accessed_at : Z;
  access_count : Z;
  expires_at : option Z
}.

Definition table : Type := list memory_item.

Record memory_config : Type := mk_memory_config {
  working_memory_ttl : Z;
  working_memory_max_items : Z;
  short_term_memory_ttl : Z;
  short_term_memory_max_items : Z;
  long_term_memory_threshold : Q;
  long_term_memory_max_items : Z
}.

(** The values [__init__] falls back to. *)
Definition default_memory_config : memory_config :=
  {| working_memory_ttl := 3600;
     working_memory_max_items := 50;
     short_term_memory_ttl := 86400;
     short_term_memory_max_items := 200;
     long_term_memory_threshold := 7 # 10;
     long_term_memory_max_items := 1000 |}.

(** [if user_id:] on an optional integer. *)
Definition truthy_id (u : option Z) : bool :=
  match u with
  | Some z => negb (z =? 0)
  | None => false
  end.

(** [if s:] on an optional string. *)
Definition truthy_text (s : option string) : bool :=
  match s with
  | Some t => negb (String.eqb t "")
  | None => false
  end.

(** SQL [column = value] on a nullable integer column. *)
Definition column_is (column : option Z) (value : Z) : bool :=
  match column with
  | Some z => z =? value
  | None => false
  end.

(** *** Pruning *)

Definition max_items_of (cfg : memory_config) (tier : string) : option Z :=
  if String.eqb tier "working" then Some (working_memory_max_items cfg)
  else if String.eqb tier "short_term" then Some (short_term_memory_max_items cfg)
  else if String.eqb tier "long_term" then Some (long_term_memory_max_items cfg)
  else None.

(** The [WHERE] clause of [_prune_memory]. *)
Definition in_scope (tier : string) (owner : option Z) (r : memory_item)
    : bool :=
  String.eqb (memory_type r) tier
  && match owner with
     | Some u => if truthy_id owner then column_is (user_id r) u else true
     | None => true
     end.

(** [ORDER BY importance ASC, last_accessed_at ASC, created_at ASC] *)
Definition prune_leb (a b : memory_item) : bool :=
  if Qlt_bool (importance a) (importance b) then true
  else if Qlt_bool (importance b) (importance a) then false
  else if last_accessed_at a <? last_accessed_at b then true
  else if last_accessed_at b <? last_accessed_at a then false
  else created_at a <=? created_at b.

Definition id_in (ids : list Z) (r : memory_item) : bool :=
  existsb (Z.eqb (id r)) ids.

Definition _prune_memory (cfg : memory_config) (tier : string) (owner : option Z)
    (db : table) : table :=
  match max_items_of cfg tier with
  | None => db
  | Some max_items =>
      if max_items <=? 0 then db
      else
        let scoped := filter (in_scope tier owner) db in
        let count := Z.of_nat (List.length scoped) in
        if count >? max_items then
          let excess := count - max_items in
          let doomed :=
            map id (firstn (Z.to_nat excess) (sort_by prune_leb scoped)) in
          filter (fun r => negb (id_in doomed r)) db
        else db
  end.

(** *** Adding *)

(** What the database fills in on [INSERT]. *)
Record generated : Type := mkGenerated {
  new_id : Z;
  new_created_at : Z;
  new_last_accessed_at : Z;
  new_access_count : Z
}.

(** The dictionary that [add_to_memory] returns. *)
Record added : Type := mkAdded {
  added_id : Z;
  added_content : string;
  added_memory_type : string;
  added_importance : Q;
  added_created_at : Z
}.

Definition valid_tier (tier : string) : bool :=
  String.eqb tier "working" || String.eqb tier "short_term"
  || String.eqb tier "long_term".

(** The columns of [memory_items] that the statements of the manager name
    ([embedding] is written by [add_to_memory] and never read). *)
Definition memory_items_columns : list string :=
  ["id"; "user_id"; "conversation_id"; "content"; "embedding";
   "memory_type"; "importance"; "metadata"; "created_at";
   "last_accessed_at"; "access_count"; "expires_at"].

(** The names that the [ORDER BY] expression of the semantic search
    refers to. *)
Definition ranking_names : list string := ["similarity"; "days_old"].

(** Whether the database accepts the statement of the semantic search:
    every name of the [ORDER BY] expression must be a column. *)
Definition statement_accepted : bool :=
  forallb (fun name => existsb (String.eqb name) memory_items_columns)
    ranking_names.

Section Manager.

(** The configuration and what the manager relies on without defining it:
    the clock, [uuid.UUID] (which rejects a malformed text), and the
    trigram functions [similarity] and [%] of the database. *)
Variable cfg : memory_config.
Variable now : Z.
Variable parse_uuid : string -> option string.
Variable similarity : string -> string -> Q.
Variable trigram_match : string -> string -> bool.

Definition conversation_of (conversation_id : option string) : option string :=
  match conversation_id with
  | Some c => if String.eqb c "" then None else parse_uuid c
  | None => None
  end.

(** The row that [add_to_memory] inserts. *)
Definition new_row (gen : generated) (text tier : string) (owner : option Z)
    (conversation_id : option string) (weight : Q) (meta : dict pyval)
    : memory_item :=
  {| id := new_id gen;
     user_id := owner;
     conversation_id := conversation_of conversation_id;
     content := text;
     memory_type := tier;
     importance := weight;
     metadata := meta;
     created_at := new_created_at gen;
     last_accessed_at := new_last_accessed_at gen;
     access_count := new_access_count gen;
     expires_at :=
       if String.eqb tier "working" then Some (now + working_memory_ttl cfg)
       else if String.eqb tier "short_term"
            then Some (now + short_term_memory_ttl cfg)
            else None |}.

(** [add_to_memory]; the copy of a working item in the cache store is
    written and never read here, and is left out. *)
Definition add_to_memory (gen : generated) (text tier : string)
    (owner : option Z) (conversation_id : option string) (weight : Q)
    (meta : dict pyval) (db : table) : option added * table :=
  if String.eqb (PyStr.strip text) "" then (None, db)
  else
    let tier := if valid_tier tier then tier else "working" in
    let row := new_row gen text tier owner conversation_id weight meta in
    (Some {| added_id := id row; added_content := text;
             added_memory_type := tier; added_importance := weight;
             added_created_at := created_at row |},
     _prune_memory cfg tier owner (db ++ [row])).

(** *** Reading *)

Inductive condition : Type :=
| ByType (tier : string)
| ByUser (owner : Z)
| ByConversation (conversation : string)
| ByImportance (least : Q)
| NotExpired.

(** The list [conditions] that both readers build. *)
Definition conditions (tier : option string) (owner : option Z)
    (conversation_id : option string) (min_importance : Q)
    : list condition :=
  (match tier with
   | Some t => if truthy_text tier then [ByType t] else []
   | None => []
   end)
  ++ (match owner with
      | Some u => if truthy_id owner then [ByUser u] else []
      | None => []
      end)
  ++ (match conversation_of conversation_id with
      | Some c => [ByConversation c]
      | None => []
      end)
  ++ (if Qlt_bool 0 min_importance then [ByImportance min_importance] else [])
  ++ [NotExpired].

Definition holds (c : condition) (r : memory_item) : bool :=
  match c with
  | ByType t => String.eqb (memory_type r) t
  | ByUser u => column_is (user_id r) u
  | ByConversation conv =>
      match conversation_id r with
      | Some c' => String.eqb c' conv
      | None => false
      end
  | ByImportance least => Qle_bool least (importance r)
  | NotExpired =>
      match expires_at r with
      | Some t => now <? t
      | None => true
      end
  end.

(** [" AND ".join(conditions)] *)
Definition where_clause (cs : list condition) (r : memory_item) : bool :=
  forallb (fun c => holds c r) cs.

(** An item as both readers format it. *)
Record memory_view : Type := mkView {
  v_id : Z;
  v_memory_type : string;
  v_importance : Q;
  v_access_count : Z;
  v_created_at : Z;
  v_last_accessed_at : Z;
  v_content : option string;
  v_user_id : option Z;
  v_conversation_id : option string;
  v_metadata : option (dict pyval);
  v_relevance : option Q
}.

Definition view (include_content : bool) (relevance : option Q)
    (r : memory_item) : memory_view :=
  {| v_id := id r;
     v_memory_type := memory_type r;
     v_importance := importance r;
     v_access_count := access_count r;
     v_created_at := created_at r;
     v_last_accessed_at := last_accessed_at r;
     v_content := if include_content then Some (content r) else None;
     v_user_id := if truthy_id (user_id r) then user_id r else None;
     v_conversation_id := conversation_id r;
     v_metadata := match metadata r with [] => None | m => Some m end;
     v_relevance := relevance |}.

(** [_update_access_count] *)
Definition _update_access_count (ids : list Z) (db : table) : table :=
  map (fun r =>
    if id_in ids r then
      {| id := id r; user_id := user_id r;
         conversation_id := conversation_id r; content := content r;
         memory_type := memory_type r; importance := importance r;
         metadata := metadata r; created_at := created_at r;
         last_accessed_at := now;
         access_count := access_count r + 1;
         expires_at := expires_at r |}
    else r) db.

(** [ORDER BY importance DESC, last_accessed_at DESC, created_at DESC] *)
Definition recent_leb (a b : memory_item) : bool :=
  if Qlt_bool (importance b) (importance a) then true
  else if Qlt_bool (importance a) (importance b) then false
  else if last_accessed_at b <? last_accessed_at a then true
  else if last_accessed_at a <? last_accessed_at b then false
  else created_at b <=? created_at a.

(** [_get_recent_memory]; a negative [LIMIT] is an error of the database,
    which the method turns into an empty answer. *)
Definition _get_recent_memory (tier : option string) (owner : option Z)
    (conversation_id : option string) (limit : Z) (min_importance : Q)
    (include_content : bool) (db : table) : list memory_view * table :=
  if limit <? 0 then ([], db)
  else
    let cs := conditions tier owner conversation_id min_importance in
    let rows :=
      firstn (Z.to_nat limit) (sort_by recent_leb (filter (where_clause cs) db)) in
    (map (view include_content None) rows,
     _update_access_count (map id rows) db).

(** [EXTRACT(EPOCH FROM (NOW() - created_at))/86400.0] *)
Definition days_old (r : memory_item) : Q :=
  inject_Z (now - created_at r) / 86400.

(** The first [ORDER BY] expression of the semantic search. *)
Definition rank (q : string) (recency_weight : Q) (r : memory_item) : Q :=
  (similarity (content r) q * (1 - recency_weight)
   + (1 / (days_old r + 1)) * recency_weight)%Q.

Definition semantic_leb (q : string) (recency_weight : Q)
    (a b : memory_item) : bool :=
  if Qlt_bool (rank q recency_weight b) (rank q recency_weight a) then true
  else if Qlt_bool (rank q recency_weight a) (rank q recency_weight b) then false
  else Qle_bool (importance b) (importance a).

(** [_semantic_memory_search].  Its statement sorts by the expression
    [(similarity * w1 + (1.0/(days_old+1)) * w2)], whose two names are
    aliases of the select list; PostgreSQL resolves the names inside an
    [ORDER BY] expression against the columns of the table only, so it
    rejects the statement before it looks at a row.  That error, like a
    negative [LIMIT] and a division by zero in the ranking, is caught by
    the method, which then answers with no item and does not count any
    access. *)
Definition _semantic_memory_search (q : string) (tier : option string)
    (owner : option Z) (conversation_id : option string) (limit : Z)
    (min_importance recency_weight : Q) (include_content : bool)
    (db : table) : list memory_view * table :=
  let cs := conditions tier owner conversation_id min_importance in
  let selected :=
    filter (fun r => where_clause cs r && trigram_match (content r) q) db in
  if negb statement_accepted || (limit <? 0)
     || existsb (fun r => Qeq_bool (days_old r + 1) 0) selected
  then ([], db)
  else
    let rows :=
      firstn (Z.to_nat limit) (sort_by (semantic_leb q recency_weight) selected) in
    (map (fun r => view include_content (Some (similarity (content r) q)) r) rows,
     _update_access_count (map id rows) db).

Definition get_memory (q : option string) (tier : option string)
    (owner : option Z) (conversation_id : option string) (limit : Z)
    (min_importance recency_weight : Q) (include_content : bool)
    (db : table) : list memory_view * table :=
  match q with
  | Some text =>
      if truthy_text q && (0 <? PyStr.len (PyStr.strip text))
      then _semantic_memory_search text tier owner conversation_id limit
             min_importance recency_weight include_content db
      else _get_recent_memory tier owner conversation_id limit min_importance
             include_content db
  | None =>
      _get_recent_memory tier owner conversation_id limit min_importance
        include_content db
  end.

End Manager.

(** *** Vocabulary of the pruning property *)

(** [a] goes no later than [b] in the pruning order. *)
Definition prune_le (a b : memory_item) : Prop :=
  (importance a < importance b)%Q
  \/ (importance a == importance b)%Q
     /\ (last_accessed_at a < last_accessed_at b
         \/ last_accessed_at a = last_accessed_at b
            /\ created_at a <= created_at b).

(** The number of rows of the scope. *)
Definition scoped_count (tier : string) (owner : option Z) (db : table) : Z :=
  Z.of_nat (List.length (filter (in_scope tier owner) db)).

(** *** Sample data *)

Definition no_uuid (s : string) : option string := None.
Definition no_similarity (a b : string) : Q := 0%Q.
Definition always_match (a b : string) : bool := true.

Definition note (i : Z) (owner : option Z) (weight : Q) : memory_item :=
  {| id := i; user_id := owner; conversation_id := None;
     content := "note"; memory_type := "working"; importance := weight;
     metadata := []; created_at := 100; last_accessed_at := 100;
     access_count := 0; expires_at := None |}.

(** A configuration whose working tier holds [n] items. *)
Definition working_capacity (n : Z) : memory_config :=
  {| working_memory_ttl := 3600;
     working_memory_max_items := n;
     short_term_memory_ttl := 86400;
     short_term_memory_max_items := 200;
     long_term_memory_threshold := 7 # 10;
     long_term_memory_max_items := 1000 |}.

Definition three_notes : table :=
  [note 1 None (5 # 10); note 2 None (2 # 10); note 3 None (8 # 10)].

End Memory.

(** ** Vocabulary for further properties of the segmenter *)

Module SegmenterSpec.
Import PyStr Segmenter.

(** A chunk of [txt] with sound bounds: its span lies in the text, is at
    most [chunk_size] long, is not empty unless the text is, and its text
    is that span of [txt]. *)
Definition chunk_ok (txt : string) (chunk_size : Z) (c : chunk) : Prop :=
  0 <= start_char c <= end_char c /\
  end_char c <= len txt /\
  (0 < len txt -> start_char c < end_char c) /\
  end_char c - start_char c <= chunk_size /\
  text c = slice txt (start_char c) (end_char c) /\
  len (text c) = end_char c - start_char c.

(** [b] comes right after [a] in [cs]. *)
Definition adjacent (cs : list chunk) (a b : chunk) : Prop :=
  exists before after, cs = before ++ a :: b :: after.

(** The paragraphs that [_create_adaptive_chunks] works on: the pieces
    between blank lines, stripped, the empty ones left out. *)
Definition paragraphs_of (txt : string) : list string :=
  filter (fun p => negb (String.eqb p ""))
    (map strip (split_paragraphs txt)).

Definition blank_line : string := String newline (String newline "").

(** No newline occurs in [txt]. *)
Definition single_line (txt : string) : Prop :=
  Forall (fun c => c <> newline) (list_ascii_of_string txt).

(** The size that the loop keeps for the buffer [l]. *)
Definition buffer_size (l : list string) : Z :=
  sum_len l + 2 * Z.of_nat (List.length l).

(** A chunk with text, whose span is as long as its text. *)
Definition sound_chunk (c : chunk) : Prop :=
  0 < len (text c) /\ len (text c) = end_char c - start_char c.

(** The state of the adaptive loop between two paragraphs: the chunks
    made so far are sound, the buffer holds paragraphs that are not
    empty, and a buffer of positive size is not empty. *)
Definition buffer_ok (st : adaptive_state) : Prop :=
  Forall sound_chunk (chunks st) /\
  Forall (fun p => p <> ""%string) (current_chunk st) /\
  (0 < current_size st -> current_chunk st <> []).

End SegmenterSpec.

(** ** Content fetching of the retriever ([retriever.py]) *)

Module RetrieverStore.
Import Py Retriever.

(** The table [document_chunks] as the two queries of the retriever read
    it: the identifiers are integers, as the signatures of
    [_fetch_single_chunk] and [_batch_fetch_chunks] declare them, and the
    metadata column holds a dictionary.  The relational store is that
    table, or [None] when a query on it raises. *)
Record chunk_record : Type := mkChunkRecord {
  c_document_id : Z;
  c_chunk_index : Z;
  c_content : option string;
  c_metadata : dict pyval
}.

Definition relational : Type := option (list chunk_record).

(** [document_id = $1 AND chunk_index = $2] *)
Definition is_chunk (d c : Z) (row : chunk_record) : bool :=
  (c_document_id row =? d) && (c_chunk_index row =? c).

Definition row_of (row : chunk_record) : chunk_row :=
  {| row_content := c_content row; row_metadata := c_metadata row |}.

(** [_fetch_single_chunk]: the first row found; the empty dictionary,
    here [None], when there is no row or the query raises. *)
Definition _fetch_single_chunk (db : relational) (document_id chunk_index : Z)
    : option chunk_row :=
  match db with
  | None => None
  | Some rows =>
      match filter (is_chunk document_id chunk_index) rows with
      | row :: _ => Some (row_of row)
      | [] => None
      end
  end.

(** The dictionary keyed by pairs that [_batch_fetch_chunks] builds. *)
Definition chunk_map : Type := list ((Z * Z) * chunk_row).

Fixpoint pair_get (d c : Z) (results : chunk_map) : option chunk_row :=
  match results with
  | [] => None
  | ((d', c'), row) :: rest =>
      if (d' =? d) && (c' =? c) then Some row else pair_get d c rest
  end.

Fixpoint pair_set (d c : Z) (row : chunk_row) (results : chunk_map)
    : chunk_map :=
  match results with
  | [] => [((d, c), row)]
  | ((d', c'), row') :: rest =>
      if (d' =? d) && (c' =? c) then ((d', c'), row) :: rest
      else ((d', c'), row') :: pair_set d c row rest
  end.

(** [(document_id, chunk_index) IN (...)] *)
Definition requested (id_pairs : list (Z * Z)) (row : chunk_record) : bool :=
  existsb (fun p => is_chunk (fst p) (snd p) row) id_pairs.

(** [_batch_fetch_chunks]: one query per pair for at most five pairs, one
    query for all of them otherwise. *)
Definition _batch_fetch_chunks (db : relational) (id_pairs : list (Z * Z))
    : chunk_map :=
  if Z.of_nat (List.length id_pairs) <=? 5 then
    fold_left
      (fun results p =>
         match _fetch_single_chunk db (fst p) (snd p) with
         | Some row => pair_set (fst p) (snd p) row results
         | None => results
         end)
      id_pairs []
  else
    match db with
    | None => []
    | Some rows =>
        fold_left
          (fun results row =>
             pair_set (c_document_id row) (c_chunk_index row) (row_of row)
               results)
          (filter (requested id_pairs) rows) []
    end.

(** *** Vocabulary *)

(** No two rows of the table are the same chunk of the same document. *)
Fixpoint distinct_chunks (rows : list chunk_record) : Prop :=
  match rows with
  | [] => True
  | row :: rest =>
      Forall
        (fun r => is_chunk (c_document_id row) (c_chunk_index row) r = false)
        rest
      /\ distinct_chunks rest
  end.

Definition distinct_table (db : relational) : Prop :=
  match db with
  | Some rows => distinct_chunks rows
  | None => True
  end.

(** [(d, c)] is one of [id_pairs]. *)
Definition asked (id_pairs : list (Z * Z)) (d c : Z) : bool :=
  existsb (fun p => (fst p =? d) && (snd p =? c)) id_pairs.

(** The dictionaries of a result have no key twice. *)
Definition dicts_ok (r : result) : Prop :=
  NoDup (keys (payload_of r)) /\
  NoDup (keys (match r_metadata r with Some m => m | None => [] end)).

(** Metadata as [_process_results] leaves it: absent, or not empty and
    without the three redundant fields. *)
Definition metadata_clean (p : result) : Prop :=
  match r_metadata p with
  | None => True
  | Some m =>
      m <> [] /\
      dict_get "document_id" m = None /\
      dict_get "chunk_index" m = None /\
      dict_get "id" m = None
  end.

(** The score that a result carries. *)
Definition score_field (r : result) : Q := number (r_score r).

(** A result as a vector store returns it: without the two scores that
    [_merge_results] adds. *)
Definition raw_candidate (r : result) : Prop :=
  r_combined_score r = None /\ r_vector_score r = None.

(** Two results that differ at most in content and metadata. *)
Definition same_but_content (r r' : result) : Prop :=
  r_id r' = r_id r /\
  r_document_id r' = r_document_id r /\
  r_chunk_index r' = r_chunk_index r /\
  r_score r' = r_score r /\
  r_vector_score r' = r_vector_score r /\
  r_keyword_score r' = r_keyword_score r /\
  r_combined_score r' = r_combined_score r /\
  r_payload r' = r_payload r.

Definition sample_rows : list chunk_record :=
  [mkChunkRecord 1 0 (Some "zero") [];
   mkChunkRecord 1 1 (Some "one") [("page", PInt 3)];
   mkChunkRecord 2 0 (Some "other") []].

End RetrieverStore.

(** ** Vocabulary for the follow-up queries and the analysis *)

Module ReflectionSpec.
Import Py Retriever Reflection.

(** The query made for one knowledge gap, and the three general ones. *)
Definition targeted (original_query gap : string) : string :=
  (original_query ++ " regarding " ++ gap)%string.

Definition general_follow_ups (original_query : string) : list string :=
  [("more details about " ++ original_query)%string;
   ("additional information on " ++ original_query)%string;
   ("extended explanation of " ++ original_query)%string].

(** [fq] is a follow-up query for [original_query] and [gaps]: the query
    of a gap of more than three characters, or a general one when there
    is no such gap. *)
Definition follow_up_for (original_query : string) (gaps : list string)
    (fq : string) : Prop :=
  (exists gap, In gap gaps /\ (3 < PyStr.len gap)%Z /\
               fq = targeted original_query gap)
  \/ (Forall (fun gap => (PyStr.len gap <= 3)%Z) gaps /\
      In fq (general_follow_ups original_query)).

(** A key term: a run of lower-case word characters, longer than two,
    that is no stop word. *)
Definition key_term (t : string) : Prop :=
  (2 < PyStr.len t)%Z /\
  mem t stop_words = false /\
  Forall (fun c => is_word_char c = true /\ lower_char c = c)
    (list_ascii_of_string t).

(** Scores between 0 and 1. *)
Definition in_unit (q : Q) : Prop := (0 <= q <= 1)%Q.

(** The results that take part in a merge: the initial ones and those of
    the follow-up sets that have a query. *)
Definition merged_inputs (initial_results : list result)
    (reflection_results : list (list result))
    (reflection_queries : list string) : list result :=
  initial_results
  ++ List.concat (firstn (List.length reflection_queries) reflection_results).

End ReflectionSpec.

(** ** Promoting and forgetting ([memory_manager.py]) *)

Module MemoryOps.
Import Py Memory.

(** [forget]: [DELETE FROM memory_items WHERE id = $1]; the answer is
    [True] whether or not a row was deleted. *)
Definition forget (memory_id : Z) (db : table) : bool * table :=
  (true, filter (fun r => negb (id r =? memory_id)) db).

(** The conditions that [forget_all] builds. *)
Inductive forget_condition : Type :=
| OfUser (owner : Z)
| OfConversation (conversation : string)
| OfType (tier : string).

Definition forgets (c : forget_condition) (r : memory_item) : bool :=
  match c with
  | OfUser u => column_is (user_id r) u
  | OfConversation conv =>
      match conversation_id r with
      | Some c' => String.eqb c' conv
      | None => false
      end
  | OfType t => String.eqb (memory_type r) t
  end.

Section Forgetting.

Variable parse_uuid : string -> option string.

Definition forget_conditions (owner : option Z)
    (conversation_id tier : option string) : list forget_condition :=
  (match owner with
   | Some u => if truthy_id owner then [OfUser u] else []
   | None => []
   end)
  ++ (match conversation_of parse_uuid conversation_id with
      | Some c => [OfConversation c]
      | None => []
      end)
  ++ (match tier with
      | Some t => if truthy_text tier then [OfType t] else []
      | None => []
      end).

(** [forget_all]: the number of rows deleted and the table afterwards. *)
Definition forget_all (owner : option Z) (conversation_id tier : option string)
    (db : table) : Z * table :=
  match forget_conditions owner conversation_id tier with
  | [] => (0, db)
  | cs =>
      (Z.of_nat (List.length (filter (fun r => forallb (fun c => forgets c r) cs) db)),
       filter (fun r => negb (forallb (fun c => forgets c r) cs)) db)
  end.

End Forgetting.

(** The two [UPDATE] statements of [promote_to_long_term]. *)
Definition set_importance (memory_id : Z) (weight : Q) (r : memory_item)
    : memory_item :=
  if id r =? memory_id then
    {| id := id r; user_id := user_id r;
       conversation_id := conversation_id r; content := content r;
       memory_type := memory_type r; importance := weight;
       metadata := metadata r; created_at := created_at r;
       last_accessed_at := last_accessed_at r;
       access_count := access_count r;
       expires_at := expires_at r |}
  else r.

Definition make_long_term (memory_id : Z) (weight : Q) (r : memory_item)
    : memory_item :=
  if id r =? memory_id then
    {| id := id r; user_id := user_id r;
       conversation_id := conversation_id r; content := content r;
       memory_type := "long_term"; importance := weight;
       metadata := metadata r; created_at := created_at r;
       last_accessed_at := last_accessed_at r;
       access_count := access_count r;
       expires_at := None |}
  else r.

Definition promote_to_long_term (cfg : memory_config) (memory_id : Z)
    (new_importance : option Q) (db : table) : bool * table :=
  match filter (fun r => id r =? memory_id) db with
  | [] => (false, db)
  | memory :: _ =>
      if String.eqb (memory_type memory) "long_term" then
        match new_importance with
        | Some weight =>
            if negb (Qeq_bool weight (importance memory))
            then (true, map (set_importance memory_id weight) db)
            else (true, db)
        | None => (true, db)
        end
      else
        let weight :=
          match new_importance with
          | Some weight => weight
          | None =>
              py_max (importance memory) (long_term_memory_threshold cfg)
          end in
        (true,
         _prune_memory cfg "long_term" (user_id memory)
           (map (make_long_term memory_id weight) db))
  end.

(** *** Vocabulary *)

(** A row has an expiry time exactly when it is in the working or in the
    short-term tier. *)
Definition tier_expiry (r : memory_item) : Prop :=
  match expires_at r with
  | None => memory_type r = "long_term"
  | Some _ => memory_type r = "working" \/ memory_type r = "short_term"
  end.

(** The expiry time of [r] has not passed at [now]. *)
Definition live (now : Z) (r : memory_item) : Prop :=
  match expires_at r with
  | Some t => now < t
  | None => True
  end.

(** [v] shows the row [r] as it was before the read. *)
Definition shows (v : memory_view) (r : memory_item) : Prop :=
  v_id v = id r /\
  v_memory_type v = memory_type r /\
  v_importance v = importance r /\
  v_access_count v = access_count r /\
  v_last_accessed_at v = last_accessed_at r.

(** What a read does to a row: it counts the access and stamps the time
    on the rows it returned, and leaves the others alone. *)
Definition touched (now : Z) (returned : list Z) (r r' : memory_item) : Prop :=
  if existsb (Z.eqb (id r)) returned then
    access_count r' = access_count r + 1 /\
    last_accessed_at r' = now /\
    id r' = id r /\ user_id r' = user_id r /\
    conversation_id r' = conversation_id r /\ content r' = content r /\
    memory_type r' = memory_type r /\ importance r' = importance r /\
    metadata r' = metadata r /\ created_at r' = created_at r /\
    expires_at r' = expires_at r
  else r' = r.

(** The filters of a read that are in force. *)
Definition passes (owner : option Z) (tier : option string)
    (min_importance : Q) (r : memory_item) : Prop :=
  (truthy_id owner = true -> user_id r = owner) /\
  (truthy_text tier = true -> Some (memory_type r) = tier) /\
  ((0 < min_importance)%Q -> (min_importance <= importance r)%Q).

(** [v] comes no later than [w] in the order of the recent items: higher
    importance first, then the later access, then the later creation. *)
Definition ranks_before (v w : memory_view) : Prop :=
  (v_importance w < v_importance v)%Q
  \/ (v_importance w == v_importance v)%Q
     /\ (v_last_accessed_at w < v_last_accessed_at v
         \/ v_last_accessed_at w = v_last_accessed_at v
            /\ v_created_at w <= v_created_at v).

Definition two_users : table :=
  [note 1 (Some 7) (5 # 10); note 2 (Some 8) (2 # 10);
   note 3 (Some 7) (8 # 10)].

End MemoryOps.

(** ** Merging configurations ([config.py]) *)

Module Config.
Import Py.

Section Values.

(** The values of a configuration that are not dictionaries (numbers,
    texts, lists); the merge never looks into them. *)
Variable scalar : Type.

#[local] Unset Elimination Schemes.

Inductive cval : Type :=
| CVal (v : scalar)
| CDict (d : list (string * cval)).

#[local] Set Elimination Schemes.

(** What the loop of [_deep_merge_configs] stores under a key: the merge
    of the two dictionaries when the value and the value already there
    are dictionaries, the value otherwise. *)
Fixpoint merge_value (current : option cval) (value : cval) {struct value}
    : cval :=
  match value, current with
  | CDict items, Some (CDict result) =>
      CDict
        ((fix loop (items : list (string * cval)) (result : dict cval)
              {struct items} : dict cval :=
            match items with
            | [] => result
            | (key, v) :: rest =>
                loop rest
                  (dict_set key (merge_value (dict_get key result) v) result)
            end) items result)
  | _, _ => value
  end.

(** [_deep_merge_configs]: [result] starts as a copy of [base] and takes
    the items of [override] one by one. *)
Definition _deep_merge_configs (base override : dict cval) : dict cval :=
  match merge_value (Some (CDict base)) (CDict override) with
  | CDict result => result
  | CVal _ => base
  end.

(** *** Vocabulary *)

(** The value found by following [path] through nested dictionaries. *)
Fixpoint lookup (path : list string) (c : cval) : option cval :=
  match path, c with
  | [], _ => Some c
  | key :: rest, CDict d =>
      match dict_get key d with
      | Some v => lookup rest v
      | None => None
      end
  | _ :: _, CVal _ => None
  end.

(** No dictionary has a key twice, at any depth. *)
Fixpoint well_formed (c : cval) : Prop :=
  match c with
  | CVal _ => True
  | CDict d =>
      NoDup (keys d) /\
      (fix all (items : list (string * cval)) : Prop :=
         match items with
         | [] => True
         | (_, v) :: rest => well_formed v /\ all rest
         end) d
  end.

(** [override] says nothing at [path] or above it: along the path it has
    dictionaries only, and the path leaves it before its end. *)
Fixpoint clear_of (path : list string) (override : cval) : bool :=
  match path, override with
  | [], _ => false
  | key :: rest, CDict d =>
      match dict_get key d with
      | Some v => clear_of rest v
      | None => true
      end
  | _ :: _, CVal _ => false
  end.

End Values.

Arguments CVal {scalar} v.
Arguments CDict {scalar} d.
Arguments merge_value {scalar} current value.
Arguments _deep_merge_configs {scalar} base override.
Arguments lookup {scalar} path c.
Arguments well_formed {scalar} c.
Arguments clear_of {scalar} path override.

(** A default configuration and a mode configuration. *)
Definition sample_default : dict (cval pyval) :=
  [("retrieval",
    CDict [("top_k", CVal (PInt 10)); ("hybrid", CVal (PInt 1))]);
   ("mode", CVal (PStr "default"))].

Definition sample_mode : dict (cval pyval) :=
  [("retrieval", CDict [("top_k", CVal (PInt 3))]);
   ("debug", CVal (PInt 1))].

End Config.

(** ** The chunk records of a document ([document_processor.py]) *)

Module Ingest.
Import Py PyStr Segmenter.

(** [enumerate(l)], counting from [i]. *)
Fixpoint enumerate_from {A : Type} (i : Z) (l : list A) : list (Z * A) :=
  match l with
  | [] => []
  | x :: l' => (i, x) :: enumerate_from (i + 1) l'
  end.

(** [{**d, **items}]: the keys of [d] in their places with the values of
    [items] where both have the key, then the other keys of [items]. *)
Definition update (d items : dict pyval) : dict pyval :=
  fold_left (fun acc kv => dict_set (fst kv) (snd kv) acc) items d.

(** [f"{document_id}_chunk_{i}"] *)
Definition chunk_id_of (document_id : string) (i : Z) : string :=
  (document_id ++ "_chunk_" ++ str_of_Z i)%string.

(** One element of [chunk_data]; the embedding, which comes from the
    embedding model, is left out. *)
Record chunk_datum : Type := mkDatum {
  cd_id : string;
  cd_document_id : string;
  cd_chunk_index : Z;
  cd_text : string;
  cd_metadata : dict pyval
}.

Definition chunk_metadata_of (document_id : string) (i : Z) (c : chunk)
    : dict pyval :=
  [("document_id", PStr document_id);
   ("chunk_index", PInt i);
   ("chunk_id", PStr (chunk_id_of document_id i));
   ("start_char", PInt (start_char c));
   ("end_char", PInt (end_char c));
   ("chunk_size", PInt (len (text c)))].

(** The loop of [process_document] that prepares [chunk_data], with
    entity extraction disabled. *)
Definition chunk_data (document_id : string) (metadata : dict pyval)
    (chunks : list chunk) : list chunk_datum :=
  map (fun ic =>
         let i := fst ic in
         let c := snd ic in
         {| cd_id := chunk_id_of document_id i;
            cd_document_id := document_id;
            cd_chunk_index := i;
            cd_text := text c;
            cd_metadata :=
              update metadata (chunk_metadata_of document_id i c) |})
    (enumerate_from 0 chunks).

(** *** Vocabulary *)

(** The keys that the chunk sets itself. *)
Definition chunk_keys : list string :=
  ["document_id"; "chunk_index"; "chunk_id"; "start_char"; "end_char";
   "chunk_size"].

(** The metadata of [d] describes [d], and has from the metadata of the
    document every other key. *)
Definition describes_itself (metadata : dict pyval) (d : chunk_datum) : Prop :=
  dict_get "document_id" (cd_metadata d) = Some (PStr (cd_document_id d)) /\
  dict_get "chunk_index" (cd_metadata d) = Some (PInt (cd_chunk_index d)) /\
  dict_get "chunk_id" (cd_metadata d) = Some (PStr (cd_id d)) /\
  dict_get "chunk_size" (cd_metadata d) = Some (PInt (len (cd_text d))) /\
  forall key, ~ In key chunk_keys ->
    dict_get key (cd_metadata d) = dict_get key metadata.

End Ingest.
(** ** Properties of the segmenter *)

Module SegmenterFacts.
Import PyStr Segmenter.

Lemma tiled_nonempty o s cs e : tiled o s cs e -> cs <> [].
Proof. destruct 1; discriminate. Qed.

Lemma tiled_head o s cs e :
  tiled o s cs e -> exists c cs', cs = c :: cs' /\ start_char c = s.
Proof. destruct 1; eauto. Qed.

Lemma tiled_last_end o s cs e d :
  tiled o s cs e -> end_char (last cs d) = e.
Proof.
  induction 1 as [c | c cs e Hle Ht IH]; [reflexivity |].
  destruct cs as [| c' cs']; [inversion Ht | exact IH].
Qed.

Lemma tiled_sorted o s cs e :
  tiled o s cs e -> Sorted Z.le (map start_char cs).
Proof.
  induction 1 as [c | c cs e Hle Ht IH]; simpl.
  - repeat constructor.
  - constructor; [exact IH |].
    destruct (tiled_head _ _ _ _ Ht) as (c' & cs' & -> & Hs).
    simpl. constructor. lia.
Qed.

Lemma tiled_covers o s cs e p :
  0 <= o -> tiled o s cs e -> s <= p < e -> covers cs p.
Proof.
  intros Ho Ht. induction Ht as [c | c cs e Hle Ht IH]; intros Hp.
  - constructor. exact Hp.
  - destruct (Z_lt_le_dec p (end_char c)) as [Hlt | Hge].
    + apply Exists_cons_hd. lia.
    + apply Exists_cons_tl. apply IH. lia.
Qed.

(** *** Bounds on [rfind] and on the window *)

Lemma rfind_down_bounds sub s lo k :
  let r := rfind_down sub s lo k in
  r = -1 \/ lo <= r < lo + Z.of_nat k.
Proof.
  induction k as [| k IH]; simpl; [now left |].
  destruct (String.eqb _ _).
  - right. lia.
  - destruct IH as [IH | IH]; [now left | right; lia].
Qed.

Lemma norm_index_id n i : 0 <= i <= n -> norm_index n i = i.
Proof.
  intros H. unfold norm_index.
  destruct (Z.ltb_spec i 0); lia.
Qed.

Lemma rfind_bounds s sub a b :
  0 <= a -> a <= b <= len s -> 0 < len sub ->
  let r := rfind s sub a b in
  r = -1 \/ a <= r <= b - len sub.
Proof.
  intros Ha Hb Hsub. unfold rfind.
  rewrite !norm_index_id by lia.
  destruct (rfind_down_bounds sub s a (Z.to_nat (b - len sub - a + 1)))
    as [H | H]; [now left | right].
  lia.
Qed.

Lemma window_end_bounds txt c s :
  0 < c -> 0 <= s < len txt ->
  let e := window_end txt c s in
  e <= len txt /\
  (e = len txt /\ len txt <= s + c \/ e = s + c \/ s + c / 2 < e < s + c).
Proof.
  intros Hc Hs. unfold window_end.
  destruct (Z.ltb_spec (s + c) (len txt)) as [Hlt | Hge].
  - destruct (Z.gtb_spec (rfind txt ". " s (s + c) + 1) (s + c / 2)) as [Hgt | Hle].
    + assert (Hsub : 0 < len ". ") by reflexivity.
      assert (Hhalf : 0 <= c / 2) by (apply Z.div_pos; lia).
      pose proof (rfind_bounds txt ". " s (s + c)
                    (proj1 Hs) (conj (Z.lt_le_incl _ _ (Z.lt_add_pos_r c s Hc))
                                     (Z.lt_le_incl _ _ Hlt)) Hsub) as H.
      cbv zeta in H. change (len ". ") with 2 in H. lia.
    + lia.
  - lia.
Qed.

Lemma tiny_tail_true txt c s :
  tiny_tail txt c s = true <-> s + c > len txt /\ len txt - s < c / 2.
Proof.
  unfold tiny_tail. rewrite andb_true_iff, Z.gtb_gt, Z.ltb_lt. lia.
Qed.

(** *** The loop under a small overlap *)

Section SmallOverlap.

Variables (txt : string) (c o : Z).
Hypothesis c_pos : 0 < c.
Hypothesis o_small : o = 0 \/ 0 < o < c / 2.

Let n := len txt.

Lemma fixed_loop_tiled (fuel : nat) : forall s,
  0 <= s < n -> n - s < Z.of_nat fuel ->
  exists cs e,
    fixed_loop fuel txt c o s = Done cs /\
    tiled o s cs e /\
    (e = n \/ e <= n /\ tiny_tail txt c (e - o) = true).
Proof.
  induction fuel as [| fuel IH]; intros s Hs Hfuel; [lia |].
  cbn [fixed_loop]. fold n.
  destruct (Z.ltb_spec s n) as [_ | Hge]; [| lia].
  pose proof (window_end_bounds txt c s c_pos Hs) as [Hen Hcases].
  cbv zeta in Hen, Hcases. fold n in Hen, Hcases.
  set (e := window_end txt c s) in *.
  assert (Hhalf : 0 <= c / 2) by (apply Z.div_pos; lia).
  assert (Hclt : c / 2 < c) by (apply Z.div_lt; lia).
  destruct (tiny_tail txt c (e - o)) eqn:Htiny.
  - exists [mkChunk (slice txt s e) s e], e.
    split; [reflexivity |]. split.
    + apply (tiled_last o (mkChunk (slice txt s e) s e)).
    + right. split; [exact Hen | exact Htiny].
  - assert (Hprog : s < e - o).
    { destruct Hcases as [[-> Hn] | [-> | Hsent]]; try lia.
      destruct o_small as [-> | Ho]; [lia |].
      exfalso. apply not_true_iff_false in Htiny. apply Htiny.
      apply tiny_tail_true. fold n. lia. }
    destruct (Z_lt_le_dec (e - o) n) as [Hin | Hout].
    + destruct (IH (e - o)) as (cs & e' & Hrun & Ht & Hend); try lia.
      exists (mkChunk (slice txt s e) s e :: cs), e'.
      rewrite Hrun. cbn [bind]. split; [reflexivity |]. split.
      * apply (tiled_next o (mkChunk (slice txt s e) s e)); simpl; [lia | exact Ht].
      * exact Hend.
    + exists [mkChunk (slice txt s e) s e], e.
      assert (Hrun : fixed_loop fuel txt c o (e - o) = Done []).
      { destruct fuel as [| fuel']; [lia |].
        cbn [fixed_loop]. fold n.
        destruct (Z.ltb_spec (e - o) n); [lia | reflexivity]. }
      rewrite Hrun. cbn [bind]. split; [reflexivity |]. split.
      * apply (tiled_last o (mkChunk (slice txt s e) s e)).
      * left. destruct o_small; lia.
Qed.

Lemma fixed_chunks_small_overlap : fixed_spans_ok txt c o.
Proof.
  unfold fixed_spans_ok, _create_fixed_chunks. fold n.
  exists (S (String.length txt)).
  destruct (Z.leb_spec n c) as [Hle | Hgt].
  - exists [mkChunk txt 0 n]. split; [reflexivity |]. split.
    + simpl. repeat constructor.
    + intros p Hp. left. constructor. simpl. lia.
  - destruct (fixed_loop_tiled (S (String.length txt)) 0)
      as (cs & e & Hrun & Ht & Hend).
    + lia.
    + unfold n, len. lia.
    + exists cs. split; [exact Hrun |]. split.
      * exact (tiled_sorted _ _ _ _ Ht).
      * intros p Hp.
        assert (Ho : 0 <= o) by (destruct o_small; lia).
        destruct (Z_lt_le_dec p e) as [Hlt | Hge].
        -- left. apply (tiled_covers o 0 cs e); [exact Ho | exact Ht | lia].
        -- right. unfold dropped_tail.
           rewrite (tiled_last_end _ _ _ _ (mkChunk "" 0 0) Ht).
           destruct Hend as [-> | [_ Htiny]]; [lia |].
           split; [exact Htiny | exact Hge].
Qed.

End SmallOverlap.

(** *** The segmenter raises nothing *)

Lemma fixed_loop_no_fail fuel txt c o : forall s e,
  fixed_loop fuel txt c o s <> Fail e.
Proof.
  induction fuel as [| fuel IH]; intros s e; cbn [fixed_loop]; [discriminate |].
  destruct (s <? len txt); [| discriminate].
  destruct (tiny_tail _ _ _); [discriminate |].
  specialize (IH (window_end txt c s - o) e).
  destruct (fixed_loop fuel txt c o (window_end txt c s - o));
    cbn [bind]; congruence.
Qed.

Lemma fixed_chunks_no_fail fuel txt c o e :
  _create_fixed_chunks fuel txt c o <> Fail e.
Proof.
  unfold _create_fixed_chunks.
  destruct (len txt <=? c); [discriminate | apply fixed_loop_no_fail].
Qed.

Lemma adaptive_step_no_fail fuel c o st raw e :
  adaptive_step fuel c o st raw <> Fail e.
Proof.
  unfold adaptive_step.
  destruct (String.eqb _ _); [discriminate |].
  destruct (len (strip raw) >? c); [| discriminate].
  pose proof (fixed_chunks_no_fail fuel (strip raw) c o e) as H.
  destruct (_create_fixed_chunks fuel (strip raw) c o);
    cbn [bind]; congruence.
Qed.

Lemma adaptive_loop_no_fail fuel c o ps : forall st e,
  adaptive_loop fuel c o ps st <> Fail e.
Proof.
  induction ps as [| p ps IH]; intros st e; cbn [adaptive_loop]; [discriminate |].
  pose proof (adaptive_step_no_fail fuel c o st p e) as H.
  destruct (adaptive_step fuel c o st p); cbn [bind];
    [apply IH | congruence | discriminate].
Qed.

Lemma create_chunks_no_fail fuel txt c o adaptive e :
  _create_chunks fuel txt c o adaptive <> Fail e.
Proof.
  unfold _create_chunks, _create_adaptive_chunks.
  destruct adaptive; [| apply fixed_chunks_no_fail].
  pose proof (adaptive_loop_no_fail fuel c o (split_paragraphs txt)
                (mkState [] [] 0 0) e) as H.
  destruct (adaptive_loop fuel c o (split_paragraphs txt) (mkState [] [] 0 0));
    cbn [bind]; [| congruence | discriminate].
  destruct (current_chunk a); discriminate.
Qed.

(** *** A loop that never ends: overlap 5 on windows of 10 *)

Lemma stuck_at_6 fuel :
  fixed_loop fuel "aaaaaaaaaaa" 10 5 6 = OutOfFuel.
Proof.
  induction fuel as [| fuel IH]; [reflexivity |].
  cbn [fixed_loop].
  change (6 <? len "aaaaaaaaaaa") with true. cbv iota.
  change (window_end "aaaaaaaaaaa" 10 6) with 11.
  change (11 - 5) with 6.
  change (tiny_tail "aaaaaaaaaaa" 10 6) with false. cbv iota zeta.
  rewrite IH. reflexivity.
Qed.

Lemma overlap_5_diverges fuel :
  _create_fixed_chunks fuel "aaaaaaaaaaa" 10 5 = OutOfFuel.
Proof.
  unfold _create_fixed_chunks.
  change (len "aaaaaaaaaaa" <=? 10) with false. cbv iota.
  destruct fuel as [| [| fuel]]; try reflexivity.
  cbn [fixed_loop].
  change (0 <? len "aaaaaaaaaaa") with true. cbv iota.
  change (window_end "aaaaaaaaaaa" 10 0) with 10.
  change (10 - 5) with 5.
  change (tiny_tail "aaaaaaaaaaa" 10 5) with false.
  change (5 <? len "aaaaaaaaaaa") with true. cbv iota zeta.
  change (window_end "aaaaaaaaaaa" 10 5) with 11.
  change (11 - 5) with 6.
  change (tiny_tail "aaaaaaaaaaa" 10 6) with false. cbv iota.
  rewrite stuck_at_6. reflexivity.
Qed.

(** Where the loop ends.  For every text, every chunk size above zero and
    every overlap that is zero or positive and below half the chunk size
    (rounded down), fixed-mode segmentation returns chunks whose start
    offsets never decrease and whose spans cover every position of the
    text, apart from the trailing positions dropped by the tiny-tail exit
    of the loop. *)
Theorem fixed_chunks_cover_text (txt : string) (chunk_size chunk_overlap : Z) :
  0 < chunk_size ->
  chunk_overlap = 0 \/ 0 < chunk_overlap < chunk_size / 2 ->
  fixed_spans_ok txt chunk_size chunk_overlap.
Proof.
  intros Hc Ho. exact (fixed_chunks_small_overlap txt chunk_size chunk_overlap Hc Ho).
Qed.

Lemma fixed_chunks_cover_text_witness :
  0 < 30 /\ (10 = 0 \/ 0 < 10 < 30 / 2) /\
  fixed_spans_ok
    "This is a test document. It has several sentences. Here is another one. And another."
    30 10.
Proof.
  assert (H1 : 0 < 30) by lia.
  assert (H2 : 10 = 0 \/ 0 < 10 < 30 / 2) by (right; vm_compute; split; reflexivity).
  split; [exact H1 |]. split; [exact H2 |].
  apply (fixed_chunks_cover_text _ 30 10 H1 H2).
Defined.

(** Outside that range the property is lost.  With windows of 10 and
    overlap 5 the call on an 11-character text never returns; with
    overlap -5 a 25-character text is cut into the spans 0..10 and 15..25,
    and position 12 is in neither and not in a dropped tail. *)
Lemma fixed_chunks_any_overlap_fails :
  ~ fixed_spans_ok "aaaaaaaaaaa" 10 5 /\
  ~ fixed_spans_ok "aaaaaaaaaaaaaaaaaaaaaaaaa" 10 (-5).
Proof.
  split.
  - intros (fuel & cs & Hrun & _).
    rewrite overlap_5_diverges in Hrun. discriminate.
  - intros (fuel & cs & Hrun & _ & Hcov).
    assert (Hcs : cs = [mkChunk "aaaaaaaaaa" 0 10; mkChunk "aaaaaaaaaa" 15 25]).
    { destruct fuel as [| [| fuel]]; vm_compute in Hrun; congruence. }
    subst cs.
    destruct (Hcov 12) as [H | [_ H]].
    + vm_compute. split; [discriminate | reflexivity].
    + unfold covers in H. rewrite Exists_cons in H.
      destruct H as [H | H]; [simpl in H; lia |].
      rewrite Exists_cons in H.
      destruct H as [H | H]; [simpl in H; lia |].
      inversion H.
    + simpl in H. lia.
Qed.

(** *** An overlap of half the chunk size or more *)

Lemma norm_index_range n i : 0 <= n -> 0 <= norm_index n i <= n.
Proof.
  intros Hn. unfold norm_index. destruct (Z.ltb_spec i 0); lia.
Qed.

Lemma rfind_below s sub a b : 0 < len sub -> rfind s sub a b < len s.
Proof.
  intros Hsub. unfold rfind.
  assert (Hn : 0 <= len s) by (unfold len; lia).
  pose proof (norm_index_range (len s) a Hn) as Ha.
  pose proof (norm_index_range (len s) b Hn) as Hb.
  destruct (rfind_down_bounds sub s (norm_index (len s) a)
              (Z.to_nat (norm_index (len s) b - len sub
                         - norm_index (len s) a + 1))) as [H | H];
    cbv zeta in H; lia.
Qed.

Lemma window_end_below txt c s : window_end txt c s <= len txt.
Proof.
  unfold window_end.
  destruct (Z.ltb_spec (s + c) (len txt)) as [Hlt | _]; [| lia].
  pose proof (rfind_below txt ". " s (s + c) eq_refl) as Hr.
  destruct (_ >? _); lia.
Qed.

Section LargeOverlap.

Variables (txt : string) (c o : Z).
Hypothesis o_pos : 0 < o.
Hypothesis o_large : c / 2 <= o.

(** Neither exit of the loop is taken: the next start stays at least [o]
    below the end of the text, so it is inside the text and the rest is
    never a tiny tail. *)
Lemma fixed_loop_never_ends (fuel : nat) : forall s,
  s < len txt -> fixed_loop fuel txt c o s = OutOfFuel.
Proof.
  induction fuel as [| fuel IH]; intros s Hs; [reflexivity |].
  cbn [fixed_loop].
  destruct (Z.ltb_spec s (len txt)) as [_ | ?]; [| lia].
  pose proof (window_end_below txt c s) as He. cbv zeta.
  assert (Htail : tiny_tail txt c (window_end txt c s - o) = false).
  { apply not_true_iff_false. rewrite tiny_tail_true. lia. }
  rewrite Htail, IH by lia. reflexivity.
Qed.

End LargeOverlap.

(** C3 (the code at the failing input).  For a chunk size above zero, a
    text longer than the chunk size and an overlap above zero that is at
    least half the chunk size (rounded down), fixed-mode segmentation
    does not return: whatever the number of turns allowed, the loop uses
    them all.  So it is with chunk size 10 and overlap 5 on a text of 11
    characters, where the start stays at 6. *)
Theorem fixed_chunks_never_return (txt : string)
    (chunk_size chunk_overlap : Z) (fuel : nat) :
  0 < chunk_size ->
  chunk_size < len txt ->
  0 < chunk_overlap ->
  chunk_size / 2 <= chunk_overlap ->
  _create_fixed_chunks fuel txt chunk_size chunk_overlap = OutOfFuel /\
  ~ fixed_spans_ok txt chunk_size chunk_overlap.
Proof.
  intros Hc Hlen Ho Hhalf.
  assert (Hrun : forall k,
            _create_fixed_chunks k txt chunk_size chunk_overlap = OutOfFuel).
  { intros k. unfold _create_fixed_chunks.
    destruct (Z.leb_spec (len txt) chunk_size) as [? | _]; [lia |].
    apply (fixed_loop_never_ends txt chunk_size chunk_overlap Ho Hhalf); lia. }
  split; [apply Hrun |].
  intros (k & cs & Hdone & _). rewrite Hrun in Hdone. discriminate.
Qed.

Lemma fixed_chunks_never_return_witness :
  _create_fixed_chunks 1000 "aaaaaaaaaaa" 10 5 = OutOfFuel /\
  ~ fixed_spans_ok "aaaaaaaaaaa" 10 5.
Proof.
  apply (fixed_chunks_never_return "aaaaaaaaaaa" 10 5 1000).
  - lia.
  - reflexivity.
  - lia.
  - vm_compute. discriminate.
Defined.

(** C4 (as amended).  Empty text gives no chunk in adaptive mode; in fixed
    mode it gives one empty chunk spanning 0..0 when the chunk size is not
    negative, and no chunk when it is negative.  The chunk size is not
    validated: no call to the segmenter, whatever the chunk size, fails. *)
Theorem empty_text_and_chunk_size (fuel : nat) (chunk_size chunk_overlap : Z) :
  _create_chunks (S fuel) "" chunk_size chunk_overlap true = Done [] /\
  _create_chunks (S fuel) "" chunk_size chunk_overlap false
    = Done (if 0 <=? chunk_size then [mkChunk "" 0 0] else []) /\
  forall txt adaptive e,
    _create_chunks fuel txt chunk_size chunk_overlap adaptive <> Fail e.
Proof.
  split; [reflexivity |]. split.
  - unfold _create_chunks, _create_fixed_chunks.
    change (len "") with 0.
    destruct (0 <=? chunk_size); reflexivity.
  - intros txt adaptive e. apply create_chunks_no_fail.
Qed.

(** C4 (as stated) fails.  Fixed mode returns one chunk, not zero, for the
    empty text; and with chunk size 0 both modes return instead of
    failing. *)
Lemma empty_text_one_chunk_no_error :
  _create_chunks 1 "" 1000 200 false = Done [mkChunk "" 0 0] /\
  _create_chunks 1 "" 0 0 false = Done [mkChunk "" 0 0] /\
  _create_chunks 1 "" 0 0 true = Done [].
Proof. repeat split. Qed.

End SegmenterFacts.

(** ** Facts about dictionaries and the stable sort *)

Module PyFacts.
Import Py.

Section Dict.

Context {V : Type}.
Implicit Types (d : dict V) (k : string) (v : V).

Lemma dict_get_set k k' v d :
  dict_get k' (dict_set k v d)
  = if String.eqb k k' then Some v else dict_get k' d.
Proof.
  induction d as [| [k0 v0] d IH]; simpl.
  - reflexivity.
  - destruct (String.eqb_spec k0 k) as [-> | Hne]; simpl.
    + destruct (String.eqb_spec k k'); reflexivity.
    + rewrite IH.
      destruct (String.eqb_spec k0 k') as [-> |]; [| reflexivity].
      destruct (String.eqb_spec k k'); [congruence | reflexivity].
Qed.

Lemma keys_set k v d : keys (dict_set k v d) = remember (keys d) k.
Proof.
  unfold remember, keys.
  induction d as [| [k0 v0] d IH]; simpl; [reflexivity |].
  rewrite (String.eqb_sym k k0).
  destruct (String.eqb k0 k); simpl; [reflexivity |].
  rewrite IH. destruct (existsb (String.eqb k) (map fst d)); reflexivity.
Qed.

Lemma remember_NoDup acc k : NoDup acc -> NoDup (remember acc k).
Proof.
  intros Hnd. unfold remember.
  destruct (existsb (String.eqb k) acc) eqn:Hex; [exact Hnd |].
  apply NoDup_app; [exact Hnd | repeat constructor; intros [] |].
  intros x Hx [Heq | []]. subst x.
  assert (existsb (String.eqb k) acc = true); [| congruence].
  apply existsb_exists. exists k. split; [exact Hx | apply String.eqb_refl].
Qed.

Lemma in_dict_get k v d :
  NoDup (keys d) -> In (k, v) d -> dict_get k d = Some v.
Proof.
  induction d as [| [k0 v0] d IH]; simpl; intros Hnd Hin; [contradiction |].
  inversion Hnd as [| ? ? Hnotin Hnd']; subst.
  destruct Hin as [[= -> ->] | Hin].
  - now rewrite String.eqb_refl.
  - destruct (String.eqb_spec k0 k) as [-> | _]; [| now apply IH].
    exfalso. apply Hnotin. apply (in_map fst) in Hin. exact Hin.
Qed.

Lemma values_set (Q : V -> Prop) k v d :
  Q v -> Forall Q (values d) -> Forall Q (values (dict_set k v d)).
Proof.
  intros Hv. unfold values.
  induction d as [| [k0 v0] d IH]; simpl; intros Hd.
  - constructor; [exact Hv | constructor].
  - inversion Hd; subst.
    destruct (String.eqb k0 k); simpl; constructor; auto.
Qed.

Lemma dict_get_in k v d : dict_get k d = Some v -> In (k, v) d.
Proof.
  induction d as [| [k0 v0] d IH]; simpl; [discriminate |].
  destruct (String.eqb_spec k0 k) as [-> | _].
  - intros [= ->]. now left.
  - intros H. right. now apply IH.
Qed.

End Dict.

Lemma fromkeys_NoDup ks : NoDup (fromkeys ks).
Proof.
  unfold fromkeys.
  assert (H : forall acc, NoDup acc -> NoDup (fold_left remember ks acc)).
  { induction ks as [| k ks IH]; intros acc Hacc; simpl; [exact Hacc |].
    apply IH, remember_NoDup, Hacc. }
  apply H. constructor.
Qed.

Section SortBy.

Context {A : Type} (leb : A -> A -> bool).

Lemma insert_by_perm x l : Permutation (x :: l) (insert_by leb x l).
Proof.
  induction l as [| y l IH]; simpl; [reflexivity |].
  destruct (leb x y); [reflexivity |].
  rewrite perm_swap. now constructor.
Qed.

Lemma sort_by_perm l : Permutation l (sort_by leb l).
Proof.
  induction l as [| x l IH]; simpl; [constructor |].
  rewrite <- insert_by_perm. now constructor.
Qed.

Hypothesis leb_total : forall x y, leb x y = false -> leb y x = true.

Lemma insert_by_sorted x l :
  Sorted (fun a b => leb a b = true) l ->
  Sorted (fun a b => leb a b = true) (insert_by leb x l).
Proof.
  induction l as [| y l IH]; simpl; intros Hs.
  - repeat constructor.
  - destruct (leb x y) eqn:Hle.
    + constructor; [exact Hs |]. now constructor.
    + inversion Hs as [| ? ? Hs' Hhd]; subst.
      constructor; [now apply IH |].
      destruct l as [| z l]; simpl.
      * constructor. now apply leb_total.
      * destruct (leb x z).
        -- constructor. now apply leb_total.
        -- inversion Hhd; subst. now constructor.
Qed.

Lemma sort_by_sorted l : Sorted (fun a b => leb a b = true) (sort_by leb l).
Proof.
  induction l as [| x l IH]; simpl; [constructor |].
  now apply insert_by_sorted.
Qed.

End SortBy.

Lemma Sorted_weaken {A : Type} (R R' : A -> A -> Prop) l :
  (forall a b, R a b -> R' a b) -> Sorted R l -> Sorted R' l.
Proof.
  intros Himp. induction 1 as [| a l Hs IH Hhd]; constructor; trivial.
  destruct Hhd; constructor; auto.
Qed.

Section Sort.

Context {A : Type} (key : A -> Q).

Lemma sort_desc_perm l : Permutation l (sort_desc key l).
Proof. apply sort_by_perm. Qed.

Lemma sort_desc_sorted l : Sorted (desc key) (sort_desc key l).
Proof.
  apply Sorted_weaken
    with (R := fun a b => Qle_bool (key b) (key a) = true).
  - intros a b H. now apply Qle_bool_iff.
  - apply sort_by_sorted.
    intros x y H. apply Qle_bool_iff. apply Qlt_le_weak.
    apply Qnot_le_lt. intros Hle. apply Qle_bool_iff in Hle. congruence.
Qed.

(** Stability: the elements with a given key value keep their order. *)
Lemma insert_desc_stable q x l :
  filter (fun a => Qeq_bool (key a) q)
    (insert_by (fun x y => Qle_bool (key y) (key x)) x l)
  = filter (fun a => Qeq_bool (key a) q) (x :: l).
Proof.
  induction l as [| y l IH]; [reflexivity |].
  cbn [insert_by].
  destruct (Qle_bool (key y) (key x)) eqn:Hle; [reflexivity |].
  cbn [filter] in *. rewrite IH.
  destruct (Qeq_bool (key x) q) eqn:Hx; [| reflexivity].
  destruct (Qeq_bool (key y) q) eqn:Hy; [| reflexivity].
  exfalso.
  apply Qeq_bool_iff in Hx, Hy.
  assert (H : Qle_bool (key y) (key x) = true); [| congruence].
  apply Qle_bool_iff. rewrite Hx, Hy. apply Qle_refl.
Qed.

Lemma sort_desc_stable q l :
  filter (fun a => Qeq_bool (key a) q) (sort_desc key l)
  = filter (fun a => Qeq_bool (key a) q) l.
Proof.
  induction l as [| x l IH]; [reflexivity |].
  unfold sort_desc in *. cbn [sort_by fold_right].
  rewrite insert_desc_stable.
  cbn [filter]. fold (sort_by (fun x y => Qle_bool (key y) (key x)) l).
  now rewrite IH.
Qed.

End Sort.

(** *** The key of a string identifier and an integer index *)

Lemma no_colon_app_colon s t : ~ no_colon (s ++ String colon t)%string.
Proof.
  induction s as [| c s IH]; simpl.
  - intros [H _]. now apply H.
  - intros [_ H]. now apply IH.
Qed.

Lemma split_at_last_colon s1 s2 t1 t2 :
  no_colon t1 -> no_colon t2 ->
  (s1 ++ String colon t1)%string = (s2 ++ String colon t2)%string ->
  s1 = s2 /\ t1 = t2.
Proof.
  intros H1 H2. revert s2.
  induction s1 as [| c s1 IH]; intros [| c' s2]; simpl; intros Heq.
  - now injection Heq.
  - injection Heq as _ ->. now apply no_colon_app_colon in H1.
  - injection Heq as _ <-. now apply no_colon_app_colon in H2.
  - injection Heq as -> Heq. destruct (IH _ Heq) as [-> ->]. now split.
Qed.

Lemma uint_no_colon d : no_colon (NilEmpty.string_of_uint d).
Proof.
  induction d; simpl; (exact I || (split; [discriminate | assumption])).
Qed.

Lemma str_of_Z_no_colon z : no_colon (str_of_Z z).
Proof.
  unfold str_of_Z.
  destruct (Z.to_int z) as [d | d]; simpl.
  - destruct d; try apply (uint_no_colon (_ _)). simpl. split; [discriminate | exact I].
  - split; [discriminate |].
    destruct d; try apply (uint_no_colon (_ _)). simpl. split; [discriminate | exact I].
Qed.

Lemma to_int_not_nil z : Z.to_int z <> Decimal.Pos Decimal.Nil /\
                         Z.to_int z <> Decimal.Neg Decimal.Nil.
Proof.
  split; intros H; pose proof (DecimalZ.of_to z) as Hz; rewrite H in Hz;
    simpl in Hz; subst z; discriminate.
Qed.

Lemma str_of_Z_inj a b : str_of_Z a = str_of_Z b -> a = b.
Proof.
  unfold str_of_Z. intros H.
  apply DecimalZ.to_int_inj.
  destruct (to_int_not_nil a) as [Ha1 Ha2], (to_int_not_nil b) as [Hb1 Hb2].
  pose proof (NilZero.isi _ Ha1 Ha2) as Ia.
  pose proof (NilZero.isi _ Hb1 Hb2) as Ib.
  rewrite H in Ia. congruence.
Qed.

(** *** Python's [min] and [max] *)

Lemma Qlt_bool_iff a b : Qlt_bool a b = true <-> (a < b)%Q.
Proof.
  unfold Qlt_bool. rewrite negb_true_iff.
  split.
  - intros H. apply Qnot_le_lt. intros Hle.
    apply Qle_bool_iff in Hle. congruence.
  - intros H. destruct (Qle_bool b a) eqn:Hle; [| reflexivity].
    apply Qle_bool_iff in Hle. exfalso. exact (Qlt_not_le _ _ H Hle).
Qed.

Lemma Qlt_bool_false a b : Qlt_bool a b = false <-> (b <= a)%Q.
Proof.
  unfold Qlt_bool. rewrite negb_false_iff. apply Qle_bool_iff.
Qed.

Lemma py_max_ub a b : (a <= py_max a b /\ b <= py_max a b)%Q.
Proof.
  unfold py_max. destruct (Qlt_bool a b) eqn:H.
  - apply Qlt_bool_iff in H. split; [now apply Qlt_le_weak | apply Qle_refl].
  - apply Qlt_bool_false in H. split; [apply Qle_refl | exact H].
Qed.

Lemma py_max_cases a b : py_max a b = a \/ py_max a b = b.
Proof. unfold py_max. destruct (Qlt_bool a b); auto. Qed.

Lemma py_min_le_l a b : (a <= b)%Q -> py_min a b = a.
Proof.
  intros H. unfold py_min.
  destruct (Qlt_bool b a) eqn:Hlt; [| reflexivity].
  apply Qlt_bool_iff in Hlt. exfalso. exact (Qlt_not_le _ _ Hlt H).
Qed.

Lemma py_min_ge_r a b : (b <= a)%Q -> (py_min a b == b)%Q.
Proof.
  intros H. unfold py_min.
  destruct (Qlt_bool b a) eqn:Hlt; [reflexivity |].
  apply Qlt_bool_false in Hlt. now apply Qle_antisym.
Qed.

Lemma fold_py_max_ub hs : forall h,
  (h <= fold_left py_max hs h)%Q
  /\ Forall (fun s => (s <= fold_left py_max hs h)%Q) hs.
Proof.
  induction hs as [| s hs IH]; intros h; cbn [fold_left].
  - split; [apply Qle_refl | constructor].
  - destruct (IH (py_max h s)) as [H1 H2].
    destruct (py_max_ub h s) as [Ha Hb].
    split; [now apply Qle_trans with (py_max h s) |].
    constructor; [now apply Qle_trans with (py_max h s) | exact H2].
Qed.

Lemma fold_py_max_in hs : forall h,
  In (fold_left py_max hs h) (h :: hs).
Proof.
  induction hs as [| s hs IH]; intros h; cbn [fold_left].
  - now left.
  - destruct (IH (py_max h s)) as [H | H].
    + destruct (py_max_cases h s) as [E | E].
      * left. congruence.
      * right. left. congruence.
    + right. now right.
Qed.

End PyFacts.

(** ** Properties of the hybrid merge *)

Module RetrieverFacts.
Import Py Float64 PyFacts Retriever.

(** *** Sums with zero *)

Lemma no_vector_part : fmul (float_of (7 # 10)) 0 = 0%Q.
Proof. vm_compute. reflexivity. Qed.

Lemma fadd_zero_l y : fadd 0 y = y.
Proof. reflexivity. Qed.

Lemma fadd_zero_r x : (fadd x 0 == x)%Q.
Proof.
  unfold fadd. destruct (Qeq_bool x 0) eqn:E.
  - apply Qeq_bool_iff in E. now rewrite E.
  - reflexivity.
Qed.

(** *** One turn of each loop *)

Lemma add_vector_miss k d r :
  has_key vector_key k r = false ->
  dict_get k (add_vector d r) = dict_get k d.
Proof.
  unfold has_key, vector_key, add_vector.
  destruct (usable _ _); cbn [negb]; [| reflexivity].
  intros Hk. rewrite dict_get_set, Hk. reflexivity.
Qed.

Lemma add_vector_hit k d r :
  has_key vector_key k r = true ->
  exists m, dict_get k (add_vector d r) = Some m /\
            r_vector_score m = Some (number (r_score r)) /\
            r_combined_score m = Some (number (r_score r)).
Proof.
  unfold has_key, vector_key, add_vector.
  destruct (usable _ _); cbn [negb]; [| discriminate].
  intros Hk. rewrite dict_get_set, Hk. eexists. split; [reflexivity |].
  split; reflexivity.
Qed.

Lemma add_keyword_miss k d r :
  has_key keyword_key k r = false ->
  dict_get k (add_keyword d r) = dict_get k d.
Proof.
  unfold has_key, keyword_key, add_keyword.
  destruct (usable _ _); cbn [negb]; [| reflexivity].
  intros Hk.
  destruct (dict_get (make_key _ _) d); rewrite dict_get_set, Hk; reflexivity.
Qed.

Lemma add_keyword_hit k d r :
  has_key keyword_key k r = true ->
  exists m, dict_get k (add_keyword d r) = Some m /\
            number (r_vector_score m) = stored_vector_score k d /\
            (combined m
             == fadd (fmul (float_of (7 # 10)) (stored_vector_score k d))
                     (fmul (float_of (3 # 10)) (number (r_score r))))%Q.
Proof.
  unfold has_key, keyword_key, add_keyword, stored_vector_score.
  destruct (usable _ _); cbn [negb]; [| discriminate].
  intros Hk. apply String.eqb_eq in Hk. rewrite Hk.
  destruct (dict_get k d) as [m0 |];
    rewrite dict_get_set, String.eqb_refl; eexists;
    (split; [reflexivity |]); (split; [reflexivity |]);
    unfold combined; cbn [r_combined_score number].
  - reflexivity.
  - rewrite no_vector_part, fadd_zero_l. reflexivity.
Qed.

(** *** The two loops *)

Lemma vector_loop k vs : forall d,
  match last_score vector_key k vs with
  | Some v =>
      exists m, dict_get k (fold_left add_vector vs d) = Some m /\
                r_vector_score m = Some v /\ r_combined_score m = Some v
  | None => dict_get k (fold_left add_vector vs d) = dict_get k d
  end.
Proof.
  induction vs as [| r vs IH]; intros d; cbn [last_score fold_left].
  - reflexivity.
  - specialize (IH (add_vector d r)).
    destruct (last_score vector_key k vs) as [v |]; [exact IH |].
    destruct (has_key vector_key k r) eqn:Hk.
    + rewrite IH. now apply add_vector_hit.
    + rewrite IH. now apply add_vector_miss.
Qed.

Lemma keyword_loop k ks : forall d,
  match last_score keyword_key k ks with
  | Some s =>
      exists m, dict_get k (fold_left add_keyword ks d) = Some m /\
                (combined m
                 == fadd (fmul (float_of (7 # 10)) (stored_vector_score k d))
                         (fmul (float_of (3 # 10)) s))%Q
  | None => dict_get k (fold_left add_keyword ks d) = dict_get k d
  end.
Proof.
  induction ks as [| r ks IH]; intros d; cbn [last_score fold_left].
  - reflexivity.
  - specialize (IH (add_keyword d r)).
    destruct (last_score keyword_key k ks) as [s |].
    + destruct IH as (m & Hget & Hc). exists m. split; [exact Hget |].
      rewrite Hc.
      assert (Hsame : stored_vector_score k (add_keyword d r)
                      = stored_vector_score k d); [| now rewrite Hsame].
      destruct (has_key keyword_key k r) eqn:Hk.
      * destruct (add_keyword_hit k d r Hk) as (m' & Hget' & Hv & _).
        unfold stored_vector_score at 1. now rewrite Hget'.
      * unfold stored_vector_score. now rewrite add_keyword_miss.
    + destruct (has_key keyword_key k r) eqn:Hk.
      * rewrite IH.
        destruct (add_keyword_hit k d r Hk) as (m & Hget & _ & Hc).
        now exists m.
      * rewrite IH. now apply add_keyword_miss.
Qed.

(** *** Keys and identifiers of the merged dictionary *)

Lemma keys_add_vector d r :
  keys (add_vector d r)
  = fold_left remember (key_list vector_key [r]) (keys d).
Proof.
  unfold add_vector, key_list, vector_key. cbn [flat_map].
  destruct (usable _ _); cbn [negb]; [| reflexivity].
  rewrite keys_set. reflexivity.
Qed.

Lemma keys_add_keyword d r :
  keys (add_keyword d r)
  = fold_left remember (key_list keyword_key [r]) (keys d).
Proof.
  unfold add_keyword, key_list, keyword_key. cbn [flat_map].
  destruct (usable _ _); cbn [negb]; [| reflexivity].
  destruct (dict_get _ d); rewrite keys_set; reflexivity.
Qed.

Lemma keys_loop (step : dict result -> result -> dict result)
    (key_of : result -> option string) :
  (forall d r, keys (step d r)
               = fold_left remember (key_list key_of [r]) (keys d)) ->
  forall rs d,
    keys (fold_left step rs d)
    = fold_left remember (key_list key_of rs) (keys d).
Proof.
  intros Hstep rs. induction rs as [| r rs IH]; intros d; [reflexivity |].
  cbn [fold_left]. rewrite IH, Hstep.
  replace (key_list key_of (r :: rs))
    with (key_list key_of [r] ++ key_list key_of rs)
    by (unfold key_list; cbn [flat_map]; now rewrite app_nil_r).
  now rewrite fold_left_app.
Qed.

Lemma keys_merged vs ks :
  keys (merged_dict vs ks) = fromkeys (candidate_keys vs ks).
Proof.
  unfold merged_dict, fromkeys, candidate_keys.
  rewrite (keys_loop add_keyword keyword_key keys_add_keyword).
  rewrite (keys_loop add_vector vector_key keys_add_vector).
  now rewrite fold_left_app.
Qed.

Lemma ids_ok_set k m d :
  r_id m = Some (PStr k) -> ids_ok d -> ids_ok (dict_set k m d).
Proof.
  intros Hm. unfold ids_ok.
  induction d as [| [k0 m0] d IH]; cbn [dict_set]; intros Hd.
  - constructor; [exact Hm | constructor].
  - inversion Hd; subst.
    destruct (String.eqb_spec k0 k) as [-> | _]; constructor; auto.
Qed.

Lemma ids_ok_add_vector d r : ids_ok d -> ids_ok (add_vector d r).
Proof.
  unfold add_vector. destruct (negb _); [trivial |].
  now apply ids_ok_set.
Qed.

Lemma ids_ok_add_keyword d r : ids_ok d -> ids_ok (add_keyword d r).
Proof.
  unfold add_keyword. intros Hd. destruct (negb _); [trivial |].
  destruct (dict_get _ d) as [m |] eqn:Hget; apply ids_ok_set; trivial.
  cbn [r_id]. apply dict_get_in in Hget.
  unfold ids_ok in Hd. rewrite Forall_forall in Hd.
  exact (Hd _ Hget).
Qed.

Lemma ids_ok_loop (step : dict result -> result -> dict result) :
  (forall d r, ids_ok d -> ids_ok (step d r)) ->
  forall rs d, ids_ok d -> ids_ok (fold_left step rs d).
Proof.
  intros Hstep rs. induction rs as [| r rs IH]; intros d Hd; cbn; auto.
Qed.

Lemma ids_ok_merged vs ks : ids_ok (merged_dict vs ks).
Proof.
  unfold merged_dict.
  apply (ids_ok_loop _ ids_ok_add_keyword).
  apply (ids_ok_loop _ ids_ok_add_vector).
  constructor.
Qed.

Lemma id_keys_merged vs ks :
  map id_key (values (merged_dict vs ks)) = keys (merged_dict vs ks).
Proof.
  pose proof (ids_ok_merged vs ks) as H. unfold ids_ok in H.
  unfold values, keys. induction H as [| [k m] d Hm _ IH]; [reflexivity |].
  cbn [map fst snd]. rewrite IH. unfold id_key.
  cbn [fst snd] in Hm. now rewrite Hm.
Qed.

Lemma merged_entry vs ks e :
  In e (values (merged_dict vs ks)) ->
  dict_get (id_key e) (merged_dict vs ks) = Some e.
Proof.
  intros Hin. unfold values in Hin. apply in_map_iff in Hin.
  destruct Hin as ([k m] & Heq & Hin). cbn [snd] in Heq. subst m.
  pose proof (ids_ok_merged vs ks) as Hid. unfold ids_ok in Hid.
  rewrite Forall_forall in Hid. pose proof (Hid _ Hin) as Hk.
  cbn [fst snd] in Hk. unfold id_key. rewrite Hk. cbn [field py_str].
  apply in_dict_get; [| exact Hin].
  rewrite keys_merged. apply fromkeys_NoDup.
Qed.

(** *** The combined score of a merged entry *)

Lemma merged_scores vs ks e :
  In e (values (merged_dict vs ks)) ->
  match last_score vector_key (id_key e) vs,
        last_score keyword_key (id_key e) ks with
  | Some v, Some s =>
      (combined e
       == fadd (fmul (float_of (7 # 10)) v) (fmul (float_of (3 # 10)) s))%Q
  | Some v, None => (combined e == v)%Q
  | None, Some s => (combined e == fmul (float_of (3 # 10)) s)%Q
  | None, None => False
  end.
Proof.
  intros Hin. apply merged_entry in Hin.
  set (k := id_key e) in *. unfold merged_dict in Hin.
  pose proof (vector_loop k vs []) as Hv.
  pose proof (keyword_loop k ks (fold_left add_vector vs [])) as Hk.
  assert (Hstored : stored_vector_score k (fold_left add_vector vs [])
                    = match last_score vector_key k vs with
                      | Some v => v
                      | None => 0%Q
                      end).
  { unfold stored_vector_score.
    destruct (last_score vector_key k vs) as [v |].
    - destruct Hv as (m & -> & -> & _). reflexivity.
    - rewrite Hv. reflexivity. }
  destruct (last_score keyword_key k ks) as [s |].
  - destruct Hk as (m & Hget & Hc). rewrite Hin in Hget.
    injection Hget as <-. rewrite Hstored in Hc.
    destruct (last_score vector_key k vs) as [v |]; [exact Hc |].
    rewrite Hc, no_vector_part, fadd_zero_l. reflexivity.
  - rewrite Hk in Hin.
    destruct (last_score vector_key k vs) as [v |].
    + destruct Hv as (m & Hget & _ & Hc). rewrite Hin in Hget.
      injection Hget as <-. unfold combined. rewrite Hc. reflexivity.
    + rewrite Hv in Hin. discriminate.
Qed.

(** *** Where merged entries come from *)

Lemma usable_true d c :
  usable d c = true -> truthy d = true /\ c <> PNone.
Proof.
  unfold usable. rewrite andb_true_iff, negb_true_iff.
  intros [Hd Hc]. split; [exact Hd |]. intros ->. discriminate.
Qed.

Lemma origin_add_vector vs ks d r :
  In r vs ->
  Forall (from_usable_candidate vs ks) (values d) ->
  Forall (from_usable_candidate vs ks) (values (add_vector d r)).
Proof.
  intros Hr Hd. unfold add_vector.
  destruct (usable _ _) eqn:Hu; cbn [negb]; [| exact Hd].
  apply values_set; [| exact Hd].
  destruct (usable_true _ _ Hu) as [Ht Hc].
  eexists _, _. repeat split; try reflexivity; try assumption.
  left. apply Exists_exists. exists r. now repeat split.
Qed.

Lemma origin_add_keyword vs ks d r :
  In r ks ->
  Forall (from_usable_candidate vs ks) (values d) ->
  Forall (from_usable_candidate vs ks) (values (add_keyword d r)).
Proof.
  intros Hr Hd. unfold add_keyword.
  destruct (usable _ _) eqn:Hu; cbn [negb]; [| exact Hd].
  destruct (dict_get _ d) as [m |] eqn:Hget; (apply values_set; [| exact Hd]).
  - apply dict_get_in in Hget. apply (in_map snd) in Hget.
    rewrite Forall_forall in Hd. exact (Hd _ Hget).
  - destruct (usable_true _ _ Hu) as [Ht Hc].
    eexists _, _. repeat split; try reflexivity; try assumption.
    right. apply Exists_exists. exists r. now repeat split.
Qed.

Lemma origin_loop (Q : result -> Prop)
    (step : dict result -> result -> dict result) rs :
  (forall d r, In r rs -> Forall Q (values d) -> Forall Q (values (step d r))) ->
  forall d, Forall Q (values d) -> Forall Q (values (fold_left step rs d)).
Proof.
  induction rs as [| r rs IH]; intros Hstep d Hd; cbn [fold_left]; [exact Hd |].
  apply IH.
  - intros d' r' Hr'. apply Hstep. now right.
  - apply Hstep; [now left | exact Hd].
Qed.

Lemma origin_merged vs ks :
  Forall (from_usable_candidate vs ks) (values (merged_dict vs ks)).
Proof.
  unfold merged_dict.
  apply origin_loop; [intros d r; apply origin_add_keyword |].
  apply origin_loop; [intros d r; apply origin_add_vector |].
  constructor.
Qed.

(** *** Skipped candidates leave no trace *)

Lemma fold_left_skip {A B : Type} (step : A -> B -> A) (keep : B -> bool) :
  (forall a b, keep b = false -> step a b = a) ->
  forall bs a, fold_left step (filter keep bs) a = fold_left step bs a.
Proof.
  intros Hskip bs. induction bs as [| b bs IH]; intros a; [reflexivity |].
  cbn [filter fold_left]. destruct (keep b) eqn:Hb.
  - cbn [fold_left]. apply IH.
  - rewrite (Hskip a b Hb). apply IH.
Qed.

Lemma merge_skips_unusable vs ks :
  _merge_results (filter vector_usable vs) (filter keyword_usable ks)
  = _merge_results vs ks.
Proof.
  unfold _merge_results, merged_dict.
  rewrite (fold_left_skip add_vector vector_usable).
  - rewrite (fold_left_skip add_keyword keyword_usable); [reflexivity |].
    intros d r Hr. unfold add_keyword. fold (keyword_usable r).
    now rewrite Hr.
  - intros d r Hr. unfold add_vector. fold (vector_usable r).
    now rewrite Hr.
Qed.

Lemma make_key_inj d c d' c' :
  make_key (PStr d) (PInt c) = make_key (PStr d') (PInt c') ->
  d = d' /\ c = c'.
Proof.
  unfold make_key. cbn [py_str]. intros H.
  apply split_at_last_colon in H; try apply str_of_Z_no_colon.
  destruct H as [-> H]. split; [reflexivity | now apply str_of_Z_inj].
Qed.

(** C1.  The hybrid merge keeps one entry per key, in order of first
    occurrence with the vector candidates first; a key of string document
    id and integer chunk index stands for exactly that pair.  An entry
    whose key occurs in both lists has combined = 0.7 * vector + 0.3 *
    keyword, a vector-only entry has combined = vector, a keyword-only
    entry has combined = 0.3 * keyword, each product and sum being the
    float that Python computes (the exact result rounded to binary64).
    The returned list is that list of entries sorted by descending
    combined score, entries of equal score keeping their order (vector
    rank first). *)
Theorem hybrid_merge_by_key (vector_results keyword_results : list result) :
  let merged := values (merged_dict vector_results keyword_results) in
  let out := _merge_results vector_results keyword_results in
  map id_key merged
    = fromkeys (candidate_keys vector_results keyword_results) /\
  (forall d c d' c',
      make_key (PStr d) (PInt c) = make_key (PStr d') (PInt c') ->
      d = d' /\ c = c') /\
  Forall (fun e =>
      match last_score vector_key (id_key e) vector_results,
            last_score keyword_key (id_key e) keyword_results with
      | Some v, Some s =>
          (combined e
           == fadd (fmul (float_of (7 # 10)) v)
                   (fmul (float_of (3 # 10)) s))%Q
      | Some v, None => (combined e == v)%Q
      | None, Some s => (combined e == fmul (float_of (3 # 10)) s)%Q
      | None, None => False
      end) out /\
  Permutation merged out /\
  Sorted (desc combined) out /\
  forall q, filter (same_score q) out = filter (same_score q) merged.
Proof.
  cbv zeta. unfold _merge_results.
  split; [now rewrite id_keys_merged, keys_merged |].
  split; [exact make_key_inj |].
  split.
  - rewrite <- (sort_desc_perm combined).
    apply Forall_forall. intros e He. now apply merged_scores.
  - split; [apply sort_desc_perm |].
    split; [apply sort_desc_sorted |].
    intros q. apply sort_desc_stable.
Qed.

Lemma hybrid_merge_by_key_witness :
  map id_key
    (_merge_results [point "d1" 0 (9 # 10); point "d1" 1 (4 # 10)]
                    [hit "d1" 1 1; hit "d2" 0 (5 # 10)])
  = ["d1:0"; "d1:1"; "d2:0"] /\
  Sorted (desc combined)
    (_merge_results [point "d1" 0 (9 # 10); point "d1" 1 (4 # 10)]
                    [hit "d1" 1 1; hit "d2" 0 (5 # 10)]).
Proof.
  split; [vm_compute; reflexivity |].
  exact (proj1 (proj2 (proj2 (proj2 (proj2
    (hybrid_merge_by_key [point "d1" 0 (9 # 10); point "d1" 1 (4 # 10)]
                         [hit "d1" 1 1; hit "d2" 0 (5 # 10)])))))).
Defined.

(** Rounding decides ties.  For the floats 0.61 and 0.52 as vector scores
    of [b] and [c] and the float 0.31 as keyword score of [b], the
    combined score of [b] is the float 0.52 itself: the two entries tie
    and [b], first in vector rank, stays first. *)
Lemma rounded_scores_tie :
  let b := point "b" 0 (float_of (61 # 100)) in
  let c := point "c" 0 (float_of (52 # 100)) in
  let out := _merge_results [b; c] [hit "b" 0 (float_of (31 # 100))] in
  map id_key out = ["b:0"; "c:0"] /\
  map combined out = [float_of (52 # 100); float_of (52 # 100)].
Proof. vm_compute. split; reflexivity. Qed.

(** C9.  Every entry of the merged output comes from a vector or keyword
    candidate with a truthy document id and a chunk index that is not
    None; the other candidates are dropped without any effect on the
    output. *)
Theorem merge_drops_unusable_candidates
    (vector_results keyword_results : list result) :
  Forall (from_usable_candidate vector_results keyword_results)
    (_merge_results vector_results keyword_results) /\
  _merge_results (filter vector_usable vector_results)
                 (filter keyword_usable keyword_results)
  = _merge_results vector_results keyword_results.
Proof.
  split; [| apply merge_skips_unusable].
  unfold _merge_results.
  rewrite <- (sort_desc_perm combined).
  apply origin_merged.
Qed.

(** The hybrid path keeps the vector scores. *)
Lemma retrieve_with_hybrid_keeps_scores :
  retrieve plain_settings
    (stores_with [point "d1" 0 (9 # 10); point "d1" 1 (4 # 10)])
    "query" None (Some true) true
  = Done [processed (PStr "d1:0") (PStr "d1") (PInt 0) (9 # 10);
          processed (PStr "d1:1") (PStr "d1") (PInt 1) (4 # 10)].
Proof. reflexivity. Qed.

(** C6 (the code at the failing input).  Without hybrid search the vector
    candidates reach [_process_results] as the store returned them, with
    neither a combined score nor a vector score, and both come out with
    score 0, in either shape of candidate. *)
Theorem retrieve_without_hybrid_loses_scores :
  retrieve plain_settings
    (stores_with [point "d1" 0 (9 # 10); point "d1" 1 (4 # 10)])
    "query" None (Some false) true
  = Done [{| r_id := Some PNone; r_document_id := Some PNone;
             r_chunk_index := Some PNone; r_score := Some 0%Q;
             r_vector_score := None; r_keyword_score := None;
             r_combined_score := None; r_payload := None;
             r_content := None; r_metadata := None |};
          {| r_id := Some PNone; r_document_id := Some PNone;
             r_chunk_index := Some PNone; r_score := Some 0%Q;
             r_vector_score := None; r_keyword_score := None;
             r_combined_score := None; r_payload := None;
             r_content := None; r_metadata := None |}] /\
  retrieve plain_settings
    (stores_with [hit "d1" 0 (9 # 10); hit "d1" 1 (4 # 10)])
    "query" None (Some false) true
  = Done [processed PNone (PStr "d1") (PInt 0) 0;
          processed PNone (PStr "d1") (PInt 1) 0].
Proof. split; reflexivity. Qed.

End RetrieverFacts.

(** ** Properties of the reflection controller *)

Module ReflectionFacts.
Import Py Float64 PyFacts Retriever Reflection.

Local Open Scope Q_scope.

Lemma best_score_is_max hs :
  Forall (fun s => s <= best_score hs) hs /\
  (hs <> [] -> In (best_score hs) hs).
Proof.
  destruct hs as [| h t]; cbn [best_score].
  - split; [constructor | congruence].
  - destruct (fold_py_max_ub t h) as [H1 H2].
    split; [now constructor | intros _; apply fold_py_max_in].
Qed.

(** *** The slot of one key while the dictionary is built *)

Lemma add_initial_get q k d r :
  dict_get k (add_initial q d r)
  = match dict_get k d with
    | Some e => Some e
    | None =>
        if has_key_of k r
        then Some {| e_result := r; e_source := Initial; e_queries := [q];
                     e_reflection_score := None; e_final_score := None |}
        else None
    end.
Proof.
  unfold add_initial, has_key_of.
  destruct (dict_get (key_of r) d) as [e |] eqn:Hget.
  - destruct (dict_get k d) eqn:Hk; [reflexivity |].
    destruct (String.eqb_spec (key_of r) k) as [<- |]; [congruence | reflexivity].
  - rewrite dict_get_set.
    destruct (String.eqb_spec (key_of r) k) as [<- |].
    + now rewrite Hget.
    + now destruct (dict_get k d).
Qed.

Lemma initial_slot q k init : forall d,
  dict_get k (fold_left (add_initial q) init d)
  = match dict_get k d with
    | Some e => Some e
    | None =>
        match find (has_key_of k) init with
        | Some r =>
            Some {| e_result := r; e_source := Initial; e_queries := [q];
                    e_reflection_score := None; e_final_score := None |}
        | None => None
        end
    end.
Proof.
  induction init as [| r init IH]; intros d; cbn [fold_left find].
  - now destruct (dict_get k d).
  - rewrite IH, add_initial_get.
    destruct (dict_get k d); [reflexivity |].
    now destruct (has_key_of k r).
Qed.

Lemma slot_after_initial q k init :
  slot_ok (find (has_key_of k) init) []
    (dict_get k (fold_left (add_initial q) init [])).
Proof.
  rewrite initial_slot. cbn [dict_get].
  destruct (find (has_key_of k) init); cbn; auto.
Qed.

Lemma best_score_snoc hs s :
  hs <> [] -> best_score (hs ++ [s]) = py_max (best_score hs) s.
Proof.
  destruct hs as [| h t]; [congruence |]. intros _.
  cbn [best_score app]. now rewrite fold_left_app.
Qed.

Lemma slot_step r0 hs i fq k d r :
  slot_ok r0 hs (dict_get k d) ->
  slot_ok r0 (hs ++ hits_in k [r]) (dict_get k (add_reflection i fq d r)).
Proof.
  intros Hok. unfold add_reflection, hits_in. cbn [filter].
  unfold has_key_of at 1.
  destruct (String.eqb_spec (key_of r) k) as [Hk | Hk].
  - rewrite Hk. cbn [map].
    destruct (dict_get k d) as [e |]; rewrite dict_get_set, String.eqb_refl;
      destruct r0 as [r1 |]; cbn [slot_ok] in *;
      cbn [e_result e_source e_queries e_reflection_score is_initial].
    + destruct Hok as (H1 & H2 & H3). repeat split; trivial.
      rewrite !length_app, H3. cbn. lia.
    + destruct Hok as (H0 & H1 & H2 & H3). repeat split.
      * now destruct hs.
      * exact H1.
      * rewrite !length_app, H2. reflexivity.
      * rewrite H3. cbn [number]. now rewrite best_score_snoc.
    + contradiction.
    + subst hs. repeat split; try reflexivity. discriminate.
  - cbn [map]. rewrite app_nil_r.
    destruct (dict_get (key_of r) d); rewrite dict_get_set;
      destruct (String.eqb_spec (key_of r) k); congruence.
Qed.

Lemma slot_one_query r0 i fq k rs : forall hs d,
  slot_ok r0 hs (dict_get k d) ->
  slot_ok r0 (hs ++ hits_in k rs)
    (dict_get k (fold_left (add_reflection i fq) rs d)).
Proof.
  induction rs as [| r rs IH]; intros hs d Hok; cbn [fold_left].
  - unfold hits_in. cbn. now rewrite app_nil_r.
  - replace (hits_in k (r :: rs)) with (hits_in k [r] ++ hits_in k rs).
    + rewrite app_assoc. apply IH. now apply slot_step.
    + unfold hits_in. cbn [filter].
      destruct (has_key_of k r); reflexivity.
Qed.

Lemma slot_all_queries r0 k rr : forall rqs i hs d,
  slot_ok r0 hs (dict_get k d) ->
  slot_ok r0 (hs ++ follow_up_hits k rr rqs)
    (dict_get k (add_reflections i rr rqs d)).
Proof.
  induction rr as [| rs rr IH]; intros rqs i hs d Hok.
  - cbn. now rewrite app_nil_r.
  - destruct rqs as [| fq rqs]; cbn [add_reflections follow_up_hits].
    + now rewrite app_nil_r.
    + rewrite app_assoc. apply IH. now apply slot_one_query.
Qed.

Lemma slot_final q init rr rqs k :
  slot_ok (find (has_key_of k) init) (follow_up_hits k rr rqs)
    (dict_get k (all_results_of q init rr rqs)).
Proof.
  unfold all_results_of.
  apply (slot_all_queries _ k rr rqs 0%nat []).
  apply slot_after_initial.
Qed.

(** *** Keys of the dictionary *)

Lemma well_keyed_set k e d :
  key_of (e_result e) = k -> well_keyed d -> well_keyed (dict_set k e d).
Proof.
  intros <- [Hnd Hk]. split.
  - rewrite keys_set. now apply remember_NoDup.
  - clear Hnd. induction d as [| [k0 e0] d IH]; cbn [dict_set].
    + constructor; [reflexivity | constructor].
    + inversion Hk; subst.
      destruct (String.eqb_spec k0 (key_of (e_result e))) as [-> | _];
        constructor; auto.
Qed.

Lemma well_keyed_get k e d :
  well_keyed d -> dict_get k d = Some e -> key_of (e_result e) = k.
Proof.
  intros [_ Hk] Hget. apply dict_get_in in Hget.
  rewrite Forall_forall in Hk. exact (Hk _ Hget).
Qed.

Lemma well_keyed_add_initial q d r :
  well_keyed d -> well_keyed (add_initial q d r).
Proof.
  intros Hd. unfold add_initial.
  destruct (dict_get _ d); [exact Hd | now apply well_keyed_set].
Qed.

Lemma well_keyed_add_reflection i fq d r :
  well_keyed d -> well_keyed (add_reflection i fq d r).
Proof.
  intros Hd. unfold add_reflection.
  destruct (dict_get _ d) as [e |] eqn:Hget; apply well_keyed_set; trivial.
  cbn [e_result]. now apply (well_keyed_get _ _ d).
Qed.

Lemma well_keyed_fold {B : Type} (step : dict entry -> B -> dict entry) :
  (forall d b, well_keyed d -> well_keyed (step d b)) ->
  forall bs d, well_keyed d -> well_keyed (fold_left step bs d).
Proof.
  intros Hstep bs. induction bs as [| b bs IH]; intros d Hd; cbn; auto.
Qed.

Lemma well_keyed_all q init rr rqs : well_keyed (all_results_of q init rr rqs).
Proof.
  unfold all_results_of.
  assert (H : forall rqs i d, well_keyed d ->
                well_keyed (add_reflections i rr rqs d)).
  { induction rr as [| rs rr IH]; intros [| fq rqs'] i d Hd; cbn; trivial.
    apply IH.
    apply (well_keyed_fold _ (well_keyed_add_reflection i fq)). exact Hd. }
  apply H.
  apply (well_keyed_fold _ (well_keyed_add_initial q)).
  split; constructor.
Qed.

Lemma entry_slot q init rr rqs e :
  In e (values (all_results_of q init rr rqs)) ->
  dict_get (key_of (e_result e)) (all_results_of q init rr rqs) = Some e.
Proof.
  intros Hin. unfold values in Hin. apply in_map_iff in Hin.
  destruct Hin as ([k e'] & Heq & Hin). cbn [snd] in Heq. subst e'.
  destruct (well_keyed_all q init rr rqs) as [Hnd Hk].
  rewrite Forall_forall in Hk. pose proof (Hk _ Hin) as Hkey.
  cbn [fst snd] in Hkey. rewrite Hkey.
  now apply in_dict_get.
Qed.

(** *** Sorting the scored entries *)

Lemma insert_by_map {A B : Type} (f : A -> B) (leb : B -> B -> bool) x l :
  insert_by leb (f x) (map f l)
  = map f (insert_by (fun a b => leb (f a) (f b)) x l).
Proof.
  induction l as [| y l IH]; cbn [map insert_by]; [reflexivity |].
  destruct (leb (f x) (f y)); cbn [map]; [reflexivity |].
  now rewrite IH.
Qed.

Lemma sort_desc_map {A B : Type} (f : A -> B) (key : B -> Q) l :
  sort_desc key (map f l) = map f (sort_desc (fun a => key (f a)) l).
Proof.
  unfold sort_desc.
  induction l as [| x l IH]; [reflexivity |].
  cbn [map sort_by fold_right].
  fold (sort_by (fun x y => Qle_bool (key y) (key x)) (map f l)). rewrite IH.
  apply (insert_by_map f (fun x y => Qle_bool (key y) (key x))).
Qed.

Lemma sorted_map {A B : Type} (f : A -> B) (k1 : A -> Q) (k2 : B -> Q) l :
  (forall a, k2 (f a) = k1 a) ->
  Sorted (desc k1) l -> Sorted (desc k2) (map f l).
Proof.
  intros Hk. induction 1 as [| a l Hs IH Hhd]; cbn [map]; constructor; trivial.
  destruct Hhd as [| b l' Hab]; cbn [map]; constructor.
  unfold desc in *. now rewrite !Hk.
Qed.

Lemma merge_and_rank_unfold q init rr rqs :
  _merge_and_rank_results q init rr rqs
  = map rescored
      (sort_desc final_score_of (values (all_results_of q init rr rqs))).
Proof.
  unfold _merge_and_rank_results.
  rewrite sort_desc_map, map_map.
  reflexivity.
Qed.

(** C2 (as amended).  After the merge, an entry whose key occurs among the
    initial results keeps the first such result and has final score =
    its score + bonus + 0.10, where the bonus is 0.05 for the original
    query and for each follow-up result under that key, at most 0.15; any
    other entry occurs in a follow-up set and has final score = the
    largest follow-up score under its key + 0.05 per follow-up result
    under that key, at most 0.15.  Every product and sum is the float
    that Python computes (the exact result rounded to binary64), taken
    from left to right.  The returned list holds the results of the
    entries with the final score as score and nothing else added, sorted
    by descending score. *)
Theorem reflection_merge_scores (original_query : string)
    (initial_results : list result)
    (reflection_results : list (list result))
    (reflection_queries : list string) :
  let entries :=
    values (all_results_of original_query initial_results
              reflection_results reflection_queries) in
  let out :=
    _merge_and_rank_results original_query initial_results
      reflection_results reflection_queries in
  Forall (fun e =>
      let k := key_of (e_result e) in
      let hits := follow_up_hits k reflection_results reflection_queries in
      match find (has_key_of k) initial_results with
      | Some r0 =>
          e_result e = r0 /\
          final_score_of e
          = fadd (fadd (score_of r0) (query_bonus (S (List.length hits))))
                 (float_of (1 # 10))
      | None =>
          hits <> [] /\
          Forall (fun s => s <= best_score hits) hits /\
          In (best_score hits) hits /\
          final_score_of e
          == fadd (best_score hits) (query_bonus (List.length hits))
      end) entries /\
  out = map rescored (sort_desc final_score_of entries) /\
  Sorted (desc score_of) out.
Proof.
  cbv zeta. split; [| split].
  - apply Forall_forall. intros e He.
    pose proof (entry_slot _ _ _ _ _ He) as Hget.
    pose proof (slot_final original_query initial_results reflection_results
                  reflection_queries (key_of (e_result e))) as Hok.
    rewrite Hget in Hok.
    destruct (find _ initial_results) as [r0 |]; cbn [slot_ok] in Hok.
    + destruct Hok as (Hr & Hi & Hlen). split; [exact Hr |].
      unfold final_score_of, query_bonus, length_Q, score_of.
      now rewrite Hi, Hlen, Hr.
    + destruct Hok as (Hne & Hi & Hlen & Hbest).
      destruct (best_score_is_max
                  (follow_up_hits (key_of (e_result e)) reflection_results
                     reflection_queries)) as [Hub Hin].
      repeat split; trivial; [now apply Hin |].
      unfold final_score_of, query_bonus, length_Q.
      rewrite Hi, Hbest, Hlen. cbn [number].
      apply RetrieverFacts.fadd_zero_r.
  - apply merge_and_rank_unfold.
  - rewrite merge_and_rank_unfold.
    apply (sorted_map rescored final_score_of score_of); [reflexivity |].
    apply sort_desc_sorted.
Qed.

(** C2 (as stated) fails.  For one initial result of score 0.5 and three
    follow-up queries that find nothing, the code returns the float
    0.5 + 0.05 + 0.1, which is above 0.64: the original query counts as a
    contributing query.  The claim gives 0.5 + 0.10 = 0.60. *)
Lemma initial_entry_gets_query_bonus :
  map score_of
    (_merge_and_rank_results "q" [hit "d1" 0 (1 # 2)] [[]; []; []]
       ["more details about q"; "additional information on q";
        "extended explanation of q"])
  = [fadd (fadd (1 # 2) (float_of (5 # 100))) (float_of (1 # 10))] /\
  64 # 100 < fadd (fadd (1 # 2) (float_of (5 # 100))) (float_of (1 # 10)) /\
  spec_final_score true (1 # 2) 0 == 6 # 10 /\
  ~ fadd (fadd (1 # 2) (float_of (5 # 100))) (float_of (1 # 10))
    == spec_final_score true (1 # 2) 0.
Proof.
  split; [vm_compute; reflexivity |]. split; [vm_compute; reflexivity |].
  split; [reflexivity |].
  intros H. vm_compute in H. discriminate.
Qed.

(** Rounding decides the order.  An initial result of score 0.17 ends at
    the float 0.17 + 0.05 + 0.1, which is above the float 0.27 + 0.05 of a
    follow-up result of score 0.27, although both sums are 0.32 on the
    rationals: the initial result is ranked first. *)
Lemma rounded_final_scores_order :
  let d1 := hit "d1" 1 (float_of (17 # 100)) in
  let d3 := hit "d3" 5 (float_of (27 # 100)) in
  let out := _merge_and_rank_results "q" [d1] [[d3]] ["more about q"] in
  map key_of out = ["d1:1"; "d3:5"] /\
  match map score_of out with
  | [s1; s3] => s3 < s1
  | _ => False
  end.
Proof. vm_compute. split; reflexivity. Qed.

(** *** The analysis of good results *)

Lemma length_Q_ge {A : Type} (l : list A) (n : nat) :
  (n <= List.length l)%nat -> inject_Z (Z.of_nat n) <= length_Q l.
Proof.
  intros H. unfold length_Q. rewrite <- Zle_Qle. lia.
Qed.

Lemma relevance_of_good (rs : list result) :
  (5 <= List.length rs)%nat -> mean_score rs == 9 # 10 ->
  relevance_of rs == 93 # 100.
Proof.
  intros Hlen Hmean.
  destruct rs as [| r rs]; [cbn in Hlen; lia |].
  unfold relevance_of. cbv zeta. rewrite Hmean.
  assert (H1 : 1 <= length_Q (r :: rs) / 5).
  { apply Qle_shift_div_l; [reflexivity |].
    apply (length_Q_ge (r :: rs) 5 Hlen). }
  rewrite (py_min_ge_r _ _ H1). reflexivity.
Qed.

Lemma coverage_of_good (q : string) (rs : list result) :
  (7 <= List.length rs)%nat
  \/ (5 <= List.length rs)%nat /\ 7 # 10 <= term_overlap q rs ->
  7 # 10 <= coverage_of q rs.
Proof.
  intros H.
  destruct rs as [| r rs]; [cbn in H; lia |].
  unfold coverage_of. cbv zeta.
  destruct (py_max_ub (term_overlap q (r :: rs))
              (py_min (length_Q (r :: rs) / 10) (7 # 10))) as [Hl Hr].
  destruct H as [H7 | [_ Hov]].
  - eapply Qle_trans; [| exact Hr].
    assert (H1 : 7 # 10 <= length_Q (r :: rs) / 10).
    { apply Qle_shift_div_l; [reflexivity |].
      apply Qle_trans with (inject_Z (Z.of_nat 7)); [discriminate |].
      apply (length_Q_ge (r :: rs) 7 H7). }
    rewrite (py_min_ge_r _ _ H1). apply Qle_refl.
  - eapply Qle_trans; [exact Hov | exact Hl].
Qed.

(** C5 (as amended).  With the default thresholds 0.6 and 0.7, for every
    query and every initial result list of mean score 0.9 that has at
    least 7 results, or at least 5 results and a term overlap with the
    query of at least 0.7, [reflect] returns reflected = false and the
    initial results unchanged as ranked chunks. *)
Theorem good_results_are_not_reflected (cfg : reflection_config)
    (topics : string -> list string)
    (retriever : string -> run (list result))
    (q : string) (initial_results : list result) :
  min_relevance_threshold cfg == 6 # 10 ->
  min_coverage_threshold cfg == 7 # 10 ->
  mean_score initial_results == 9 # 10 ->
  (7 <= List.length initial_results)%nat
  \/ (5 <= List.length initial_results)%nat
     /\ 7 # 10 <= term_overlap q initial_results ->
  exists r,
    reflect cfg topics retriever q initial_results = Done r /\
    has_reflected r = false /\
    ranked_chunks r = initial_results.
Proof.
  intros Hrel Hcov Hmean Hcount.
  assert (Hlen : (5 <= List.length initial_results)%nat)
    by (destruct Hcount as [H | [H _]]; lia).
  pose proof (relevance_of_good _ Hlen Hmean) as Hr.
  pose proof (coverage_of_good q _ Hcount) as Hc.
  unfold reflect.
  destruct initial_results as [| r0 rs]; [cbn in Hlen; lia |].
  destruct (enabled cfg); cbn [negb orb].
  - unfold _analyze_results. cbv beta iota zeta.
    assert (Hs : Qle_bool (min_relevance_threshold cfg) (relevance_of (r0 :: rs))
                 && Qle_bool (min_coverage_threshold cfg)
                      (coverage_of q (r0 :: rs)) = true).
    { apply andb_true_iff. split; apply Qle_bool_iff.
      - rewrite Hrel, Hr. discriminate.
      - now rewrite Hcov. }
    rewrite Hs. eexists. repeat split.
  - eexists. repeat split.
Qed.

Lemma good_results_are_not_reflected_witness :
  min_relevance_threshold default_reflection_config == 6 # 10 /\
  min_coverage_threshold default_reflection_config == 7 # 10 /\
  mean_score (five_good_results ++ [hit "d2" 0 (9 # 10); hit "d2" 1 (9 # 10)])
    == 9 # 10 /\
  exists r,
    reflect default_reflection_config no_topics empty_retriever "capital France"
      (five_good_results ++ [hit "d2" 0 (9 # 10); hit "d2" 1 (9 # 10)])
    = Done r /\
    has_reflected r = false /\
    ranked_chunks r
    = five_good_results ++ [hit "d2" 0 (9 # 10); hit "d2" 1 (9 # 10)].
Proof.
  assert (H1 : min_relevance_threshold default_reflection_config == 6 # 10) by reflexivity.
  assert (H2 : min_coverage_threshold default_reflection_config == 7 # 10) by reflexivity.
  assert (H3 : mean_score
                 (five_good_results
                  ++ [hit "d2" 0 (9 # 10); hit "d2" 1 (9 # 10)]) == 9 # 10)
    by (vm_compute; reflexivity).
  split; [exact H1 |]. split; [exact H2 |]. split; [exact H3 |].
  apply (good_results_are_not_reflected default_reflection_config no_topics
           empty_retriever "capital France" _ H1 H2 H3).
  left. cbn. lia.
Defined.

(** C5 (as stated) fails.  Five results of score 0.9 without content share
    no term with the query; coverage is then max(0, min(5/10, 0.7)) = 0.5,
    below the threshold 0.7, and [reflect] reflects. *)
Lemma five_good_results_still_reflect :
  mean_score five_good_results == 9 # 10 /\
  List.length five_good_results = 5%nat /\
  match reflect default_reflection_config no_topics empty_retriever "capital France"
          five_good_results with
  | Done r => has_reflected r = true
  | _ => False
  end.
Proof.
  split; [vm_compute; reflexivity |]. split; [reflexivity |].
  vm_compute. reflexivity.
Qed.

(** *** Failing follow-up retrievals *)


Lemma insufficient_not_sufficient cfg relevance coverage :
  Qle_bool (min_relevance_threshold cfg) relevance
  && Qle_bool (min_coverage_threshold cfg) coverage
  = negb (insufficient cfg relevance coverage).
Proof.
  unfold insufficient, Qlt_bool.
  now rewrite negb_orb, !negb_involutive.
Qed.




End ReflectionFacts.

(** ** Properties of the tiered memory *)

Module MemoryFacts.
Import Py PyFacts Memory.

(** *** The pruning order *)

Lemma prune_leb_iff a b : prune_leb a b = true <-> prune_le a b.
Proof.
  unfold prune_leb, prune_le.
  destruct (Qlt_bool (importance a) (importance b)) eqn:H1.
  - apply Qlt_bool_iff in H1. split; [now left | reflexivity].
  - apply Qlt_bool_false in H1.
    destruct (Qlt_bool (importance b) (importance a)) eqn:H2.
    + apply Qlt_bool_iff in H2. split; [discriminate |].
      intros [H | [H _]]; lra.
    + apply Qlt_bool_false in H2.
      assert (Heq : (importance a == importance b)%Q) by lra.
      destruct (Z.ltb_spec (last_accessed_at a) (last_accessed_at b)) as [L1 | L1].
      * split; [intros _; right; split; [exact Heq | now left] | reflexivity].
      * destruct (Z.ltb_spec (last_accessed_at b) (last_accessed_at a)) as [L2 | L2].
        -- split; [discriminate |]. intros [H | [_ H]]; [lra | lia].
        -- rewrite Z.leb_le. split.
           ++ intros H. right. split; [exact Heq |]. right. lia.
           ++ intros [H | [_ H]]; [lra | lia].
Qed.

Lemma prune_le_trans a b c : prune_le a b -> prune_le b c -> prune_le a c.
Proof.
  unfold prune_le.
  intros [H1 | [H1 H1']] [H2 | [H2 H2']].
  - left. lra.
  - left. lra.
  - left. lra.
  - right. split; [lra | lia].
Qed.

Lemma prune_leb_total a b : prune_leb a b = false -> prune_leb b a = true.
Proof.
  intros H. apply prune_leb_iff.
  assert (Hn : ~ prune_le a b)
    by (intros Hle; apply prune_leb_iff in Hle; congruence).
  unfold prune_le in *.
  destruct (Qlt_le_dec (importance b) (importance a)) as [Hlt | Hle];
    [now left |].
  destruct (Qlt_le_dec (importance a) (importance b)) as [Hlt' | Hle'];
    [exfalso; apply Hn; now left |].
  right. split; [lra |].
  destruct (Z_lt_le_dec (last_accessed_at b) (last_accessed_at a));
    [now left |].
  right.
  assert (Heq : (importance a == importance b)%Q) by lra.
  split.
  - destruct (Z.eq_dec (last_accessed_at a) (last_accessed_at b)); [lia |].
    exfalso. apply Hn. right. split; [exact Heq |]. left. lia.
  - destruct (Z_lt_le_dec (created_at a) (created_at b)); [| lia].
    destruct (Z.eq_dec (last_accessed_at a) (last_accessed_at b)).
    + exfalso. apply Hn. right. split; [exact Heq |]. right. lia.
    + exfalso. apply Hn. right. split; [exact Heq |]. left. lia.
Qed.

Lemma sorted_prune_order l :
  StronglySorted prune_le (sort_by prune_leb l).
Proof.
  apply Sorted_StronglySorted.
  - intros a b c. apply prune_le_trans.
  - apply Sorted_weaken with (R := fun a b => prune_leb a b = true).
    + intros a b. apply prune_leb_iff.
    + apply sort_by_sorted. exact prune_leb_total.
Qed.

Lemma strongly_sorted_app {A : Type} (R : A -> A -> Prop) l1 l2 :
  StronglySorted R (l1 ++ l2) ->
  forall a b, In a l1 -> In b l2 -> R a b.
Proof.
  induction l1 as [| x l1 IH]; cbn [app]; intros Hs a b Ha Hb; [contradiction |].
  inversion Hs as [| ? ? Hs' Hall]; subst.
  destruct Ha as [<- | Ha].
  - rewrite Forall_forall in Hall. apply Hall, in_or_app. now right.
  - now apply IH.
Qed.

(** *** Rows and their identifiers *)

Lemma same_id_same_row (l : table) a b :
  NoDup (map id l) -> In a l -> In b l -> id a = id b -> a = b.
Proof.
  induction l as [| x l IH]; cbn [map]; intros Hnd Ha Hb Hid; [contradiction |].
  inversion Hnd as [| ? ? Hnotin Hnd']; subst.
  destruct Ha as [<- | Ha], Hb as [<- | Hb]; trivial.
  - exfalso. apply Hnotin. rewrite Hid. now apply in_map.
  - exfalso. apply Hnotin. rewrite <- Hid. now apply in_map.
  - now apply IH.
Qed.

Lemma id_in_true ids r : id_in ids r = true <-> In (id r) ids.
Proof.
  unfold id_in. rewrite existsb_exists. split.
  - intros (i & Hi & Heq). apply Z.eqb_eq in Heq. now subst.
  - intros H. exists (id r). split; [exact H | apply Z.eqb_refl].
Qed.

Lemma id_in_rows (db doomed : table) r :
  NoDup (map id db) -> incl doomed db -> In r db ->
  id_in (map id doomed) r = true <-> In r doomed.
Proof.
  intros Hnd Hincl Hr. rewrite id_in_true, in_map_iff. split.
  - intros (v & Hid & Hv).
    now rewrite <- (same_id_same_row db v r Hnd (Hincl _ Hv) Hr Hid).
  - intros H. now exists r.
Qed.

Lemma NoDup_map_filter {A B : Type} (f : A -> B) (p : A -> bool) l :
  NoDup (map f l) -> NoDup (map f (filter p l)).
Proof.
  induction l as [| x l IH]; cbn [map filter]; intros Hnd; [constructor |].
  inversion Hnd as [| ? ? Hnotin Hnd']; subst.
  destruct (p x); cbn [map]; [| now apply IH].
  constructor; [| now apply IH].
  intros Hin. apply Hnotin. apply in_map_iff in Hin.
  destruct Hin as (y & Hy & Hin). apply filter_In in Hin.
  rewrite <- Hy. apply in_map. tauto.
Qed.

Lemma filter_comm {A : Type} (p q : A -> bool) l :
  filter p (filter q l) = filter q (filter p l).
Proof.
  induction l as [| x l IH]; [reflexivity |].
  cbn [filter]. destruct (p x) eqn:Hp, (q x) eqn:Hq; cbn [filter];
    rewrite ?Hp, ?Hq, IH; reflexivity.
Qed.

Lemma filter_none {A : Type} (p : A -> bool) l :
  (forall x, In x l -> p x = false) -> filter p l = [].
Proof.
  induction l as [| x l IH]; intros H; [reflexivity |].
  cbn [filter]. rewrite (H x (or_introl eq_refl)).
  apply IH. intros y Hy. apply H. now right.
Qed.

Lemma filter_all {A : Type} (p : A -> bool) l :
  (forall x, In x l -> p x = true) -> filter p l = l.
Proof.
  induction l as [| x l IH]; intros H; [reflexivity |].
  cbn [filter]. rewrite (H x (or_introl eq_refl)). f_equal.
  apply IH. intros y Hy. apply H. now right.
Qed.

Lemma filter_perm_length {A : Type} (p : A -> bool) l l' :
  Permutation l l' -> List.length (filter p l) = List.length (filter p l').
Proof.
  induction 1 as [| x l l' _ IH | x y l | l l' l'' _ IH1 _ IH2];
    cbn [filter]; trivial.
  - destruct (p x); cbn [List.length]; now rewrite IH.
  - destruct (p x), (p y); reflexivity.
  - now rewrite IH1.
Qed.

(** *** One pruning pass over a scope that is too large *)

Section Pass.

Variables (tier : string) (owner : option Z) (db : table) (cap : Z).
Hypothesis ids_unique : NoDup (map id db).
Hypothesis cap_pos : 0 < cap.
Hypothesis too_many : cap < scoped_count tier owner db.

Let scoped := filter (in_scope tier owner) db.
Let sorted := sort_by prune_leb scoped.
Let excess := Z.to_nat (scoped_count tier owner db - cap).
Let doomed := firstn excess sorted.
Let kept := skipn excess sorted.
Let survives := fun r => negb (id_in (map id doomed) r).

Lemma sorted_split : sorted = doomed ++ kept.
Proof. unfold doomed, kept. now rewrite firstn_skipn. Qed.

Lemma sorted_perm : Permutation scoped sorted.
Proof. apply sort_by_perm. Qed.

Lemma sorted_in_db r : In r sorted -> In r db.
Proof.
  intros H. apply (Permutation_in _ (Permutation_sym sorted_perm)) in H.
  unfold scoped in H. apply filter_In in H. tauto.
Qed.

Lemma doomed_in_db : incl doomed db.
Proof.
  intros r Hr. apply sorted_in_db. rewrite sorted_split.
  apply in_or_app. now left.
Qed.

Lemma sorted_ids_unique : NoDup (map id sorted).
Proof.
  apply (Permutation_NoDup (Permutation_map id sorted_perm)).
  unfold scoped. now apply NoDup_map_filter.
Qed.

Lemma doomed_length : Z.of_nat (List.length doomed)
                      = scoped_count tier owner db - cap.
Proof.
  unfold doomed. rewrite length_firstn.
  assert (Hlen : List.length sorted = List.length scoped)
    by (symmetry; apply Permutation_length, sorted_perm).
  rewrite Hlen. unfold excess, scoped_count in *. fold scoped in too_many |- *.
  lia.
Qed.

Lemma kept_length : Z.of_nat (List.length kept) = cap.
Proof.
  unfold kept. rewrite length_skipn.
  assert (Hlen : List.length sorted = List.length scoped)
    by (symmetry; apply Permutation_length, sorted_perm).
  rewrite Hlen. unfold excess, scoped_count in *. fold scoped in too_many |- *.
  lia.
Qed.

Lemma doomed_do_not_survive r : In r doomed -> survives r = false.
Proof.
  intros H. unfold survives. apply negb_false_iff, id_in_true.
  now apply in_map.
Qed.

Lemma kept_survive r : In r kept -> survives r = true.
Proof.
  intros H. unfold survives. apply negb_true_iff.
  destruct (id_in (map id doomed) r) eqn:Hin; [| reflexivity].
  exfalso. apply id_in_true in Hin.
  pose proof sorted_ids_unique as Hnd.
  rewrite sorted_split, map_app in Hnd.
  apply NoDup_app_remove_l in Hnd as Hnd2.
  revert Hin. apply (in_map id) in H.
  clear - Hnd H. revert Hnd H.
  generalize (map id doomed) (map id kept) (id r). clear.
  intros l1. induction l1 as [| x l1 IH]; intros l2 i Hnd H2 H1;
    [contradiction |].
  cbn [app] in Hnd. inversion Hnd as [| ? ? Hnotin Hnd']; subst.
  destruct H1 as [-> | H1].
  - apply Hnotin, in_or_app. now right.
  - exact (IH l2 i Hnd' H2 H1).
Qed.

Lemma scope_after_pass :
  filter (in_scope tier owner) (filter survives db) = filter survives scoped.
Proof. unfold scoped. apply filter_comm. Qed.

Lemma count_after_pass :
  scoped_count tier owner (filter survives db) = cap.
Proof.
  unfold scoped_count. rewrite scope_after_pass.
  rewrite (filter_perm_length survives _ _ sorted_perm).
  rewrite sorted_split, filter_app, length_app.
  rewrite (filter_none survives doomed)
    by (intros x Hx; now apply doomed_do_not_survive).
  rewrite (filter_all survives kept) by (intros x Hx; now apply kept_survive).
  cbn [List.length]. rewrite Nat.add_0_l. apply kept_length.
Qed.

Lemma survivors_are_kept r :
  In r (filter (in_scope tier owner) (filter survives db)) -> In r kept.
Proof.
  rewrite scope_after_pass. intros H. apply filter_In in H.
  destruct H as [Hin Hs].
  apply (Permutation_in _ sorted_perm) in Hin.
  rewrite sorted_split in Hin. apply in_app_or in Hin.
  destruct Hin as [Hd | Hk]; [| exact Hk].
  rewrite (doomed_do_not_survive r Hd) in Hs. discriminate.
Qed.

Lemma doomed_below_survivors v s :
  In v doomed ->
  In s (filter (in_scope tier owner) (filter survives db)) ->
  prune_le v s.
Proof.
  intros Hv Hs. apply survivors_are_kept in Hs.
  apply (strongly_sorted_app prune_le doomed kept); trivial.
  rewrite <- sorted_split. apply sorted_prune_order.
Qed.

Lemma doomed_in_scope : incl doomed scoped.
Proof.
  intros r Hr. apply (Permutation_in _ (Permutation_sym sorted_perm)).
  rewrite sorted_split. apply in_or_app. now left.
Qed.

Lemma survivors_of_db r :
  In r (filter survives db) <-> In r db /\ ~ In r doomed.
Proof.
  rewrite filter_In. unfold survives. rewrite negb_true_iff.
  split; intros [Hr H]; split; trivial.
  - intros Hd. apply (id_in_rows db doomed r ids_unique doomed_in_db Hr) in Hd.
    congruence.
  - destruct (id_in (map id doomed) r) eqn:Hin; [| reflexivity].
    exfalso. apply H.
    now apply (id_in_rows db doomed r ids_unique doomed_in_db Hr).
Qed.

Lemma prune_pass (cfg : memory_config) :
  max_items_of cfg tier = Some cap ->
  _prune_memory cfg tier owner db = filter survives db.
Proof.
  intros Hmax. unfold _prune_memory. rewrite Hmax.
  destruct (Z.leb_spec cap 0); [lia |].
  unfold scoped_count in too_many.
  destruct (Z.gtb_spec (Z.of_nat (List.length (filter (in_scope tier owner) db)))
              cap); [reflexivity | lia].
Qed.

End Pass.

(** *** Adding one row to a full scope *)

Lemma new_row_in_scope cfg now parse_uuid gen text tier owner conv weight meta :
  in_scope tier owner
    (new_row cfg now parse_uuid gen text tier owner conv weight meta) = true.
Proof.
  unfold in_scope, new_row. cbn [memory_type user_id].
  rewrite String.eqb_refl. cbn [andb].
  destruct owner as [u |]; [| reflexivity].
  destruct (truthy_id (Some u)); [| reflexivity].
  cbn [column_is]. apply Z.eqb_refl.
Qed.

Lemma scoped_count_snoc tier owner db r :
  in_scope tier owner r = true ->
  scoped_count tier owner (db ++ [r]) = scoped_count tier owner db + 1.
Proof.
  intros Hr. unfold scoped_count.
  rewrite filter_app, length_app. cbn [filter]. rewrite Hr.
  cbn [List.length]. lia.
Qed.

Lemma ids_unique_snoc (db : table) r :
  NoDup (map id db) -> ~ In (id r) (map id db) ->
  NoDup (map id (db ++ [r])).
Proof.
  intros Hnd Hfresh. rewrite map_app. cbn [map].
  apply NoDup_app; [exact Hnd | repeat constructor; intros [] |].
  intros i Hi [<- | []]. contradiction.
Qed.

Lemma length_one {A : Type} (l : list A) :
  Z.of_nat (List.length l) = 1 -> exists x, l = [x].
Proof.
  destruct l as [| x [| y l]]; cbn [List.length]; intros H; try lia.
  now exists x.
Qed.

(** C8 (as amended).  For a tier whose configured capacity is positive,
    [prune(tier, owner)] over rows with distinct ids leaves the table as it
    is when the scoped count (the rows of the tier, narrowed to the owner
    when the owner id is truthy) does not exceed the capacity; otherwise it
    deletes exactly count - capacity rows of the scope, each of them no
    later in the order (importance, lastAccessed, createdAt) than every
    row that stays in the scope; afterwards the scoped count is at most
    the capacity.  Adding an item to a scope that holds exactly capacity
    items runs one such pass, which removes a single row, lowest in that
    order, and leaves capacity items.  A capacity of zero or less means
    no limit: nothing is pruned. *)
Theorem prune_leaves_capacity (cfg : memory_config) (tier : string)
    (owner : option Z) (db : table) (cap : Z) :
  NoDup (map id db) ->
  max_items_of cfg tier = Some cap ->
  let n := scoped_count tier owner db in
  let db' := _prune_memory cfg tier owner db in
  (cap <= 0 -> db' = db) /\
  (0 < cap ->
   (n <= cap -> db' = db) /\
   (cap < n ->
    exists doomed,
      Z.of_nat (List.length doomed) = n - cap /\
      incl doomed (filter (in_scope tier owner) db) /\
      (forall r, In r db' <-> In r db /\ ~ In r doomed) /\
      (forall v s, In v doomed ->
                   In s (filter (in_scope tier owner) db') -> prune_le v s)) /\
   scoped_count tier owner db' <= cap /\
   forall now parse_uuid gen text conversation_id weight meta,
     String.eqb (PyStr.strip text) "" = false ->
     valid_tier tier = true ->
     n = cap ->
     ~ In (new_id gen) (map id db) ->
     let row := new_row cfg now parse_uuid gen text tier owner
                  conversation_id weight meta in
     let after := snd (add_to_memory cfg now parse_uuid gen text tier owner
                         conversation_id weight meta db) in
     after = _prune_memory cfg tier owner (db ++ [row]) /\
     scoped_count tier owner after = cap /\
     exists victim,
       In victim (db ++ [row]) /\
       in_scope tier owner victim = true /\
       (forall r, In r after <-> In r (db ++ [row]) /\ r <> victim) /\
       (forall s, In s (filter (in_scope tier owner) after) ->
                  prune_le victim s)).
Proof.
  intros Hnd Hmax. cbv zeta. split.
  - intros Hcap. unfold _prune_memory. rewrite Hmax.
    destruct (Z.leb_spec cap 0); [reflexivity | lia].
  - intros Hcap.
    assert (Hsmall : scoped_count tier owner db <= cap ->
                     _prune_memory cfg tier owner db = db).
    { intros Hn. unfold _prune_memory. rewrite Hmax.
      destruct (Z.leb_spec cap 0); [lia |].
      unfold scoped_count in Hn.
      destruct (Z.gtb_spec
                  (Z.of_nat (List.length (filter (in_scope tier owner) db)))
                  cap); [lia | reflexivity]. }
    split; [exact Hsmall |]. split; [| split].
    + intros Hn.
      rewrite (prune_pass tier owner db cap) by assumption.
      eexists. split; [apply doomed_length; assumption |].
      split; [apply doomed_in_scope |].
      split; [apply survivors_of_db; assumption |].
      apply doomed_below_survivors; assumption.
    + destruct (Z_le_gt_dec (scoped_count tier owner db) cap) as [Hn | Hn].
      * now rewrite (Hsmall Hn).
      * assert (Hn' : cap < scoped_count tier owner db) by lia.
        rewrite (prune_pass tier owner db cap) by assumption.
        rewrite (count_after_pass tier owner db cap) by assumption. lia.
    + intros now parse_uuid gen text conv weight meta Htext Hvalid Hfull Hfresh.
      set (row := new_row cfg now parse_uuid gen text tier owner conv weight meta).
      assert (Hadd : snd (add_to_memory cfg now parse_uuid gen text tier owner
                            conv weight meta db)
                     = _prune_memory cfg tier owner (db ++ [row])).
      { unfold add_to_memory. now rewrite Htext, Hvalid. }
      rewrite Hadd. split; [reflexivity |].
      assert (Hrow : in_scope tier owner row = true)
        by apply new_row_in_scope.
      assert (Hn1 : cap < scoped_count tier owner (db ++ [row]))
        by (rewrite (scoped_count_snoc _ _ _ _ Hrow); lia).
      assert (Hnd1 : NoDup (map id (db ++ [row])))
        by (apply ids_unique_snoc; [exact Hnd | exact Hfresh]).
      rewrite (prune_pass tier owner (db ++ [row]) cap) by assumption.
      split; [apply count_after_pass; assumption |].
      assert (Hex : scoped_count tier owner (db ++ [row]) - cap = 1)
        by (rewrite (scoped_count_snoc _ _ _ _ Hrow); lia).
      assert (Hlen := doomed_length tier owner (db ++ [row]) cap).
      repeat (match type of Hlen with
              | ?P -> _ =>
                  match type of P with
                  | Prop => let H := fresh in
                            assert (H : P) by assumption; specialize (Hlen H)
                  end
              end).
      pose proof (doomed_in_scope tier owner (db ++ [row]) cap) as Hin.
      assert (Hsurv := survivors_of_db tier owner (db ++ [row]) cap).
      repeat (match type of Hsurv with
              | ?P -> _ =>
                  match type of P with
                  | Prop => let H := fresh in
                            assert (H : P) by assumption; specialize (Hsurv H)
                  end
              end).
      pose proof (doomed_below_survivors tier owner (db ++ [row]) cap) as Hlow.
      rewrite Hex in Hlen, Hin, Hsurv, Hlow |- *.
      destruct (length_one _ Hlen) as [victim Hv].
      rewrite Hv in Hin, Hsurv, Hlow |- *.
      exists victim.
      assert (Hvs : In victim (filter (in_scope tier owner) (db ++ [row])))
        by (apply Hin; now left).
      apply filter_In in Hvs. destruct Hvs as [Hvdb Hvscope].
      split; [exact Hvdb |]. split; [exact Hvscope |]. split.
      * intros r. rewrite Hsurv. cbn [In].
        split; intros [Hr Hnot]; split; trivial.
        -- intros ->. apply Hnot. now left.
        -- intros [-> | []]. now apply Hnot.
      * intros s Hs. apply (Hlow victim s); [now left | exact Hs].
Qed.

Lemma prune_leaves_capacity_witness :
  NoDup (map id three_notes) /\
  max_items_of (working_capacity 2) "working" = Some 2 /\
  scoped_count "working" None
    (_prune_memory (working_capacity 2) "working" None three_notes) <= 2.
Proof.
  assert (H1 : NoDup (map id three_notes)).
  { cbn. repeat constructor; cbn; intros H;
      repeat (destruct H as [H | H]; try discriminate); exact H. }
  assert (H2 : max_items_of (working_capacity 2) "working" = Some 2)
    by reflexivity.
  split; [exact H1 |]. split; [exact H2 |].
  assert (Hpos : 0 < 2) by lia.
  exact (proj1 (proj2 (proj2
    (proj2 (prune_leaves_capacity (working_capacity 2) "working" None
              three_notes 2 H1 H2) Hpos)))).
Defined.

(** C8 (as stated) fails.  With a configured capacity of 0 the pass is
    skipped: a tier of one item still holds it afterwards, more than its
    capacity. *)
Lemma zero_capacity_is_not_enforced :
  max_items_of (working_capacity 0) "working" = Some 0 /\
  scoped_count "working" None
    (_prune_memory (working_capacity 0) "working" None [note 1 None (5 # 10)])
  = 1.
Proof. split; reflexivity. Qed.

(** *** Reading with a falsy user id *)

(** C10 (the code at the failing input).  Both readers build the user
    condition only for a truthy user id and the importance condition only
    for a positive minimum: a call with user id 0 builds the conditions of
    a call without user id and answers as that call does, and no
    importance condition is built when the minimum importance is 0.
    Without a query such a call hands out the item of user 7.  With a
    query it hands out nothing: the database rejects the statement of the
    semantic search, whatever the arguments and the table, so the method
    answers with no item and leaves the table as it is. *)
Theorem user_zero_reads_all_users (cfg : memory_config) (now : Z)
    (parse_uuid : string -> option string)
    (similarity : string -> string -> Q)
    (trigram_match : string -> string -> bool)
    (q tier conversation_id : option string) (owner : option Z) (limit : Z)
    (min_importance recency_weight : Q) (include_content : bool)
    (db : table) (text : string) :
  conditions parse_uuid tier (Some 0) conversation_id min_importance
  = conditions parse_uuid tier None conversation_id min_importance /\
  get_memory now parse_uuid similarity trigram_match q tier (Some 0)
    conversation_id limit min_importance recency_weight include_content db
  = get_memory now parse_uuid similarity trigram_match q tier None
      conversation_id limit min_importance recency_weight include_content db /\
  Forall (fun c => match c with ByImportance _ => False | _ => True end)
    (conditions parse_uuid tier owner conversation_id 0) /\
  map v_user_id
    (fst (get_memory 0 no_uuid no_similarity always_match None None (Some 0)
            None 10 0 (1 # 2) true [note 1 (Some 7) (5 # 10)]))
  = [Some 7] /\
  get_memory 0 no_uuid no_similarity always_match (Some "note") None
    (Some 0) None 10 0 (1 # 2) true [note 1 (Some 7) (5 # 10)]
  = ([], [note 1 (Some 7) (5 # 10)]) /\
  _semantic_memory_search now parse_uuid similarity trigram_match text tier
    owner conversation_id limit min_importance recency_weight
    include_content db
  = ([], db).
Proof.
  split; [reflexivity |]. split; [reflexivity |]. split.
  - unfold conditions.
    repeat (apply Forall_app; split).
    + destruct tier as [t |]; [destruct (truthy_text (Some t)) |];
        repeat constructor.
    + destruct owner as [u |]; [destruct (truthy_id (Some u)) |];
        repeat constructor.
    + destruct (conversation_of parse_uuid conversation_id);
        repeat constructor.
    + constructor.
    + repeat constructor.
  - split; [vm_compute; reflexivity |]. split; reflexivity.
Qed.

End MemoryFacts.

(** ** Further properties of the segmenter *)

Module SegmenterMore.
Import PyStr Segmenter SegmenterSpec SegmenterFacts.

(** *** Substrings *)

Lemma substring_length s : forall a m,
  (a + m <= String.length s)%nat ->
  String.length (substring a m s) = m.
Proof.
  induction s as [| c s IH]; intros a m H; cbn in H.
  - assert (a = 0%nat) by lia. assert (m = 0%nat) by lia. now subst.
  - destruct a as [| a]; cbn.
    + destruct m as [| m]; [reflexivity |]. cbn. f_equal. apply IH. lia.
    + apply IH. lia.
Qed.

Lemma substring_all s : substring 0 (String.length s) s = s.
Proof. induction s as [| c s IH]; cbn; [reflexivity | now rewrite IH]. Qed.

Lemma slice_length txt a b :
  0 <= a <= b -> b <= len txt -> len (slice txt a b) = b - a.
Proof.
  intros Ha Hb. unfold slice.
  rewrite !norm_index_id by lia.
  unfold len in *. rewrite substring_length; lia.
Qed.

Lemma slice_all txt : slice txt 0 (len txt) = txt.
Proof.
  unfold slice. rewrite !norm_index_id by (unfold len; lia).
  unfold len. rewrite Z.sub_0_r, Nat2Z.id. apply substring_all.
Qed.

(** *** Bounds and text of the chunks of the loop *)

Section SmallOverlap.

Variables (txt : string) (c o : Z).
Hypothesis c_pos : 0 < c.
Hypothesis o_small : o = 0 \/ 0 < o < c / 2.

Let n := len txt.

Lemma fixed_loop_chunks (fuel : nat) : forall s cs,
  0 <= s ->
  fixed_loop fuel txt c o s = Done cs ->
  Forall (chunk_ok txt c) cs /\
  (s < n -> exists e, tiled o s cs e).
Proof.
  induction fuel as [| fuel IH]; intros s cs Hs Hrun; [discriminate |].
  cbn [fixed_loop] in Hrun. fold n in Hrun.
  destruct (Z.ltb_spec s n) as [Hlt | Hge].
  2:{ injection Hrun as <-. split; [constructor | lia]. }
  pose proof (window_end_bounds txt c s c_pos (conj Hs Hlt)) as [Hen Hcases].
  cbv zeta in Hen, Hcases. fold n in Hen, Hcases.
  set (e := window_end txt c s) in *.
  assert (Hhalf : 0 <= c / 2) by (apply Z.div_pos; lia).
  assert (Hclt : c / 2 < c) by (apply Z.div_lt; lia).
  assert (Hse : s < e) by lia.
  assert (Hwidth : e - s <= c) by lia.
  assert (Hok : chunk_ok txt c (mkChunk (slice txt s e) s e)).
  { unfold chunk_ok. cbn [start_char end_char text]. fold n.
    repeat split; try lia. apply slice_length; fold n; lia. }
  destruct (tiny_tail txt c (e - o)) eqn:Htiny.
  - injection Hrun as <-. split; [constructor; [exact Hok | constructor] |].
    intros _. exists e. apply (tiled_last o (mkChunk (slice txt s e) s e)).
  - assert (Hprog : s < e - o).
    { destruct Hcases as [[He Hn] | [He | Hsent]]; try lia.
      destruct o_small as [-> | Ho]; [lia |].
      exfalso. apply not_true_iff_false in Htiny. apply Htiny.
      apply tiny_tail_true. fold n. lia. }
    destruct (fixed_loop fuel txt c o (e - o)) as [rest | |] eqn:Hrest;
      cbn [bind] in Hrun; try discriminate.
    injection Hrun as <-.
    destruct (IH (e - o) rest) as [Hall Htiled]; [lia | exact Hrest |].
    split; [now constructor |].
    intros _.
    destruct (Z_lt_le_dec (e - o) n) as [Hin | Hout].
    + destruct (Htiled Hin) as [e' Ht]. exists e'.
      apply (tiled_next o (mkChunk (slice txt s e) s e)); cbn; [lia | exact Ht].
    + assert (rest = []).
      { destruct fuel as [| fuel']; [discriminate |].
        cbn [fixed_loop] in Hrest. fold n in Hrest.
        destruct (Z.ltb_spec (e - o) n); [lia | congruence]. }
      subst rest. exists e.
      apply (tiled_last o (mkChunk (slice txt s e) s e)).
Qed.

End SmallOverlap.

Lemma tiled_adjacent o s cs e a b :
  tiled o s cs e -> adjacent cs a b -> start_char b = end_char a - o.
Proof.
  intros Ht (before & after & Hcs). revert s cs Ht Hcs.
  induction before as [| x before IH]; intros s cs Ht Hcs; subst cs.
  - inversion Ht as [| ? ? ? _ Ht']; subst.
    destruct (tiled_head _ _ _ _ Ht') as (b' & rest & Heq & Hb).
    injection Heq as <- <-. exact Hb.
  - cbn [app] in Ht. inversion Ht as [c0 Hc0 | ? ? ? _ Ht']; subst.
    + destruct before; discriminate.
    + now apply (IH _ _ Ht').
Qed.

(** X1.  For a chunk size above zero and an overlap that is zero or below
    half the chunk size, every chunk of fixed-mode segmentation lies
    inside the text, is at most the chunk size long, is not empty unless
    the text is, and carries exactly the characters of its span. *)
Theorem fixed_chunks_are_spans_of_the_text (txt : string)
    (chunk_size chunk_overlap : Z) (fuel : nat) (cs : list chunk) :
  0 < chunk_size ->
  chunk_overlap = 0 \/ 0 < chunk_overlap < chunk_size / 2 ->
  _create_fixed_chunks fuel txt chunk_size chunk_overlap = Done cs ->
  Forall (chunk_ok txt chunk_size) cs.
Proof.
  intros Hc Ho. unfold _create_fixed_chunks.
  destruct (Z.leb_spec (len txt) chunk_size) as [Hle | Hgt].
  - intros [= <-]. constructor; [| constructor].
    unfold chunk_ok. cbn [start_char end_char text].
    rewrite slice_all. unfold len in *. repeat split; lia.
  - intros Hrun.
    apply (fixed_loop_chunks txt chunk_size chunk_overlap Hc Ho fuel 0 cs);
      [lia | exact Hrun].
Qed.

Lemma fixed_chunks_are_spans_of_the_text_witness :
  Forall (chunk_ok "One. Two. Three. Four. Five. Six." 12)
    [mkChunk "One. Two." 0 9; mkChunk "o. Three." 7 16;
     mkChunk "e. Four." 14 22; mkChunk "r. Five." 20 28;
     mkChunk "e. Six." 26 33].
Proof.
  apply (fixed_chunks_are_spans_of_the_text
           "One. Two. Three. Four. Five. Six." 12 2 10).
  - lia.
  - right. vm_compute. split; reflexivity.
  - vm_compute. reflexivity.
Defined.

(** X2.  Under the same conditions the first chunk starts at 0 and every
    further chunk starts exactly [chunk_overlap] characters before the end
    of the chunk before it. *)
Theorem fixed_chunks_overlap_exactly (txt : string)
    (chunk_size chunk_overlap : Z) (fuel : nat) (cs : list chunk) :
  0 < chunk_size ->
  chunk_overlap = 0 \/ 0 < chunk_overlap < chunk_size / 2 ->
  _create_fixed_chunks fuel txt chunk_size chunk_overlap = Done cs ->
  (exists first rest, cs = first :: rest /\ start_char first = 0) /\
  forall a b, adjacent cs a b ->
    start_char b = end_char a - chunk_overlap.
Proof.
  intros Hc Ho. unfold _create_fixed_chunks.
  destruct (Z.leb_spec (len txt) chunk_size) as [Hle | Hgt].
  - intros [= <-]. split; [now eexists _, _ |].
    intros a b (before & after & Heq).
    destruct before as [| x [| y before]]; discriminate.
  - intros Hrun.
    destruct (fixed_loop_chunks txt chunk_size chunk_overlap Hc Ho fuel 0 cs)
      as [_ Ht]; [lia | exact Hrun |].
    destruct Ht as [e Ht]; [unfold len in *; lia |].
    split.
    + destruct (tiled_head _ _ _ _ Ht) as (first & rest & -> & Hs).
      now exists first, rest.
    + intros a b Hadj. exact (tiled_adjacent _ _ _ _ a b Ht Hadj).
Qed.

Lemma fixed_chunks_overlap_exactly_witness :
  start_char (mkChunk "o. Three." 7 16) = end_char (mkChunk "One. Two." 0 9) - 2.
Proof.
  refine (proj2 (fixed_chunks_overlap_exactly
           "One. Two. Three. Four. Five. Six." 12 2 10 _ _ _ _) _ _ _).
  - lia.
  - right. vm_compute. split; reflexivity.
  - vm_compute. reflexivity.
  - exists [], [mkChunk "e. Four." 14 22; mkChunk "r. Five." 20 28;
                mkChunk "e. Six." 26 33]. reflexivity.
Defined.

(** *** Paragraphs that fit into one chunk *)

Lemma len_append a b : len (a ++ b)%string = len a + len b.
Proof.
  unfold len. induction a as [| c a IH]; cbn [append String.length].
  - lia.
  - rewrite !Nat2Z.inj_succ in *. lia.
Qed.

Lemma len_nonneg s : 0 <= len s.
Proof. unfold len. lia. Qed.

Lemma sum_len_app l1 l2 : sum_len (l1 ++ l2) = sum_len l1 + sum_len l2.
Proof.
  unfold sum_len. induction l1 as [| p l1 IH]; cbn [app fold_right]; lia.
Qed.

Lemma sum_len_nonneg l : 0 <= sum_len l.
Proof.
  unfold sum_len. induction l as [| p l IH]; cbn [fold_right]; [lia |].
  pose proof (len_nonneg p). lia.
Qed.

Lemma len_join l :
  l <> [] -> len (join blank_line l) = buffer_size l - 2.
Proof.
  unfold buffer_size.
  induction l as [| p l IH]; [congruence |]. intros _.
  destruct l as [| q l].
  - cbn. lia.
  - change (join blank_line (p :: q :: l))
      with (p ++ blank_line ++ join blank_line (q :: l))%string.
    rewrite !len_append, IH by discriminate.
    change (len blank_line) with 2.
    cbn [sum_len fold_right List.length] in *.
    rewrite !Nat2Z.inj_succ in *. lia.
Qed.

Lemma adaptive_loop_fits fuel c o raws : forall acc,
  buffer_size
    (acc ++ filter (fun p => negb (String.eqb p "")) (map strip raws)) - 2
  <= c ->
  adaptive_loop fuel c o raws (mkState [] acc (buffer_size acc) 0)
  = Done (mkState []
            (acc ++ filter (fun p => negb (String.eqb p "")) (map strip raws))
            (buffer_size
               (acc ++ filter (fun p => negb (String.eqb p ""))
                         (map strip raws)))
            0).
Proof.
  induction raws as [| raw raws IH]; intros acc Hfit;
    cbn [adaptive_loop map filter] in *.
  - now rewrite app_nil_r.
  - unfold adaptive_step. cbv zeta.
    destruct (String.eqb (strip raw) "") eqn:Hempty; cbn [negb bind] in *.
    + now apply IH.
    + cbn [current_size current_chunk chunks current_start].
      set (rest := filter (fun p => negb (String.eqb p "")) (map strip raws))
        in *.
      assert (Hsize : buffer_size (acc ++ strip raw :: rest)
                      = buffer_size acc + len (strip raw) + 2
                        + buffer_size rest).
      { unfold buffer_size. rewrite sum_len_app, length_app.
        cbn [sum_len fold_right List.length].
        rewrite Nat2Z.inj_add, Nat2Z.inj_succ. fold (sum_len rest). lia. }
      assert (Hrest : 0 <= buffer_size rest)
        by (unfold buffer_size; pose proof (sum_len_nonneg rest); lia).
      assert (Hacc : 0 <= buffer_size acc)
        by (unfold buffer_size; pose proof (sum_len_nonneg acc); lia).
      pose proof (len_nonneg (strip raw)) as Hp.
      destruct (Z.gtb_spec (buffer_size acc + len (strip raw)) c); [lia |].
      cbn [andb]. cbn [current_size current_chunk chunks current_start].
      destruct (Z.gtb_spec (len (strip raw)) c); [lia |].
      cbn [bind].
      replace (buffer_size acc + len (strip raw) + 2)
        with (buffer_size (acc ++ [strip raw])).
      * rewrite (IH (acc ++ [strip raw])); rewrite <- app_assoc; [reflexivity |].
        exact Hfit.
      * unfold buffer_size. rewrite sum_len_app, length_app.
        cbn [sum_len fold_right List.length].
        rewrite Nat2Z.inj_add. lia.
Qed.

(** X3.  When the stripped, non-empty paragraphs of a text, joined by blank
    lines, fit into the chunk size, adaptive segmentation returns exactly
    one chunk: that joined text, with the span from 0 to its length. *)
Theorem adaptive_one_chunk_when_paragraphs_fit (txt : string)
    (chunk_size chunk_overlap : Z) (fuel : nat) :
  paragraphs_of txt <> [] ->
  len (join blank_line (paragraphs_of txt)) <= chunk_size ->
  _create_adaptive_chunks fuel txt chunk_size chunk_overlap
  = Done [mkChunk (join blank_line (paragraphs_of txt)) 0
            (len (join blank_line (paragraphs_of txt)))].
Proof.
  intros Hne Hfit. rewrite (len_join _ Hne) in Hfit.
  unfold _create_adaptive_chunks.
  change (mkState [] [] 0 0) with (mkState [] [] (buffer_size []) 0).
  rewrite (adaptive_loop_fits fuel chunk_size chunk_overlap _ []);
    [| exact Hfit].
  cbn [bind app current_chunk chunks current_start].
  fold (paragraphs_of txt).
  destruct (paragraphs_of txt) as [| p ps] eqn:Hps; [congruence |].
  reflexivity.
Qed.

Lemma adaptive_one_chunk_when_paragraphs_fit_witness :
  _create_adaptive_chunks 0
    (String newline ("  First one.  " ++ blank_line ++ String newline
                     ("Second." ++ String newline "")))%string 40 5
  = Done [mkChunk ("First one." ++ blank_line ++ "Second.")%string 0 19].
Proof.
  apply (adaptive_one_chunk_when_paragraphs_fit
           (String newline ("  First one.  " ++ blank_line ++ String newline
                            ("Second." ++ String newline "")))%string 40 5 0).
  - vm_compute. discriminate.
  - vm_compute. discriminate.
Defined.

(** *** One paragraph that is too long *)

Lemma split_scan_single_line l : forall piece,
  Forall (fun c => c <> newline) l ->
  split_scan l piece NoSep = [piece ++ l].
Proof.
  induction l as [| c l IH]; intros piece Hl; cbn [split_scan].
  - now rewrite app_nil_r.
  - inversion Hl as [| ? ? Hc Hl']; subst.
    destruct (Ascii.eqb_spec c newline) as [-> | _]; [congruence |].
    rewrite (IH _ Hl'), <- app_assoc. reflexivity.
Qed.

Lemma split_paragraphs_single_line txt :
  single_line txt -> split_paragraphs txt = [txt].
Proof.
  intros H. unfold split_paragraphs.
  rewrite (split_scan_single_line _ [] H). cbn [map app].
  now rewrite string_of_list_ascii_of_string.
Qed.

Lemma shift_zero l : map (shift 0) l = l.
Proof.
  induction l as [| [t s e] l IH]; cbn [map]; [reflexivity |].
  rewrite IH. reflexivity.
Qed.

(** X4.  For a text that is one paragraph (no newline, nothing to strip)
    longer than the chunk size, adaptive segmentation returns the chunks
    of fixed-mode segmentation without the first of them: the first
    window of a paragraph that is split further is never emitted. *)
Theorem adaptive_drops_first_window (txt : string)
    (chunk_size chunk_overlap : Z) (fuel : nat) :
  0 <= chunk_size ->
  single_line txt ->
  strip txt = txt ->
  chunk_size < len txt ->
  _create_adaptive_chunks fuel txt chunk_size chunk_overlap
  = (cs <- _create_fixed_chunks fuel txt chunk_size chunk_overlap ;;
     Done (tl cs)).
Proof.
  intros Hc Hline Hstrip Hlong.
  unfold _create_adaptive_chunks.
  rewrite (split_paragraphs_single_line txt Hline).
  cbn [adaptive_loop]. unfold adaptive_step. cbv zeta. rewrite Hstrip.
  destruct (String.eqb_spec txt "") as [-> | _];
    [change (len "") with 0 in Hlong; lia |].
  cbn [current_size current_chunk chunks current_start andb].
  change (0 >? 0) with false. rewrite andb_false_r.
  cbn [current_size current_chunk chunks current_start].
  destruct (Z.gtb_spec (len txt) chunk_size); [| lia].
  destruct (_create_fixed_chunks fuel txt chunk_size chunk_overlap)
    as [cs | e |]; cbn [bind]; try reflexivity.
  cbn [current_chunk chunks app]. now rewrite shift_zero.
Qed.

Lemma adaptive_drops_first_window_witness :
  _create_adaptive_chunks 10 "One. Two. Three. Four. Five. Six." 12 2
  = Done [mkChunk "o. Three." 7 16; mkChunk "e. Four." 14 22;
          mkChunk "r. Five." 20 28; mkChunk "e. Six." 26 33].
Proof.
  rewrite (adaptive_drops_first_window
             "One. Two. Three. Four. Five. Six." 12 2 10).
  - reflexivity.
  - lia.
  - unfold single_line. cbn. repeat constructor; discriminate.
  - reflexivity.
  - vm_compute. reflexivity.
Defined.

(** *** Every adaptive chunk has text *)

Lemma len_positive s : s <> ""%string -> 0 < len s.
Proof. destruct s; [congruence |]. intros _. unfold len. cbn. lia. Qed.

Lemma join_positive l :
  l <> [] -> Forall (fun p => p <> ""%string) l -> 0 < len (join blank_line l).
Proof.
  destruct l as [| p l]; [congruence |]. intros _ Hall.
  inversion Hall as [| ? ? Hp _]; subst.
  pose proof (len_positive p Hp) as Hpos.
  destruct l as [| q l]; [exact Hpos |].
  change (join blank_line (p :: q :: l))
    with (p ++ blank_line ++ join blank_line (q :: l))%string.
  rewrite !len_append.
  pose proof (len_nonneg (join blank_line (q :: l))).
  change (len blank_line) with 2. lia.
Qed.

Lemma skipn_nonempty {A : Type} (l : list A) :
  l <> [] ->
  skipn (Z.to_nat (Z.max 0 (Z.of_nat (List.length l) - 2))) l <> [].
Proof.
  intros Hl Hnil.
  assert (Hlen : List.length
                   (skipn (Z.to_nat (Z.max 0 (Z.of_nat (List.length l) - 2))) l)
                 = 0%nat) by now rewrite Hnil.
  rewrite length_skipn in Hlen.
  destruct l as [| x l]; [congruence |]. cbn [List.length] in Hlen. lia.
Qed.

Lemma flush_ok st :
  buffer_ok st -> 0 < current_size st -> buffer_ok (flush st).
Proof.
  intros (Hcs & Hps & Hne) Hpos. specialize (Hne Hpos).
  unfold flush, buffer_ok. cbv zeta. cbn [chunks current_chunk current_size].
  split; [| split].
  - apply Forall_app. split; [exact Hcs |]. constructor; [| constructor].
    unfold sound_chunk. cbn [text start_char end_char].
    split; [now apply join_positive | lia].
  - rewrite Forall_forall in *. intros p Hp. apply Hps.
    rewrite <- (firstn_skipn
                  (Z.to_nat (Z.max 0 (Z.of_nat (List.length (current_chunk st)) - 2)))
                  (current_chunk st)).
    apply in_or_app. now right.
  - intros _. now apply skipn_nonempty.
Qed.

Lemma shift_sound base c : sound_chunk c -> sound_chunk (shift base c).
Proof.
  unfold sound_chunk, shift. cbn [text start_char end_char]. lia.
Qed.

Lemma chunk_ok_sound txt c k :
  0 < len txt -> chunk_ok txt c k -> sound_chunk k.
Proof.
  intros Hpos (_ & _ & Hlt & _ & _ & Hlen). unfold sound_chunk.
  specialize (Hlt Hpos). lia.
Qed.

Section AdaptiveSound.

Variables (c o : Z).
Hypothesis c_pos : 0 < c.
Hypothesis o_small : o = 0 \/ 0 < o < c / 2.

Lemma adaptive_step_ok fuel st raw st' :
  buffer_ok st ->
  adaptive_step fuel c o st raw = Done st' ->
  buffer_ok st'.
Proof.
  intros Hst. unfold adaptive_step. cbv zeta.
  destruct (String.eqb_spec (strip raw) "") as [_ | Hne];
    [now intros [= <-] |].
  set (st1 := if (current_size st + len (strip raw) >? c)
                 && (current_size st >? 0)
              then flush st else st).
  assert (Hst1 : buffer_ok st1).
  { subst st1. destruct (_ >? c); cbn [andb]; [| exact Hst].
    destruct (Z.gtb_spec (current_size st) 0) as [Hpos | _]; [| exact Hst].
    apply flush_ok; [exact Hst | lia]. }
  destruct Hst1 as (Hcs & Hps & _).
  assert (Hbuffer : Forall (fun p => p <> ""%string)
                      (current_chunk st1 ++ [strip raw])).
  { apply Forall_app. split; [exact Hps |]. now constructor. }
  destruct (Z.gtb_spec (len (strip raw)) c) as [Hbig | _].
  - unfold _create_fixed_chunks.
    destruct (Z.leb_spec (len (strip raw)) c) as [? | _]; [lia |].
    destruct (fixed_loop fuel (strip raw) c o 0) as [ks | |] eqn:Hks;
      cbn [bind]; try discriminate.
    intros [= <-]. unfold buffer_ok.
    cbn [chunks current_chunk current_size].
    split; [| split; [constructor | lia]].
    apply Forall_app. split; [exact Hcs |].
    destruct (fixed_loop_chunks (strip raw) c o c_pos o_small fuel 0 ks)
      as [Hok _]; [lia | exact Hks |].
    pose proof (len_positive _ Hne) as Hpos.
    apply Forall_forall. intros k Hk. apply in_map_iff in Hk.
    destruct Hk as (k0 & <- & Hk0). apply shift_sound.
    apply (chunk_ok_sound (strip raw) c); [exact Hpos |].
    rewrite Forall_forall in Hok. apply Hok.
    destruct ks as [| k1 ks]; [contradiction | now right].
  - intros [= <-]. unfold buffer_ok.
    cbn [chunks current_chunk current_size].
    split; [exact Hcs |]. split; [exact Hbuffer |].
    intros _. now destruct (current_chunk st1).
Qed.

Lemma adaptive_loop_ok fuel raws : forall st st',
  buffer_ok st ->
  adaptive_loop fuel c o raws st = Done st' ->
  buffer_ok st'.
Proof.
  induction raws as [| raw raws IH]; intros st st' Hst; cbn [adaptive_loop].
  - now intros [= <-].
  - destruct (adaptive_step fuel c o st raw) as [st1 | |] eqn:Hstep;
      cbn [bind]; try discriminate.
    apply IH. exact (adaptive_step_ok fuel st raw st1 Hst Hstep).
Qed.

End AdaptiveSound.

(** X23.  For a chunk size above zero and an overlap that is zero or
    below half the chunk size, adaptive segmentation never returns an
    empty chunk, and the span of every chunk is as long as its text. *)
Theorem adaptive_chunks_have_text (txt : string)
    (chunk_size chunk_overlap : Z) (fuel : nat) (cs : list chunk) :
  0 < chunk_size ->
  chunk_overlap = 0 \/ 0 < chunk_overlap < chunk_size / 2 ->
  _create_adaptive_chunks fuel txt chunk_size chunk_overlap = Done cs ->
  Forall sound_chunk cs.
Proof.
  intros Hc Ho. unfold _create_adaptive_chunks.
  destruct (adaptive_loop fuel chunk_size chunk_overlap (split_paragraphs txt)
              (mkState [] [] 0 0)) as [st | |] eqn:Hloop;
    cbn [bind]; try discriminate.
  assert (Hst : buffer_ok st).
  { apply (adaptive_loop_ok chunk_size chunk_overlap Hc Ho fuel
             (split_paragraphs txt) (mkState [] [] 0 0) st); [| exact Hloop].
    unfold buffer_ok. cbn. repeat split; try constructor. lia. }
  destruct Hst as (Hcs & Hps & _).
  destruct (current_chunk st) as [| p ps] eqn:Hbuf.
  - now intros [= <-].
  - intros [= <-]. apply Forall_app. split; [exact Hcs |].
    constructor; [| constructor]. unfold sound_chunk.
    cbn [text start_char end_char]. split; [| lia].
    apply (join_positive (p :: ps)); [discriminate | exact Hps].
Qed.

Lemma adaptive_chunks_have_text_witness :
  Forall sound_chunk
    [mkChunk "o. Three." 7 16; mkChunk "e. Four." 14 22;
     mkChunk "r. Five." 20 28; mkChunk "e. Six." 26 33].
Proof.
  apply (adaptive_chunks_have_text "One. Two. Three. Four. Five. Six." 12 2 10).
  - lia.
  - right. cbn. lia.
  - vm_compute. reflexivity.
Defined.

End SegmenterMore.

(** ** Results of the retriever: cleaning, ranking, fetching *)

Module RetrieverMore.
Import Py Retriever RetrieverStore PyFacts RetrieverFacts.

(** *** Deleting keys of a dictionary *)

Section Delete.

Context {V : Type}.
Implicit Types d : dict V.

Lemma dict_get_notin k d : ~ In k (keys d) -> dict_get k d = None.
Proof.
  induction d as [| [k0 v0] d IH]; cbn; intros Hn; [reflexivity |].
  destruct (String.eqb_spec k0 k) as [-> | _].
  - exfalso. apply Hn. now left.
  - apply IH. intros Hin. apply Hn. now right.
Qed.

Lemma keys_del_incl k d x : In x (keys (dict_del k d)) -> In x (keys d).
Proof.
  induction d as [| [k0 v0] d IH]; cbn; [trivial |].
  destruct (String.eqb k0 k); cbn.
  - intros H. now right.
  - intros [H | H]; [now left | right; now apply IH].
Qed.

Lemma keys_del_NoDup k d : NoDup (keys d) -> NoDup (keys (dict_del k d)).
Proof.
  induction d as [| [k0 v0] d IH]; cbn; intros Hnd; [constructor |].
  inversion Hnd as [| ? ? Hnotin Hnd']; subst.
  destruct (String.eqb k0 k); [exact Hnd' |].
  cbn. constructor; [| now apply IH].
  intros Hin. apply Hnotin. exact (keys_del_incl _ _ _ Hin).
Qed.

Lemma dict_get_del_same k d :
  NoDup (keys d) -> dict_get k (dict_del k d) = None.
Proof.
  induction d as [| [k0 v0] d IH]; cbn; intros Hnd; [reflexivity |].
  inversion Hnd as [| ? ? Hnotin Hnd']; subst.
  destruct (String.eqb_spec k0 k) as [-> | Hne].
  - now apply dict_get_notin.
  - cbn. destruct (String.eqb_spec k0 k) as [-> | _]; [contradiction |].
    now apply IH.
Qed.

Lemma dict_get_del_none k k' d :
  dict_get k d = None -> dict_get k (dict_del k' d) = None.
Proof.
  induction d as [| [k0 v0] d IH]; cbn; [trivial |].
  destruct (String.eqb_spec k0 k) as [-> | Hne]; [discriminate |].
  intros Hget. destruct (String.eqb k0 k'); [exact Hget |].
  cbn. destruct (String.eqb_spec k0 k) as [-> | _]; [contradiction |].
  now apply IH.
Qed.

End Delete.

Lemma cleaned_dict (m : dict pyval) :
  NoDup (keys m) ->
  let m' := dict_del "id" (dict_del "chunk_index" (dict_del "document_id" m)) in
  dict_get "document_id" m' = None /\
  dict_get "chunk_index" m' = None /\
  dict_get "id" m' = None.
Proof.
  intros Hnd. cbv zeta. repeat split.
  - do 2 apply dict_get_del_none. now apply dict_get_del_same.
  - apply dict_get_del_none. apply dict_get_del_same.
    now apply keys_del_NoDup.
  - apply dict_get_del_same. now do 2 apply keys_del_NoDup.
Qed.

Lemma clean_metadata_clean (r : result) :
  dicts_ok r -> metadata_clean (process_one r).
Proof.
  intros [Hp Hm]. unfold metadata_clean, process_one. cbn [r_metadata].
  unfold clean_metadata.
  set (m0 := match match r_metadata r with Some m => m | None => [] end,
                   r_payload r with
             | [], Some p => p
             | _, _ => match r_metadata r with Some m => m | None => [] end
             end).
  assert (Hm0 : NoDup (keys m0)).
  { subst m0. unfold payload_of in Hp.
    destruct (r_metadata r) as [[| x m] |]; destruct (r_payload r);
      trivial. }
  pose proof (cleaned_dict m0 Hm0) as Hc. cbv zeta in Hc.
  destruct (dict_del "id" _) eqn:E; [exact I |].
  split; [discriminate | exact Hc].
Qed.

(** *** The scores that reach [_process_results] *)

Lemma sorted_by_equal_keys {A B : Type} (f : A -> Q) (g : B -> Q)
    (h : A -> B) (l : list A) :
  (forall x, In x l -> (g (h x) == f x)%Q) ->
  Sorted (desc f) l -> Sorted (desc g) (map h l).
Proof.
  intros Heq Hs. induction Hs as [| a l Hs IH Hd]; cbn; [constructor |].
  constructor.
  - apply IH. intros x Hx. apply Heq. now right.
  - destruct Hd as [| b l Hab]; cbn; constructor.
    unfold desc in *.
    rewrite (Heq a) by (now left).
    rewrite (Heq b) by (right; now left).
    exact Hab.
Qed.

Lemma vector_entries_scores vs :
  Forall (fun e => r_combined_score e = r_vector_score e)
    (values (fold_left add_vector vs [])).
Proof.
  assert (H : forall d,
    Forall (fun e => r_combined_score e = r_vector_score e) (values d) ->
    Forall (fun e => r_combined_score e = r_vector_score e)
      (values (fold_left add_vector vs d))).
  { induction vs as [| r vs IH]; intros d Hd; cbn [fold_left]; [exact Hd |].
    apply IH. unfold add_vector. destruct (negb _); [exact Hd |].
    now apply values_set. }
  apply H. constructor.
Qed.

Lemma process_one_score (r : result) :
  r_combined_score r = r_vector_score r ->
  (score_field (process_one r) == combined r)%Q.
Proof.
  unfold score_field, combined, process_one. cbn [r_score number].
  intros <-. destruct (r_combined_score r) as [q |]; cbn [num_or number];
    [| reflexivity].
  destruct (Qeq_bool q 0) eqn:E; [| reflexivity].
  apply Qeq_bool_iff in E. now rewrite E.
Qed.

Lemma process_one_id (r : result) : id_key (process_one r) = id_key r.
Proof. reflexivity. Qed.

(** *** What fetching the content changes *)

Lemma same_but_content_refl r : same_but_content r r.
Proof. now repeat split. Qed.

Lemma fetch_as_map bf rs :
  exists f, _fetch_chunk_content bf rs = map f rs /\
            forall r, same_but_content r (f r).
Proof.
  unfold _fetch_chunk_content.
  destruct (flat_map _ rs) as [| p ps] eqn:E.
  - exists (fun r => r). split; [now rewrite map_id |].
    apply same_but_content_refl.
  - eexists. split; [reflexivity |].
    intros r. cbv beta. destruct (lookup_pair _ _ _); [| apply same_but_content_refl].
    now repeat split.
Qed.

Lemma fetch_keeps_fields bf rs :
  Forall2 same_but_content rs (_fetch_chunk_content bf rs).
Proof.
  destruct (fetch_as_map bf rs) as (f & -> & Hf).
  induction rs as [| r rs IH]; cbn; constructor; auto.
Qed.

(** *** The two ways of fetching chunks *)

Lemma pair_get_set d c row d' c' m :
  pair_get d' c' (pair_set d c row m)
  = if (d =? d') && (c =? c') then Some row else pair_get d' c' m.
Proof.
  induction m as [| [[d0 c0] row0] m IH]; cbn.
  - reflexivity.
  - destruct ((d0 =? d) && (c0 =? c)) eqn:E0; cbn.
    + apply andb_true_iff in E0. destruct E0 as [Ed Ec].
      apply Z.eqb_eq in Ed, Ec. subst d0 c0.
      now destruct ((d =? d') && (c =? c')).
    + destruct ((d0 =? d') && (c0 =? c')) eqn:E1; [| exact IH].
      destruct ((d =? d') && (c =? c')) eqn:E2; [| reflexivity].
      apply andb_true_iff in E1, E2. destruct E1 as [A1 B1], E2 as [A2 B2].
      apply Z.eqb_eq in A1, B1, A2, B2. subst.
      now rewrite !Z.eqb_refl in E0.
Qed.

Lemma single_loop db d c ps : forall acc,
  pair_get d c
    (fold_left
       (fun results p =>
          match _fetch_single_chunk db (fst p) (snd p) with
          | Some row => pair_set (fst p) (snd p) row results
          | None => results
          end) ps acc)
  = if asked ps d c
    then match _fetch_single_chunk db d c with
         | Some row => Some row
         | None => pair_get d c acc
         end
    else pair_get d c acc.
Proof.
  unfold asked.
  induction ps as [| [d0 c0] ps IH]; intros acc; cbn [fold_left existsb];
    [reflexivity |].
  rewrite IH. cbn [fst snd].
  destruct ((d0 =? d) && (c0 =? c)) eqn:E0; cbn [orb].
  - apply andb_true_iff in E0. destruct E0 as [A B].
    apply Z.eqb_eq in A, B. subst d0 c0.
    destruct (_fetch_single_chunk db d c) as [row |] eqn:Es.
    + rewrite pair_get_set, !Z.eqb_refl. cbn.
      now destruct (existsb _ ps).
    + now destruct (existsb _ ps).
  - destruct (existsb _ ps); [destruct (_fetch_single_chunk db d c); trivial |];
      destruct (_fetch_single_chunk db d0 c0); trivial;
      now rewrite pair_get_set, E0.
Qed.

Lemma is_chunk_own row : is_chunk (c_document_id row) (c_chunk_index row) row = true.
Proof. unfold is_chunk. now rewrite !Z.eqb_refl. Qed.

Lemma is_chunk_same d c row row' :
  is_chunk d c row = true ->
  is_chunk (c_document_id row) (c_chunk_index row) row' = is_chunk d c row'.
Proof.
  unfold is_chunk. intros H. apply andb_true_iff in H. destruct H as [A B].
  apply Z.eqb_eq in A, B. now subst.
Qed.

Lemma batch_loop d c rows : forall acc,
  pair_get d c
    (fold_left
       (fun results row =>
          pair_set (c_document_id row) (c_chunk_index row) (row_of row) results)
       rows acc)
  = match rev (filter (is_chunk d c) rows) with
    | row :: _ => Some (row_of row)
    | [] => pair_get d c acc
    end.
Proof.
  induction rows as [| row rows IH]; intros acc; cbn [fold_left filter];
    [reflexivity |].
  rewrite IH. unfold is_chunk at 2.
  destruct ((c_document_id row =? d) && (c_chunk_index row =? c)) eqn:E.
  - cbn [rev]. rewrite pair_get_set, E.
    destruct (rev (filter (is_chunk d c) rows)); reflexivity.
  - rewrite pair_get_set, E. reflexivity.
Qed.

Lemma distinct_one_match d c rows :
  distinct_chunks rows ->
  (List.length (filter (is_chunk d c) rows) <= 1)%nat.
Proof.
  induction rows as [| row rows IH]; cbn [filter distinct_chunks];
    intros Hd; [cbn; lia |].
  destruct Hd as [Hrow Hd].
  destruct (is_chunk d c row) eqn:E; [| now apply IH].
  assert (Hnone : filter (is_chunk d c) rows = []).
  { clear IH Hd. induction Hrow as [| r rows Hr _ IH']; cbn; [reflexivity |].
    rewrite (is_chunk_same _ _ _ _ E) in Hr. now rewrite Hr. }
  rewrite Hnone. cbn. lia.
Qed.

Lemma filter_requested d c ps rows :
  filter (is_chunk d c) (filter (requested ps) rows)
  = if asked ps d c then filter (is_chunk d c) rows else [].
Proof.
  induction rows as [| row rows IH]; cbn [filter];
    [now destruct (asked ps d c) |].
  destruct (is_chunk d c row) eqn:E.
  - assert (Hreq : requested ps row = asked ps d c).
    { unfold requested, asked. clear IH.
      unfold is_chunk in E. apply andb_true_iff in E. destruct E as [A B].
      apply Z.eqb_eq in A, B. subst d c.
      induction ps as [| p ps IHp]; cbn; [reflexivity |].
      rewrite IHp. f_equal. unfold is_chunk.
      now rewrite (Z.eqb_sym (fst p)), (Z.eqb_sym (snd p)). }
    rewrite Hreq. destruct (asked ps d c).
    + cbn [filter]. now rewrite E, IH.
    + exact IH.
  - destruct (requested ps row); [cbn [filter]; rewrite E |]; exact IH.
Qed.

(** *** Properties of the results *)

(** X5.  [_process_results] never hands out the redundant fields: the
    metadata of a processed result, taken from the result's metadata or,
    when that is empty, from its payload, has none of the keys
    "document_id", "chunk_index" and "id", and metadata that would be
    empty is left out. *)
Theorem processed_metadata_is_clean (results : list result) :
  Forall dicts_ok results ->
  Forall metadata_clean (_process_results results).
Proof.
  intros H. unfold _process_results.
  induction H as [| r rs Hr _ IH]; cbn [map]; constructor; trivial.
  now apply clean_metadata_clean.
Qed.

Lemma processed_metadata_is_clean_witness :
  Forall metadata_clean
    (_process_results
       [{| r_id := Some (PStr "d1:0"); r_document_id := Some (PStr "d1");
           r_chunk_index := Some (PInt 0); r_score := None;
           r_vector_score := Some (9 # 10); r_keyword_score := Some 0%Q;
           r_combined_score := Some (9 # 10);
           r_payload := Some [("document_id", PStr "d1");
                              ("title", PStr "Notes");
                              ("chunk_index", PInt 0)];
           r_content := None; r_metadata := None |};
        point "d1" 1 (4 # 10)]).
Proof.
  apply processed_metadata_is_clean.
  repeat constructor; cbn; intuition discriminate.
Defined.

(** X6.  With hybrid search, [retrieve] returns one result for every
    distinct key of a usable vector candidate and no other: the
    identifiers of the results are those keys, without repetition; each
    result is scored with the score of the last vector candidate of its
    key; and the results are in descending order of score.  Fetching the
    content does not change any of this. *)
Theorem hybrid_retrieve_is_ranked (cfg : settings) (env : stores)
    (query : string) (top_k : option Z) (include_content : bool)
    (out : list result) :
  retrieve cfg env query top_k (Some true) include_content = Done out ->
  exists k vs,
    vector_search env query k = Done vs /\
    Permutation (fromkeys (key_list vector_key vs)) (map id_key out) /\
    NoDup (map id_key out) /\
    Forall (fun p => exists v,
              last_score vector_key (id_key p) vs = Some v /\
              (score_field p == v)%Q) out /\
    Sorted (desc score_field) out.
Proof.
  unfold retrieve.
  set (k := match top_k with
            | Some k => if k =? 0 then default_top_k cfg else k
            | None => default_top_k cfg
            end).
  destruct (vector_search env query k) as [vs | |] eqn:Hvs; cbn [bind];
    try discriminate.
  unfold _keyword_search, _rerank_results.
  set (ranked := _merge_results vs []).
  replace (if reranking_enabled cfg && (1 <? Z.of_nat (List.length ranked))
           then ranked else ranked) with ranked by (now destruct (_ && _)).
  assert (Hfetched : exists f,
            (if include_content
             then _fetch_chunk_content (batch_fetch env) ranked
             else ranked) = map f ranked /\
            forall r, same_but_content r (f r)).
  { destruct include_content; [apply fetch_as_map |].
    exists (fun r => r). split; [now rewrite map_id |].
    apply same_but_content_refl. }
  destruct Hfetched as (f & -> & Hf).
  intros [= <-]. exists k, vs. split; [exact Hvs |].
  unfold _process_results. rewrite (map_map f process_one).
  assert (Hid : forall e, id_key (process_one (f e)) = id_key e).
  { intros e. rewrite process_one_id. unfold id_key.
    destruct (Hf e) as (-> & _). reflexivity. }
  assert (Hperm : Permutation (values (merged_dict vs [])) ranked)
    by apply sort_desc_perm.
  assert (Hscore : forall e, In e ranked ->
            (score_field (process_one (f e)) == combined e)%Q).
  { intros e He. apply (Permutation_in _ (Permutation_sym Hperm)) in He.
    pose proof (vector_entries_scores vs) as Hv.
    rewrite Forall_forall in Hv. specialize (Hv e He).
    destruct (Hf e) as (_ & _ & _ & _ & Hfv & _ & Hfc & _).
    rewrite process_one_score by congruence.
    unfold combined. now rewrite Hfc. }
  assert (Hkeys : Permutation (fromkeys (key_list vector_key vs))
                    (map id_key (map (fun e => process_one (f e)) ranked))).
  { rewrite map_map. rewrite (map_ext _ id_key Hid).
    rewrite <- Hperm, id_keys_merged, keys_merged.
    unfold candidate_keys. cbn [key_list flat_map].
    now rewrite app_nil_r. }
  split; [exact Hkeys |].
  split; [exact (Permutation_NoDup Hkeys (fromkeys_NoDup _)) |].
  split.
  - apply Forall_forall. intros p Hp. apply in_map_iff in Hp.
    destruct Hp as (e & <- & He). rewrite Hid.
    pose proof (Hscore e He) as Hs.
    apply (Permutation_in _ (Permutation_sym Hperm)) in He.
    pose proof (merged_scores vs [] e He) as Hm. cbn [last_score] in Hm.
    destruct (last_score vector_key (id_key e) vs) as [v |];
      [| contradiction].
    exists v. split; [reflexivity |]. now rewrite Hs.
  - apply (sorted_by_equal_keys combined); [exact Hscore |].
    apply sort_desc_sorted.
Qed.

Lemma hybrid_retrieve_is_ranked_witness :
  exists k vs,
    vector_search
      (stores_with [point "d1" 1 (4 # 10); point "d1" 0 (9 # 10);
                    point "d1" 1 (6 # 10)]) "query" k = Done vs /\
    Permutation (fromkeys (key_list vector_key vs))
      (map id_key [processed (PStr "d1:0") (PStr "d1") (PInt 0) (9 # 10);
                   processed (PStr "d1:1") (PStr "d1") (PInt 1) (6 # 10)]) /\
    NoDup (map id_key
             [processed (PStr "d1:0") (PStr "d1") (PInt 0) (9 # 10);
              processed (PStr "d1:1") (PStr "d1") (PInt 1) (6 # 10)]) /\
    Forall (fun p => exists v,
              last_score vector_key (id_key p) vs = Some v /\
              (score_field p == v)%Q)
      [processed (PStr "d1:0") (PStr "d1") (PInt 0) (9 # 10);
       processed (PStr "d1:1") (PStr "d1") (PInt 1) (6 # 10)] /\
    Sorted (desc score_field)
      [processed (PStr "d1:0") (PStr "d1") (PInt 0) (9 # 10);
       processed (PStr "d1:1") (PStr "d1") (PInt 1) (6 # 10)].
Proof.
  apply (hybrid_retrieve_is_ranked plain_settings
           (stores_with [point "d1" 1 (4 # 10); point "d1" 0 (9 # 10);
                         point "d1" 1 (6 # 10)])
           "query" None true).
  reflexivity.
Defined.

(** X7.  [_fetch_chunk_content] changes nothing but content and metadata:
    it returns as many results, in the same order, each with the
    identifiers, scores and payload it had.  When the relational store
    answers with no rows (as it does when its query fails), and when no
    result has both a document id and a chunk index, the results come
    back as they were. *)
Theorem fetch_chunk_content_only_adds_content
    (batch_fetch : list (pyval * pyval) -> list ((pyval * pyval) * chunk_row))
    (results : list result) :
  Forall2 same_but_content results (_fetch_chunk_content batch_fetch results) /\
  ((forall id_pairs, batch_fetch id_pairs = []) ->
   _fetch_chunk_content batch_fetch results = results) /\
  (Forall (fun r => is_none (field (r_document_id r))
                    || is_none (field (r_chunk_index r)) = true) results ->
   _fetch_chunk_content batch_fetch results = results).
Proof.
  split; [apply fetch_keeps_fields |]. split.
  - intros Hempty. unfold _fetch_chunk_content.
    destruct (flat_map _ results); [reflexivity |].
    rewrite Hempty. cbn [lookup_pair]. apply map_id.
  - intros Hnone. unfold _fetch_chunk_content.
    replace (flat_map _ results) with (@nil (pyval * pyval)); [reflexivity |].
    induction Hnone as [| r rs Hr _ IH]; cbn [flat_map]; [reflexivity |].
    rewrite <- IH.
    destruct (is_none (field (r_document_id r)));
      destruct (is_none (field (r_chunk_index r))); cbn in *;
      congruence.
Qed.

Lemma fetch_chunk_content_only_adds_content_witness :
  _fetch_chunk_content (fun _ => [])
    [hit "d1" 0 (9 # 10); hit "d1" 1 (4 # 10)]
  = [hit "d1" 0 (9 # 10); hit "d1" 1 (4 # 10)].
Proof.
  apply (proj1 (proj2 (fetch_chunk_content_only_adds_content (fun _ => [])
           [hit "d1" 0 (9 # 10); hit "d1" 1 (4 # 10)]))).
  reflexivity.
Defined.

(** X8.  Without hybrid search [retrieve] returns one result per vector
    candidate, in the order of the vector store, and every one of them
    has score 0 when the candidates carry, as the vector stores return
    them, only a field "score": the ranking score is lost whatever the
    candidates and whatever the content fetched. *)
Theorem plain_retrieve_scores_zero (cfg : settings) (env : stores)
    (query : string) (top_k : option Z) (include_content : bool)
    (out : list result) :
  retrieve cfg env query top_k (Some false) include_content = Done out ->
  exists k vs,
    vector_search env query k = Done vs /\
    Forall2 (fun r p => r_id p = Some (field (r_id r)) /\
                        r_document_id p = Some (field (r_document_id r)) /\
                        r_chunk_index p = Some (field (r_chunk_index r)))
      vs out /\
    (Forall raw_candidate vs -> Forall (fun p => r_score p = Some 0%Q) out).
Proof.
  unfold retrieve.
  set (k := match top_k with
            | Some k => if k =? 0 then default_top_k cfg else k
            | None => default_top_k cfg
            end).
  destruct (vector_search env query k) as [vs | |] eqn:Hvs; cbn [bind];
    try discriminate.
  unfold _rerank_results.
  replace (if reranking_enabled cfg && (1 <? Z.of_nat (List.length vs))
           then vs else vs) with vs by (now destruct (_ && _)).
  assert (Hfetched : exists f,
            (if include_content
             then _fetch_chunk_content (batch_fetch env) vs
             else vs) = map f vs /\
            forall r, same_but_content r (f r)).
  { destruct include_content; [apply fetch_as_map |].
    exists (fun r => r). split; [now rewrite map_id |].
    apply same_but_content_refl. }
  destruct Hfetched as (f & -> & Hf).
  intros [= <-]. exists k, vs. split; [exact Hvs |].
  unfold _process_results. rewrite (map_map f process_one). split.
  - clear Hvs. induction vs as [| r vs IH]; cbn [map]; constructor; trivial.
    destruct (Hf r) as (Hi & Hd & Hc & _). cbn. now rewrite Hi, Hd, Hc.
  - intros Hraw. clear Hvs.
    induction Hraw as [| r vs [Hc Hv] _ IH]; cbn [map]; constructor; trivial.
    destruct (Hf r) as (_ & _ & _ & _ & Hfv & _ & Hfc & _).
    cbn. now rewrite Hfc, Hfv, Hc, Hv.
Qed.

Lemma plain_retrieve_scores_zero_witness :
  exists k vs,
    vector_search (stores_with [hit "d1" 0 (9 # 10); hit "d1" 1 (4 # 10)])
      "query" k = Done vs /\
    Forall2 (fun r p => r_id p = Some (field (r_id r)) /\
                        r_document_id p = Some (field (r_document_id r)) /\
                        r_chunk_index p = Some (field (r_chunk_index r)))
      vs [processed PNone (PStr "d1") (PInt 0) 0;
          processed PNone (PStr "d1") (PInt 1) 0] /\
    (Forall raw_candidate vs ->
     Forall (fun p => r_score p = Some 0%Q)
       [processed PNone (PStr "d1") (PInt 0) 0;
        processed PNone (PStr "d1") (PInt 1) 0]).
Proof.
  apply (plain_retrieve_scores_zero plain_settings
           (stores_with [hit "d1" 0 (9 # 10); hit "d1" 1 (4 # 10)])
           "query" None true).
  reflexivity.
Defined.

(** X9.  The two strategies of [_batch_fetch_chunks] agree: on a table
    with at most one row per document id and chunk index, whatever the
    number of pairs asked for, the chunk found for a pair is the one that
    [_fetch_single_chunk] finds when the pair was asked for, and none
    otherwise; a failing store gives no chunk at all. *)
Theorem batch_fetch_same_as_single (db : relational)
    (id_pairs : list (Z * Z)) (d c : Z) :
  distinct_table db ->
  pair_get d c (_batch_fetch_chunks db id_pairs)
  = if asked id_pairs d c then _fetch_single_chunk db d c else None.
Proof.
  intros Hdb. unfold _batch_fetch_chunks.
  destruct (Z.of_nat (List.length id_pairs) <=? 5).
  - rewrite single_loop. cbn [pair_get].
    now destruct (asked id_pairs d c); destruct (_fetch_single_chunk db d c).
  - destruct db as [rows |]; cbn [_fetch_single_chunk pair_get];
      [| now destruct (asked id_pairs d c)].
    rewrite batch_loop, filter_requested. cbn [pair_get].
    destruct (asked id_pairs d c); [| reflexivity].
    pose proof (distinct_one_match d c rows Hdb) as Hlen.
    destruct (filter (is_chunk d c) rows) as [| r [| r' l]]; cbn in *;
      [reflexivity | reflexivity | lia].
Qed.

Lemma batch_fetch_same_as_single_witness :
  pair_get 1 1
    (_batch_fetch_chunks (Some sample_rows)
       [(1, 0); (1, 1); (2, 0); (3, 0); (3, 1); (3, 2)])
  = Some (mkRow (Some "one") [("page", PInt 3)]).
Proof.
  apply (batch_fetch_same_as_single (Some sample_rows)
           [(1, 0); (1, 1); (2, 0); (3, 0); (3, 1); (3, 2)] 1 1).
  cbn. repeat split; repeat constructor.
Defined.

(** With two rows for one chunk the strategies differ: the single query
    takes the first row, the batch query keeps the last. *)
Lemma duplicate_rows_disagree :
  let db := Some [mkChunkRecord 1 0 (Some "old") [];
                  mkChunkRecord 1 0 (Some "new") []] in
  _fetch_single_chunk db 1 0 = Some (mkRow (Some "old") []) /\
  pair_get 1 0
    (_batch_fetch_chunks db [(1, 0); (1, 1); (1, 2); (1, 3); (1, 4); (1, 5)])
  = Some (mkRow (Some "new") []).
Proof. split; reflexivity. Qed.

End RetrieverMore.

(** ** More on dictionaries and scores *)

Module PyMore.
Import Py PyFacts.

Lemma remember_In acc k x : In x (remember acc k) <-> In x acc \/ x = k.
Proof.
  unfold remember. destruct (existsb (String.eqb k) acc) eqn:E.
  - split; [now left |]. intros [H | ->]; [exact H |].
    apply existsb_exists in E. destruct E as (y & Hy & Heq).
    apply String.eqb_eq in Heq. now subst.
  - rewrite in_app_iff. cbn. intuition.
Qed.

Lemma fold_remember_In ks : forall acc x,
  In x (fold_left remember ks acc) <-> In x acc \/ In x ks.
Proof.
  induction ks as [| k ks IH]; intros acc x; cbn [fold_left].
  - cbn. intuition.
  - rewrite IH, remember_In. cbn. intuition.
Qed.

Lemma fromkeys_In ks x : In x (fromkeys ks) <-> In x ks.
Proof. unfold fromkeys. rewrite fold_remember_In. cbn. intuition. Qed.

Lemma NoDup_firstn {A : Type} (n : nat) (l : list A) :
  NoDup l -> NoDup (firstn n l).
Proof.
  intros H. rewrite <- (firstn_skipn n l) in H.
  exact (NoDup_app_remove_r _ _ H).
Qed.

Lemma In_firstn {A : Type} (n : nat) (l : list A) x :
  In x (firstn n l) -> In x l.
Proof.
  intros H. rewrite <- (firstn_skipn n l). apply in_or_app. now left.
Qed.

Lemma py_min_bounds a b : (py_min a b <= a /\ py_min a b <= b)%Q.
Proof.
  unfold py_min. destruct (Qlt_bool b a) eqn:E.
  - apply Qlt_bool_iff in E. split; [now apply Qlt_le_weak | apply Qle_refl].
  - apply Qlt_bool_false in E. split; [apply Qle_refl | exact E].
Qed.

Lemma py_min_lb a b c : (c <= a -> c <= b -> c <= py_min a b)%Q.
Proof. unfold py_min. now destruct (Qlt_bool b a). Qed.

Lemma py_max_lub a b c : (a <= c -> b <= c -> py_max a b <= c)%Q.
Proof. unfold py_max. now destruct (Qlt_bool a b). Qed.

End PyMore.

(** ** The reflection engine: follow-up queries, analysis, outcome *)

Module ReflectionMore.
Import Py Retriever Reflection ReflectionSpec PyFacts PyMore ReflectionFacts.

Local Open Scope Q_scope.

(** *** Follow-up queries *)

Lemma take_NoDup {A : Type} (n : Z) (l : list A) : NoDup l -> NoDup (take n l).
Proof. unfold take. destruct (n <? 0)%Z; apply NoDup_firstn. Qed.

Lemma take_In {A : Type} (n : Z) (l : list A) x : In x (take n l) -> In x l.
Proof. unfold take. destruct (n <? 0)%Z; apply In_firstn. Qed.

Lemma take_length {A : Type} (n : Z) (l : list A) :
  (0 <= n)%Z -> (Z.of_nat (List.length (take n l)) <= n)%Z.
Proof.
  intros Hn. unfold take.
  destruct (Z.ltb_spec n 0) as [Hlt | _]; [lia |].
  pose proof (firstn_le_length (Z.to_nat n) l). lia.
Qed.

Lemma targeted_queries q gaps fq :
  In fq (flat_map (fun gap =>
           if (PyStr.len gap <=? 3)%Z then []
           else [(q ++ " regarding " ++ gap)%string]) gaps) ->
  exists gap, In gap gaps /\ (3 < PyStr.len gap)%Z /\ fq = targeted q gap.
Proof.
  intros H. apply in_flat_map in H. destruct H as (gap & Hgap & Hin).
  destruct (Z.leb_spec (PyStr.len gap) 3) as [_ | Hlt]; [contradiction |].
  destruct Hin as [<- | []]. now exists gap.
Qed.

Lemma no_targeted_queries q gaps :
  flat_map (fun gap =>
    if (PyStr.len gap <=? 3)%Z then []
    else [(q ++ " regarding " ++ gap)%string]) gaps = [] ->
  Forall (fun gap => (PyStr.len gap <= 3)%Z) gaps.
Proof.
  induction gaps as [| gap gaps IH]; cbn [flat_map]; [constructor |].
  destruct (Z.leb_spec (PyStr.len gap) 3) as [Hle | _]; [| discriminate].
  cbn [app]. intros H. constructor; auto.
Qed.

Lemma fromkeys_nonempty ks : ks <> [] -> fromkeys ks <> [].
Proof.
  destruct ks as [| k ks]; [congruence |]. intros _ Hnil.
  assert (H : In k (fromkeys (k :: ks))) by (apply fromkeys_In; now left).
  now rewrite Hnil in H.
Qed.

(** *** Key terms *)

Lemma lower_char_idem c : lower_char (lower_char c) = lower_char c.
Proof.
  destruct c as [b0 b1 b2 b3 b4 b5 b6 b7].
  destruct b0, b1, b2, b3, b4, b5, b6, b7; reflexivity.
Qed.

Lemma word_runs_chars (P : ascii -> Prop) l : forall current,
  Forall P l ->
  Forall (fun c => is_word_char c = true /\ P c) current ->
  Forall (Forall (fun c => is_word_char c = true /\ P c))
    (word_runs l current).
Proof.
  induction l as [| c l IH]; intros current Hl Hc; cbn [word_runs].
  - destruct current; constructor; [exact Hc | constructor].
  - inversion Hl as [| ? ? HPc Hl']; subst.
    destruct (is_word_char c) eqn:E.
    + apply IH; trivial. apply Forall_app. split; trivial.
      repeat constructor; trivial.
    + destruct current; [now apply IH |].
      constructor; trivial. apply IH; trivial.
Qed.

Lemma lower_chars s :
  Forall (fun c => lower_char c = c) (list_ascii_of_string (lower s)).
Proof.
  unfold lower. rewrite list_ascii_of_string_of_list_ascii.
  apply Forall_forall. intros c Hc. apply in_map_iff in Hc.
  destruct Hc as (c0 & <- & _). apply lower_char_idem.
Qed.

Lemma lower_idem s : lower (lower s) = lower s.
Proof.
  unfold lower. rewrite list_ascii_of_string_of_list_ascii, map_map.
  f_equal. apply map_ext. apply lower_char_idem.
Qed.

(** X10.  For a limit [max_gap_queries] that is not negative,
    [_generate_follow_up_queries] returns distinct queries, at most
    [max_gap_queries] of them and at least one when the limit is positive;
    each is the query "<original> regarding <gap>" of a gap of more than
    three characters or, when no gap is that long, one of the three
    general queries.  The truncation that [reflect] applies afterwards
    changes nothing, so the queries reported are the ones executed. *)
Theorem follow_up_queries_are_few_and_distinct (cfg : reflection_config)
    (original_query : string) (gaps : list string) :
  (0 <= max_gap_queries cfg)%Z ->
  let out := _generate_follow_up_queries cfg original_query gaps in
  NoDup out /\
  (Z.of_nat (List.length out) <= max_gap_queries cfg)%Z /\
  ((1 <= max_gap_queries cfg)%Z -> out <> []) /\
  Forall (follow_up_for original_query gaps) out /\
  executed_follow_ups cfg original_query gaps = out.
Proof.
  intros Hmax. cbv zeta.
  assert (Hlen : (Z.of_nat (List.length
                    (_generate_follow_up_queries cfg original_query gaps))
                  <= max_gap_queries cfg)%Z)
    by (now apply take_length).
  unfold executed_follow_ups.
  destruct (Z.ltb_spec (max_gap_queries cfg)
              (Z.of_nat (List.length
                 (_generate_follow_up_queries cfg original_query gaps))))
    as [Hlt | _]; [lia |].
  split; [apply take_NoDup, fromkeys_NoDup |].
  split; [exact Hlen |].
  unfold _generate_follow_up_queries.
  remember (flat_map _ gaps) as specific eqn:Es.
  set (chosen := match specific with [] => _ | _ :: _ => specific end).
  assert (Hne : chosen <> [])
    by (subst chosen; destruct specific; discriminate).
  split; [| split; [| reflexivity]].
  - intros Hpos Hnil. apply fromkeys_nonempty in Hne.
    unfold take in Hnil.
    destruct (Z.ltb_spec (max_gap_queries cfg) 0) as [? | _]; [lia |].
    destruct (fromkeys chosen) as [| x l]; [congruence |].
    destruct (Z.to_nat (max_gap_queries cfg)) eqn:E; [lia | discriminate].
  - apply Forall_forall. intros fq Hfq.
    apply take_In in Hfq. apply (proj1 (fromkeys_In _ _)) in Hfq.
    subst chosen.
    destruct specific as [| s l].
    + right. split; [| exact Hfq].
      symmetry in Es. exact (no_targeted_queries original_query gaps Es).
    + left. apply targeted_queries. now rewrite <- Es.
Qed.

Lemma follow_up_queries_are_few_and_distinct_witness :
  _generate_follow_up_queries default_reflection_config "solar power"
    ["solar power"; "sun"; "solar power"; "grid storage"; "panel"; "roof"]
  = ["solar power regarding solar power";
     "solar power regarding grid storage";
     "solar power regarding panel"] /\
  executed_follow_ups default_reflection_config "solar power"
    ["solar power"; "sun"; "solar power"; "grid storage"; "panel"; "roof"]
  = _generate_follow_up_queries default_reflection_config "solar power"
      ["solar power"; "sun"; "solar power"; "grid storage"; "panel"; "roof"].
Proof.
  split; [reflexivity |].
  apply (follow_up_queries_are_few_and_distinct default_reflection_config
           "solar power"
           ["solar power"; "sun"; "solar power"; "grid storage"; "panel";
            "roof"]).
  cbn. lia.
Defined.

(** X11.  Every key term that [_extract_key_terms] returns is a run of
    word characters in lower case, longer than two characters, that is no
    stop word; and the extraction does not depend on the case of the
    text. *)
Theorem key_terms_are_lowercase_words (text : string) :
  Forall key_term (_extract_key_terms text) /\
  _extract_key_terms (lower text) = _extract_key_terms text.
Proof.
  split.
  - unfold _extract_key_terms. apply Forall_forall. intros t Ht.
    apply filter_In in Ht. destruct Ht as [Ht Hp].
    apply andb_true_iff in Hp. destruct Hp as [Hstop Hlen].
    apply negb_true_iff in Hstop. apply Z.ltb_lt in Hlen.
    split; [exact Hlen |]. split; [exact Hstop |].
    unfold findall_words in Ht. apply in_map_iff in Ht.
    destruct Ht as (run & <- & Hrun).
    rewrite list_ascii_of_string_of_list_ascii.
    pose proof (word_runs_chars (fun c => lower_char c = c)
                  (list_ascii_of_string (lower text)) []
                  (lower_chars text) (Forall_nil _)) as Hall.
    rewrite Forall_forall in Hall. exact (Hall _ Hrun).
  - unfold _extract_key_terms. now rewrite lower_idem.
Qed.

(** *** The analysis *)

Lemma length_Q_cons {A : Type} (x : A) (l : list A) :
  length_Q (x :: l) == length_Q l + 1.
Proof.
  unfold length_Q. cbn [List.length]. rewrite Nat2Z.inj_succ.
  unfold Z.succ. rewrite inject_Z_plus. reflexivity.
Qed.

Lemma length_Q_nonneg {A : Type} (l : list A) : 0 <= length_Q l.
Proof. apply (length_Q_ge l 0). lia. Qed.

Lemma length_Q_pos {A : Type} (x : A) (l : list A) : 0 < length_Q (x :: l).
Proof.
  rewrite length_Q_cons. pose proof (length_Q_nonneg l). lra.
Qed.

Lemma sum_bounds rs :
  Forall (fun r => in_unit (score_of r)) rs ->
  forall a,
    a <= fold_left (fun acc r => acc + number (r_score r)) rs a
    /\ fold_left (fun acc r => acc + number (r_score r)) rs a
       <= a + length_Q rs.
Proof.
  induction 1 as [| r rs [Hr0 Hr1] _ IH]; intros a; cbn [fold_left].
  - unfold length_Q. cbn [List.length Z.of_nat]. change (inject_Z 0) with 0.
    split; lra.
  - destruct (IH (a + number (r_score r))) as [IH0 IH1].
    rewrite length_Q_cons. unfold score_of in *. split; lra.
Qed.

Lemma mean_in_unit r rs :
  Forall (fun r => in_unit (score_of r)) (r :: rs) ->
  in_unit (mean_score (r :: rs)).
Proof.
  intros H. pose proof (sum_bounds _ H 0) as [H0 H1].
  pose proof (length_Q_pos r rs) as Hpos.
  unfold mean_score, sum_scores, in_unit. split.
  - apply Qle_shift_div_l; [exact Hpos | lra].
  - apply Qle_shift_div_r; [exact Hpos | lra].
Qed.

Lemma filter_length_Q {A : Type} (p : A -> bool) (l : list A) :
  length_Q (filter p l) <= length_Q l.
Proof.
  unfold length_Q. rewrite <- Zle_Qle.
  pose proof (filter_length_le p l). lia.
Qed.

Lemma term_overlap_in_unit q rs : in_unit (term_overlap q rs).
Proof.
  unfold term_overlap, in_unit. cbv zeta.
  destruct (fromkeys (_extract_key_terms q)) as [| t ts]; [split; lra |].
  pose proof (length_Q_pos t ts) as Hpos.
  pose proof (filter_length_Q
    (fun t0 => mem t0 (flat_map (fun r => _extract_key_terms (content_of r)) rs))
    (t :: ts)) as Hle.
  pose proof (length_Q_nonneg (filter
    (fun t0 => mem t0 (flat_map (fun r => _extract_key_terms (content_of r)) rs))
    (t :: ts))) as Hge.
  split.
  - apply Qle_shift_div_l; [exact Hpos | lra].
  - apply Qle_shift_div_r; [exact Hpos | lra].
Qed.

(** X12.  The two scores of the analysis stay between 0 and 1: the
    coverage always, the relevance whenever the scores of the results
    do. *)
Theorem analysis_scores_in_unit (q : string) (rs : list result) :
  (Forall (fun r => in_unit (score_of r)) rs -> in_unit (relevance_of rs)) /\
  in_unit (coverage_of q rs).
Proof.
  split.
  - intros H. unfold relevance_of.
    destruct rs as [| r rs]; [split; lra |]. cbv zeta.
    destruct (mean_in_unit r rs H) as [Hm0 Hm1].
    pose proof (length_Q_pos r rs) as Hpos.
    destruct (py_min_bounds (length_Q (r :: rs) / 5) 1) as [_ Hc1].
    assert (Hc0 : 0 <= py_min (length_Q (r :: rs) / 5) 1).
    { apply py_min_lb; [| lra].
      apply Qle_shift_div_l; [reflexivity | lra]. }
    split; lra.
  - unfold coverage_of.
    destruct rs as [| r rs]; [split; lra |]. cbv zeta.
    destruct (term_overlap_in_unit q (r :: rs)) as [Ho0 Ho1].
    destruct (py_max_ub (term_overlap q (r :: rs))
                (py_min (length_Q (r :: rs) / 10) (7 # 10))) as [Hl _].
    destruct (py_min_bounds (length_Q (r :: rs) / 10) (7 # 10)) as [_ Hc].
    split; [lra |].
    apply py_max_lub; lra.
Qed.

Lemma analysis_scores_in_unit_witness :
  in_unit (relevance_of [hit "d1" 0 (9 # 10); hit "d1" 1 (2 # 10)]).
Proof.
  refine (proj1 (analysis_scores_in_unit "query"
                   [hit "d1" 0 (9 # 10); hit "d1" 1 (2 # 10)]) _).
  repeat constructor; cbn; discriminate.
Defined.

(** *** The keys of the merged chunks *)

Lemma existsb_keys {V : Type} k (d : dict V) v :
  dict_get k d = Some v -> existsb (String.eqb k) (keys d) = true.
Proof.
  intros H. apply dict_get_in in H. apply existsb_exists.
  exists k. split; [| apply String.eqb_refl].
  apply (in_map fst) in H. exact H.
Qed.

Lemma keys_add_initial q d r :
  keys (add_initial q d r) = remember (keys d) (key_of r).
Proof.
  unfold add_initial.
  destruct (dict_get (key_of r) d) as [e |] eqn:E; [| apply keys_set].
  unfold remember. now rewrite (existsb_keys _ _ _ E).
Qed.

Lemma keys_add_reflection i fq d r :
  keys (add_reflection i fq d r) = remember (keys d) (key_of r).
Proof.
  unfold add_reflection.
  destruct (dict_get (key_of r) d); apply keys_set.
Qed.

Lemma keys_fold (step : dict entry -> result -> dict entry) :
  (forall d r, keys (step d r) = remember (keys d) (key_of r)) ->
  forall rs d k,
    In k (keys (fold_left step rs d))
    <-> In k (keys d) \/ In k (map key_of rs).
Proof.
  intros Hstep rs. induction rs as [| r rs IH]; intros d k; cbn [fold_left map].
  - cbn. intuition.
  - rewrite IH, Hstep, remember_In. cbn. intuition.
Qed.

Lemma keys_add_reflections rr : forall rqs i d k,
  In k (keys (add_reflections i rr rqs d))
  <-> In k (keys d)
      \/ In k (map key_of (List.concat (firstn (List.length rqs) rr))).
Proof.
  induction rr as [| rs rr IH]; intros [| fq rqs] i d k;
    cbn [add_reflections List.length firstn List.concat map];
    try (cbn; intuition; fail).
  rewrite IH, (keys_fold _ (keys_add_reflection i fq)), map_app, in_app_iff.
  intuition.
Qed.

Lemma keys_all_results q init rr rqs k :
  In k (keys (all_results_of q init rr rqs))
  <-> In k (map key_of (merged_inputs init rr rqs)).
Proof.
  unfold all_results_of, merged_inputs.
  rewrite keys_add_reflections, (keys_fold _ (keys_add_initial q)).
  rewrite map_app, in_app_iff. cbn. intuition.
Qed.

Lemma merged_keys q init rr rqs :
  Permutation (keys (all_results_of q init rr rqs))
    (map key_of (_merge_and_rank_results q init rr rqs)).
Proof.
  rewrite merge_and_rank_unfold, map_map.
  replace (keys (all_results_of q init rr rqs))
    with (map (fun e => key_of (rescored e))
            (values (all_results_of q init rr rqs))).
  - apply Permutation_map, sort_desc_perm.
  - destruct (well_keyed_all q init rr rqs) as [_ Hk].
    unfold values, keys. rewrite map_map.
    induction Hk as [| [k e] d Hke _ IH]; [reflexivity |].
    cbn [map fst snd] in *. rewrite IH. f_equal. exact Hke.
Qed.

(** X13.  [_merge_and_rank_results] returns every chunk once: no two of
    the returned results have the same document id and chunk index, and
    the chunks returned are exactly those of the initial results and of
    the follow-up result sets that have a query. *)
Theorem merged_chunks_are_distinct (original_query : string)
    (initial_results : list result)
    (reflection_results : list (list result))
    (reflection_queries : list string) :
  let out :=
    _merge_and_rank_results original_query initial_results
      reflection_results reflection_queries in
  NoDup (map key_of out) /\
  forall k,
    In k (map key_of out)
    <-> In k (map key_of (merged_inputs initial_results reflection_results
                            reflection_queries)).
Proof.
  cbv zeta.
  pose proof (merged_keys original_query initial_results reflection_results
                reflection_queries) as Hperm.
  split.
  - apply (Permutation_NoDup Hperm).
    exact (proj1 (well_keyed_all original_query initial_results
                    reflection_results reflection_queries)).
  - intros k. rewrite <- keys_all_results with (q := original_query).
    split; apply Permutation_in;
      [apply Permutation_sym |]; exact Hperm.
Qed.

(** *** The outcome of [reflect] *)

Lemma run_follow_ups_done (retriever : string -> run (list result)) queries :
  Forall (fun fq => exists rs, retriever fq = Done rs) queries ->
  exists rr, run_follow_ups retriever queries = Done rr /\
             Forall2 (fun fq rs => retriever fq = Done rs) queries rr.
Proof.
  induction 1 as [| fq queries [rs Hrs] _ (rr & Hrr & Hall)];
    cbn [run_follow_ups].
  - exists []. split; [reflexivity | constructor].
  - exists (rs :: rr). rewrite Hrs, Hrr. cbn [bind].
    split; [reflexivity | now constructor].
Qed.

Lemma run_follow_ups_length (retriever : string -> run (list result)) :
  forall queries rr,
    run_follow_ups retriever queries = Done rr ->
    List.length rr = List.length queries.
Proof.
  induction queries as [| fq queries IH]; intros rr; cbn [run_follow_ups].
  - now intros [= <-].
  - destruct (retriever fq) as [rs | |]; cbn [bind]; try discriminate.
    destruct (run_follow_ups retriever queries) as [rr' | |]; cbn [bind];
      try discriminate.
    intros [= <-]. cbn. f_equal. now apply IH.
Qed.

(** X14.  Whatever [reflect] returns, it returns the query and the
    initial results as given and reports sufficient information exactly
    when there is an initial result, whatever the scores; no chunk of the
    initial results is missing from the ranked chunks; without reflection
    the ranked chunks are the initial results; with reflection the scores
    were below a threshold, there is one result set per executed query,
    and no chunk is ranked twice. *)
Theorem reflect_outcome (cfg : reflection_config)
    (topics : string -> list string)
    (retriever : string -> run (list result))
    (q : string) (initial_results : list result) (res : RetrievalResult) :
  reflect cfg topics retriever q initial_results = Done res ->
  query res = q /\
  results res = initial_results /\
  (has_sufficient_info res = true <-> initial_results <> []) /\
  (forall r, In r initial_results ->
             In (key_of r) (map key_of (ranked_chunks res))) /\
  (has_reflected res = false ->
   ranked_chunks res = initial_results /\ reflection_results res = []) /\
  (has_reflected res = true ->
   enabled cfg = true /\
   insufficient cfg (relevance_score res) (coverage_score res) = true /\
   List.length (reflection_results res)
   = List.length (executed_follow_ups cfg q (knowledge_gaps res)) /\
   NoDup (map key_of (ranked_chunks res))).
Proof.
  unfold reflect.
  destruct (enabled cfg) eqn:Hen; cbn [negb orb].
  - destruct initial_results as [| r0 rs].
    + intros [= <-].
      cbn [query results has_sufficient_info ranked_chunks has_reflected
           reflection_results relevance_score coverage_score knowledge_gaps].
      split; [reflexivity |]. split; [reflexivity |].
      split; [split; [discriminate | congruence] |].
      split; [intros r [] |].
      split; [intros _; now split | discriminate].
    + unfold _analyze_results. cbv beta iota zeta.
      rewrite insufficient_not_sufficient.
      destruct (insufficient cfg _ _) eqn:Hins; cbn [negb].
      * destruct (run_follow_ups retriever _) as [rr | |] eqn:Hrun;
          cbn [bind]; try discriminate.
        intros [= <-].
        cbn [query results has_sufficient_info ranked_chunks has_reflected
             reflection_results relevance_score coverage_score
             knowledge_gaps].
        pose proof (merged_keys q (r0 :: rs) rr
                      (executed_follow_ups cfg q (topics q))) as Hperm.
        split; [reflexivity |]. split; [reflexivity |].
        split; [split; [discriminate | reflexivity] |].
        split.
        { intros r Hr. apply (Permutation_in _ Hperm).
          apply keys_all_results. unfold merged_inputs.
          rewrite map_app. apply in_or_app. left. now apply in_map. }
        split; [discriminate |].
        intros _. split; [reflexivity |]. split; [exact Hins |].
        split; [exact (run_follow_ups_length _ _ _ Hrun) |].
        apply (Permutation_NoDup Hperm).
        exact (proj1 (well_keyed_all q (r0 :: rs) rr
                        (executed_follow_ups cfg q (topics q)))).
      * intros [= <-].
        cbn [query results has_sufficient_info ranked_chunks has_reflected
             reflection_results relevance_score coverage_score
             knowledge_gaps].
        split; [reflexivity |]. split; [reflexivity |].
        split; [split; [discriminate | reflexivity] |].
        split; [intros r Hr; now apply in_map |].
        split; [intros _; now split | discriminate].
  - intros [= <-].
    cbn [query results has_sufficient_info ranked_chunks has_reflected
         reflection_results relevance_score coverage_score knowledge_gaps].
    split; [reflexivity |]. split; [reflexivity |].
    split; [destruct initial_results; split; congruence |].
    split; [intros r Hr; now apply in_map |].
    split; [intros _; now split | discriminate].
Qed.

Lemma reflect_outcome_witness :
  exists res,
    reflect default_reflection_config no_topics empty_retriever
      "capital France" five_good_results = Done res /\
    has_sufficient_info res = true /\
    List.length (reflection_results res) = 3%nat.
Proof.
  eexists. split; [vm_compute; reflexivity |].
  split.
  - apply (reflect_outcome default_reflection_config no_topics
             empty_retriever "capital France" five_good_results).
    + vm_compute. reflexivity.
    + discriminate.
  - reflexivity.
Defined.

(** X15.  [reflect] completes whenever the retrieval of every follow-up
    query does, for a limit [max_gap_queries] that is not negative; when
    it has reflected, the queries it reports are those generated, and the
    result sets it reports are the answers of the retriever to these
    queries, one for each and in their order. *)
Theorem reflect_completes_when_retrieval_does (cfg : reflection_config)
    (topics : string -> list string)
    (retriever : string -> run (list result))
    (q : string) (initial_results : list result) :
  (0 <= max_gap_queries cfg)%Z ->
  Forall (fun fq => exists rs, retriever fq = Done rs)
    (_generate_follow_up_queries cfg q (topics q)) ->
  exists res,
    reflect cfg topics retriever q initial_results = Done res /\
    (has_reflected res = true ->
     reflection_queries res = _generate_follow_up_queries cfg q (topics q) /\
     Forall2 (fun fq rs => retriever fq = Done rs)
       (reflection_queries res) (reflection_results res)).
Proof.
  intros Hmax Hall. unfold reflect.
  destruct (negb (enabled cfg)
            || match initial_results with [] => true | _ :: _ => false end).
  - eexists. split; [reflexivity |]. discriminate.
  - unfold _analyze_results. cbv beta iota zeta.
    rewrite insufficient_not_sufficient.
    destruct (insufficient cfg _ _); cbn [negb].
    + assert (Hexec : executed_follow_ups cfg q (topics q)
                      = _generate_follow_up_queries cfg q (topics q)).
      { unfold executed_follow_ups.
        pose proof (take_length (max_gap_queries cfg)
                      (fromkeys
                         match flat_map (fun gap =>
                                  if (PyStr.len gap <=? 3)%Z then []
                                  else [(q ++ " regarding " ++ gap)%string])
                                 (topics q) with
                         | [] => general_follow_ups q
                         | _ :: _ =>
                             flat_map (fun gap =>
                               if (PyStr.len gap <=? 3)%Z then []
                               else [(q ++ " regarding " ++ gap)%string])
                               (topics q)
                         end) Hmax) as Hlen.
        fold (_generate_follow_up_queries cfg q (topics q)) in Hlen.
        destruct (Z.ltb_spec (max_gap_queries cfg)
                    (Z.of_nat (List.length
                       (_generate_follow_up_queries cfg q (topics q)))))
          as [Hlt | _]; [| reflexivity].
        unfold _generate_follow_up_queries, general_follow_ups in *. lia. }
      rewrite Hexec.
      destruct (run_follow_ups_done retriever _ Hall) as (rr & Hrr & H2).
      rewrite Hrr. cbn [bind]. eexists. split; [reflexivity |].
      intros _. cbn [reflection_queries reflection_results].
      split; [reflexivity | exact H2].
    + eexists. split; [reflexivity |]. discriminate.
Qed.

Lemma reflect_completes_when_retrieval_does_witness :
  exists res,
    reflect default_reflection_config no_topics empty_retriever
      "capital France" five_good_results = Done res /\
    (has_reflected res = true ->
     reflection_queries res
     = _generate_follow_up_queries default_reflection_config
         "capital France" (no_topics "capital France") /\
     Forall2 (fun fq rs => empty_retriever fq = Done rs)
       (reflection_queries res) (reflection_results res)).
Proof.
  apply (reflect_completes_when_retrieval_does default_reflection_config
           no_topics empty_retriever "capital France" five_good_results).
  - cbn. lia.
  - apply Forall_forall. intros fq _. now exists [].
Defined.

End ReflectionMore.

(** ** The memory manager: forgetting, promoting, reading *)

Module MemoryMore.
Import Py Memory MemoryOps PyFacts MemoryFacts.

(** *** Helpers *)

Lemma prune_is_filter cfg tier owner db :
  exists keep, _prune_memory cfg tier owner db = filter keep db.
Proof.
  unfold _prune_memory.
  assert (Hall : exists keep, db = filter keep db).
  { exists (fun _ => true). symmetry. now apply filter_all. }
  destruct (max_items_of cfg tier) as [max_items |]; [| exact Hall].
  destruct (max_items <=? 0); [exact Hall |].
  destruct (_ >? _); [| exact Hall].
  eexists. reflexivity.
Qed.

Lemma prune_keeps (P : memory_item -> Prop) cfg tier owner db :
  Forall P db -> Forall P (_prune_memory cfg tier owner db).
Proof.
  intros H. destruct (prune_is_filter cfg tier owner db) as [keep ->].
  rewrite Forall_forall in *. intros r Hr. apply filter_In in Hr.
  apply H. tauto.
Qed.

Lemma prune_incl cfg tier owner db r :
  In r (_prune_memory cfg tier owner db) -> In r db.
Proof.
  destruct (prune_is_filter cfg tier owner db) as [keep ->].
  intros Hr. apply filter_In in Hr. tauto.
Qed.

Lemma filter_keeps {A : Type} (P : A -> Prop) (p : A -> bool) l :
  Forall P l -> Forall P (filter p l).
Proof.
  rewrite !Forall_forall. intros H x Hx. apply filter_In in Hx.
  apply H. tauto.
Qed.

Lemma length_filter_split {A : Type} (p : A -> bool) l :
  List.length l
  = (List.length (filter p l)
     + List.length (filter (fun x => negb (p x)) l))%nat.
Proof.
  induction l as [| x l IH]; [reflexivity |].
  cbn [filter List.length]. destruct (p x); cbn [negb List.length]; lia.
Qed.

Lemma only_row (db : table) memory :
  NoDup (map id db) -> In memory db ->
  filter (fun r => id r =? id memory) db = [memory].
Proof.
  induction db as [| x db IH]; cbn [map filter]; intros Hnd Hin;
    [contradiction |].
  inversion Hnd as [| ? ? Hnotin Hnd']; subst.
  destruct Hin as [-> | Hin].
  - rewrite Z.eqb_refl. f_equal. apply filter_none.
    intros y Hy. apply Z.eqb_neq. intros Heq. apply Hnotin.
    rewrite <- Heq. now apply in_map.
  - destruct (Z.eqb_spec (id x) (id memory)) as [Heq | _]; [| now apply IH].
    exfalso. apply Hnotin. rewrite Heq. now apply in_map.
Qed.

Lemma no_row (db : table) i :
  ~ In i (map id db) -> filter (fun r => id r =? i) db = [].
Proof.
  intros Hn. apply filter_none. intros r Hr. apply Z.eqb_neq.
  intros <-. apply Hn. now apply in_map.
Qed.

(** *** Reading *)

Lemma update_touched now ids db :
  Forall2 (touched now ids) db (_update_access_count now ids db).
Proof.
  unfold _update_access_count.
  induction db as [| r db IH]; cbn [map]; constructor; trivial.
  unfold touched, id_in. destruct (existsb (Z.eqb (id r)) ids); cbn;
    repeat split; reflexivity.
Qed.

Lemma update_nothing now db : _update_access_count now [] db = db.
Proof. unfold _update_access_count. apply map_id. Qed.

Lemma view_shows inc rel r : shows (view inc rel r) r.
Proof. now repeat split. Qed.

Lemma firstn_incl {A : Type} n (l : list A) : incl (firstn n l) l.
Proof.
  intros x Hx. rewrite <- (firstn_skipn n l). apply in_or_app. now left.
Qed.

Lemma sort_by_incl {A : Type} (leb : A -> A -> bool) l :
  incl (sort_by leb l) l.
Proof.
  intros x Hx. apply (Permutation_in _ (Permutation_sym (sort_by_perm leb l))).
  exact Hx.
Qed.

Lemma firstn_length_Z {A : Type} (limit : Z) (l : list A) :
  Z.of_nat (List.length (firstn (Z.to_nat limit) l)) <= Z.max 0 limit.
Proof. pose proof (firstn_le_length (Z.to_nat limit) l). lia. Qed.

Section Reader.

Variables (now : Z) (parse_uuid : string -> option string)
  (similarity : string -> string -> Q)
  (trigram_match : string -> string -> bool).

(** Both readers answer with views of some rows that pass the conditions,
    at most [limit] of them, and count the access on these rows. *)
Lemma reader_shape q tier owner conv limit min_importance recency_weight
    include_content db :
  exists rows,
    incl rows
      (filter (where_clause now
                 (conditions parse_uuid tier owner conv min_importance)) db) /\
    Z.of_nat (List.length rows) <= Z.max 0 limit /\
    Forall2 shows
      (fst (get_memory now parse_uuid similarity trigram_match q tier owner
              conv limit min_importance recency_weight include_content db))
      rows /\
    snd (get_memory now parse_uuid similarity trigram_match q tier owner
           conv limit min_importance recency_weight include_content db)
    = _update_access_count now (map id rows) db.
Proof.
  set (cs := conditions parse_uuid tier owner conv min_importance).
  assert (Hnone : exists rows : table,
            incl rows (filter (where_clause now cs) db) /\
            Z.of_nat (List.length rows) <= Z.max 0 limit /\
            Forall2 shows [] rows /\
            db = _update_access_count now (map id rows) db).
  { exists []. split; [intros x [] |]. split; [cbn; lia |].
    split; [constructor | now rewrite update_nothing]. }
  assert (Hrecent : exists rows,
            incl rows (filter (where_clause now cs) db) /\
            Z.of_nat (List.length rows) <= Z.max 0 limit /\
            Forall2 shows
              (fst (_get_recent_memory now parse_uuid tier owner conv limit
                      min_importance include_content db)) rows /\
            snd (_get_recent_memory now parse_uuid tier owner conv limit
                   min_importance include_content db)
            = _update_access_count now (map id rows) db).
  { unfold _get_recent_memory. fold cs.
    destruct (limit <? 0); [exact Hnone |].
    eexists. split; [| split; [| split; [| reflexivity]]].
    - intros x Hx. apply firstn_incl, sort_by_incl in Hx. exact Hx.
    - apply firstn_length_Z.
    - cbn [fst]. induction (firstn _ _) as [| r rows IH]; cbn [map];
        constructor; trivial. apply view_shows. }
  assert (Hsemantic : forall text, exists rows,
            incl rows (filter (where_clause now cs) db) /\
            Z.of_nat (List.length rows) <= Z.max 0 limit /\
            Forall2 shows
              (fst (_semantic_memory_search now parse_uuid similarity
                      trigram_match text tier owner conv limit min_importance
                      recency_weight include_content db)) rows /\
            snd (_semantic_memory_search now parse_uuid similarity
                   trigram_match text tier owner conv limit min_importance
                   recency_weight include_content db)
            = _update_access_count now (map id rows) db).
  { intros text. unfold _semantic_memory_search. fold cs.
    destruct (_ || _); [exact Hnone |].
    eexists. split; [| split; [| split; [| reflexivity]]].
    - intros x Hx. apply firstn_incl, sort_by_incl in Hx.
      apply filter_In in Hx. destruct Hx as [Hx Hc].
      apply andb_true_iff in Hc. apply filter_In. tauto.
    - apply firstn_length_Z.
    - cbn [fst]. induction (firstn _ _) as [| r rows IH]; cbn [map];
        constructor; trivial. apply view_shows. }
  unfold get_memory.
  destruct q as [text |]; [| exact Hrecent].
  destruct (_ && _); [apply Hsemantic | exact Hrecent].
Qed.

Lemma conditions_pass tier owner conv min_importance r :
  where_clause now (conditions parse_uuid tier owner conv min_importance) r
  = true ->
  live now r /\ passes owner tier min_importance r.
Proof.
  unfold where_clause, conditions. rewrite !forallb_app.
  rewrite !andb_true_iff. intros (Ht & Ho & _ & Hi & Hl).
  split; [| split; [| split]].
  - cbn in Hl. unfold live. destruct (expires_at r); [| exact I].
    rewrite andb_true_r in Hl. now apply Z.ltb_lt.
  - intros Hid. destruct owner as [u |]; [| discriminate].
    rewrite Hid in Ho. cbn in Ho. rewrite andb_true_r in Ho.
    unfold column_is in Ho. destruct (user_id r) as [z |]; [| discriminate].
    apply Z.eqb_eq in Ho. now subst.
  - intros Hty. destruct tier as [t |]; [| discriminate].
    rewrite Hty in Ht. cbn in Ht. rewrite andb_true_r in Ht.
    apply String.eqb_eq in Ht. now subst.
  - intros Hpos. apply Qlt_bool_iff in Hpos. rewrite Hpos in Hi.
    cbn in Hi. rewrite andb_true_r in Hi. now apply Qle_bool_iff.
Qed.

End Reader.

(** X16.  [get_memory] returns at most [limit] items (none for a
    negative limit); every item returned shows a row of the table that
    has not expired, that belongs to the user and to the tier asked for
    when these are given, and whose importance is at least the minimum
    asked for; the access count shown is the one before this read.  The
    read then counts one access and stamps the time on exactly the rows
    it returned and leaves every other row as it was. *)
Theorem get_memory_returns_live_items (now : Z)
    (parse_uuid : string -> option string)
    (similarity : string -> string -> Q)
    (trigram_match : string -> string -> bool)
    (q tier conversation_id : option string) (owner : option Z) (limit : Z)
    (min_importance recency_weight : Q) (include_content : bool)
    (db : table) :
  let answer :=
    get_memory now parse_uuid similarity trigram_match q tier owner
      conversation_id limit min_importance recency_weight include_content
      db in
  Z.of_nat (List.length (fst answer)) <= Z.max 0 limit /\
  Forall (fun v => exists r,
            In r db /\ shows v r /\ live now r /\
            passes owner tier min_importance r) (fst answer) /\
  Forall2 (touched now (map v_id (fst answer))) db (snd answer).
Proof.
  cbv zeta.
  destruct (reader_shape now parse_uuid similarity trigram_match q tier
              owner conversation_id limit min_importance recency_weight
              include_content db) as (rows & Hincl & Hlen & Hshow & Hdb).
  rewrite Hdb. clear Hdb. revert Hshow.
  match goal with |- context [fst ?a] => generalize (fst a) end.
  intros views Hshow.
  assert (Hids : map v_id views = map id rows).
  { clear Hincl Hlen.
    induction Hshow as [| v r vs rs [Hv _] _ IH]; [reflexivity |].
    cbn [map]. now rewrite Hv, IH. }
  rewrite Hids. split; [| split; [| apply update_touched]].
  - rewrite (Forall2_length Hshow). exact Hlen.
  - clear Hids Hlen.
    induction Hshow as [| v r vs rs Hv _ IH]; constructor.
    + assert (Hr : In r (filter (where_clause now
                           (conditions parse_uuid tier owner conversation_id
                              min_importance)) db))
        by (apply Hincl; now left).
      apply filter_In in Hr. destruct Hr as [Hr Hc].
      apply conditions_pass in Hc. exists r. tauto.
    + apply IH. intros x Hx. apply Hincl. now right.
Qed.

(** X17.  [forget] answers [True] whether or not an item has the given
    id; afterwards the table holds exactly the rows of the other ids,
    unchanged, no row has the id, and a table without that id is left as
    it is. *)
Theorem forget_removes_the_item (memory_id : Z) (db : table) :
  fst (forget memory_id db) = true /\
  (forall r, In r (snd (forget memory_id db))
             <-> In r db /\ id r <> memory_id) /\
  (~ In memory_id (map id db) -> snd (forget memory_id db) = db) /\
  ~ In memory_id (map id (snd (forget memory_id db))).
Proof.
  unfold forget. cbn [fst snd].
  split; [reflexivity |]. split; [| split].
  - intros r. rewrite filter_In, negb_true_iff, Z.eqb_neq. tauto.
  - intros Hn. apply filter_all. intros r Hr.
    apply negb_true_iff, Z.eqb_neq. intros <-. apply Hn. now apply in_map.
  - intros Hin. apply in_map_iff in Hin. destruct Hin as (r & Hid & Hr).
    apply filter_In in Hr. destruct Hr as [_ Hr].
    apply negb_true_iff, Z.eqb_neq in Hr. contradiction.
Qed.

Lemma forget_removes_the_item_witness :
  snd (forget 4 three_notes) = three_notes.
Proof.
  apply (proj1 (proj2 (proj2 (forget_removes_the_item 4 three_notes)))).
  cbn. intuition discriminate.
Defined.

(** X18.  [forget_all] deletes nothing and answers 0 when no filter is in
    force, and a user id 0, an empty text and a conversation id that is
    not a UUID put no filter in force: with such a conversation id the
    call deletes what the call without conversation id deletes.
    Otherwise the answer is the number of rows that left the table, the
    rows that stay are unchanged, and every row deleted belongs to the
    user, to the conversation and to the tier that were given. *)
Theorem forget_all_needs_a_filter (parse_uuid : string -> option string)
    (owner : option Z) (conversation_id tier : option string) (db : table) :
  let answer := forget_all parse_uuid owner conversation_id tier db in
  (truthy_id owner = false ->
   conversation_of parse_uuid conversation_id = None ->
   truthy_text tier = false ->
   answer = (0, db)) /\
  (conversation_of parse_uuid conversation_id = None ->
   answer = forget_all parse_uuid owner None tier db) /\
  fst answer = Z.of_nat (List.length db) - Z.of_nat (List.length (snd answer)) /\
  (forall r, In r (snd answer) -> In r db) /\
  (forall r, In r db -> ~ In r (snd answer) ->
     (truthy_id owner = true -> user_id r = owner) /\
     (truthy_text tier = true -> Some (memory_type r) = tier) /\
     (forall c, conversation_of parse_uuid conversation_id = Some c ->
                Memory.conversation_id r = Some c)).
Proof.
  cbv zeta. unfold forget_all. split; [| split].
  - intros Ho Hc Ht. unfold forget_conditions. rewrite Hc.
    destruct owner as [u |], tier as [t |];
      rewrite ?Ho, ?Ht; reflexivity.
  - intros Hc. unfold forget_conditions. rewrite Hc. reflexivity.
  - destruct (forget_conditions parse_uuid owner conversation_id tier)
      as [| c cs] eqn:Ecs.
    + cbn [fst snd]. split; [lia |]. split; [trivial |].
      intros r Hr Hn. contradiction.
    + cbn [fst snd]. split; [| split].
      * rewrite (length_filter_split
                   (fun r => forallb (fun c0 => forgets c0 r) (c :: cs)) db).
        lia.
      * intros r Hr. apply filter_In in Hr. tauto.
      * intros r Hr Hn.
        assert (Hall : forallb (fun c0 => forgets c0 r) (c :: cs) = true).
        { destruct (forallb _ (c :: cs)) eqn:E; [reflexivity |].
          exfalso. apply Hn. apply filter_In. now rewrite E. }
        rewrite <- Ecs in Hall. unfold forget_conditions in Hall.
        rewrite !forallb_app, !andb_true_iff in Hall.
        destruct Hall as (Ho & Hc & Ht).
        split; [| split].
        -- intros Hid. destruct owner as [u |]; [| discriminate].
           rewrite Hid in Ho. cbn in Ho. rewrite andb_true_r in Ho.
           unfold column_is in Ho.
           destruct (user_id r) as [z |]; [| discriminate].
           apply Z.eqb_eq in Ho. now subst.
        -- intros Hty. destruct tier as [t |]; [| discriminate].
           rewrite Hty in Ht. cbn in Ht. rewrite andb_true_r in Ht.
           apply String.eqb_eq in Ht. now subst.
        -- intros c0 Hc0. rewrite Hc0 in Hc. cbn in Hc.
           rewrite andb_true_r in Hc.
           destruct (Memory.conversation_id r) as [c' |]; [| discriminate].
           apply String.eqb_eq in Hc. now subst.
Qed.

Lemma forget_all_needs_a_filter_witness :
  forget_all no_uuid (Some 0) (Some "not a uuid") (Some "") two_users
  = (0, two_users) /\
  forget_all no_uuid (Some 7) (Some "not a uuid") None two_users
  = forget_all no_uuid (Some 7) None None two_users.
Proof.
  split.
  - apply (forget_all_needs_a_filter no_uuid (Some 0) (Some "not a uuid")
             (Some "") two_users); reflexivity.
  - apply (proj1 (proj2 (forget_all_needs_a_filter no_uuid (Some 7)
                           (Some "not a uuid") None two_users))).
    reflexivity.
Defined.

(** X19.  On a table with distinct ids, promoting an item that is there
    answers [True]; afterwards any row with that id is in the long-term
    tier with the content and the owner it had, and, when the item was
    not long-term before, without expiry and with the importance given
    or else the larger of its own and the long-term threshold; the rows
    of other ids that remain are rows of the table before; and promoting
    the item again changes nothing.  Promoting an id that is not there
    answers [False] and leaves the table as it is. *)
Theorem promote_makes_long_term (cfg : memory_config) (memory : memory_item)
    (new_importance : option Q) (db : table) :
  NoDup (map id db) ->
  In memory db ->
  let answer := promote_to_long_term cfg (id memory) new_importance db in
  fst answer = true /\
  (forall r, In r (snd answer) -> id r = id memory ->
     memory_type r = "long_term" /\
     content r = content memory /\
     user_id r = user_id memory /\
     (memory_type memory <> "long_term" ->
      expires_at r = None /\
      importance r
      = match new_importance with
        | Some weight => weight
        | None => py_max (importance memory) (long_term_memory_threshold cfg)
        end)) /\
  (forall r, In r (snd answer) -> id r <> id memory -> In r db) /\
  snd (promote_to_long_term cfg (id memory) None (snd answer)) = snd answer /\
  (forall other, ~ In other (map id db) ->
     promote_to_long_term cfg other new_importance db = (false, db)).
Proof.
  intros Hnd Hin. cbv zeta.
  assert (Hagain : forall db1,
            (forall r, In r db1 -> id r = id memory ->
                       memory_type r = "long_term") ->
            snd (promote_to_long_term cfg (id memory) None db1) = db1).
  { intros db1 Hlong. unfold promote_to_long_term.
    destruct (filter (fun r => id r =? id memory) db1) as [| m l] eqn:E;
      [reflexivity |].
    assert (Hm : In m (filter (fun r => id r =? id memory) db1))
      by (rewrite E; now left).
    apply filter_In in Hm. destruct Hm as [Hm Hid].
    apply Z.eqb_eq in Hid. rewrite (Hlong m Hm Hid). reflexivity. }
  split; [| split; [| split; [| split]]].
  - unfold promote_to_long_term. rewrite (only_row db memory Hnd Hin).
    destruct (String.eqb _ _); [| reflexivity].
    destruct new_importance as [w |]; [| reflexivity].
    now destruct (negb _).
  - unfold promote_to_long_term. rewrite (only_row db memory Hnd Hin).
    destruct (String.eqb_spec (memory_type memory) "long_term") as [Hlt | Hnl].
    + assert (Hsame : forall r, In r db -> id r = id memory ->
                memory_type r = "long_term" /\ content r = content memory /\
                user_id r = user_id memory /\
                (memory_type memory <> "long_term" ->
                 expires_at r = None /\
                 importance r
                 = match new_importance with
                   | Some weight => weight
                   | None => py_max (importance memory)
                               (long_term_memory_threshold cfg)
                   end)).
      { intros r Hr Hid.
        rewrite (same_id_same_row db r memory Hnd Hr Hin Hid).
        split; [exact Hlt |]. split; [reflexivity |]. split; [reflexivity |].
        intros Hc. contradiction. }
      destruct new_importance as [w |]; [| exact Hsame].
      destruct (negb _); [| exact Hsame].
      cbn [snd]. intros r Hr Hid. apply in_map_iff in Hr.
      destruct Hr as (r0 & <- & Hr0). unfold set_importance in *.
      destruct (Z.eqb_spec (id r0) (id memory)) as [He | Hne].
      * rewrite (same_id_same_row db r0 memory Hnd Hr0 Hin He).
        cbn. split; [exact Hlt |]. split; [reflexivity |].
        split; [reflexivity |]. intros Hc. contradiction.
      * contradiction.
    + cbn [snd]. intros r Hr Hid. apply prune_incl in Hr.
      apply in_map_iff in Hr. destruct Hr as (r0 & <- & Hr0).
      unfold make_long_term in *.
      destruct (Z.eqb_spec (id r0) (id memory)) as [He | Hne].
      * rewrite (same_id_same_row db r0 memory Hnd Hr0 Hin He).
        cbn. repeat split; reflexivity.
      * contradiction.
  - unfold promote_to_long_term. rewrite (only_row db memory Hnd Hin).
    assert (Hset : forall w r, In r (map (set_importance (id memory) w) db) ->
              id r <> id memory -> In r db).
    { intros w r Hr Hne. apply in_map_iff in Hr.
      destruct Hr as (r0 & <- & Hr0). unfold set_importance in *.
      destruct (Z.eqb_spec (id r0) (id memory)) as [He | _];
        [cbn in Hne; contradiction | exact Hr0]. }
    destruct (String.eqb _ _).
    + destruct new_importance as [w |]; [| trivial].
      destruct (negb _); [apply Hset | trivial].
    + cbn [snd]. intros r Hr Hne. apply prune_incl in Hr.
      apply in_map_iff in Hr. destruct Hr as (r0 & <- & Hr0).
      unfold make_long_term in *.
      destruct (Z.eqb_spec (id r0) (id memory)) as [He | _];
        [cbn in Hne; contradiction | exact Hr0].
  - apply Hagain. unfold promote_to_long_term.
    rewrite (only_row db memory Hnd Hin).
    destruct (String.eqb_spec (memory_type memory) "long_term") as [Hlt | Hnl].
    + assert (Hdb : forall r, In r db -> id r = id memory ->
                memory_type r = "long_term").
      { intros r Hr Hid.
        now rewrite (same_id_same_row db r memory Hnd Hr Hin Hid). }
      destruct new_importance as [w |]; [| exact Hdb].
      destruct (negb _); [| exact Hdb].
      cbn [snd]. intros r Hr Hid. apply in_map_iff in Hr.
      destruct Hr as (r0 & <- & Hr0). unfold set_importance in *.
      destruct (Z.eqb_spec (id r0) (id memory)) as [He | Hne];
        [| contradiction].
      cbn. now rewrite (same_id_same_row db r0 memory Hnd Hr0 Hin He).
    + cbn [snd]. intros r Hr Hid. apply prune_incl in Hr.
      apply in_map_iff in Hr. destruct Hr as (r0 & <- & Hr0).
      unfold make_long_term in *.
      destruct (Z.eqb_spec (id r0) (id memory)) as [He | Hne];
        [reflexivity | contradiction].
  - intros other Hother. unfold promote_to_long_term.
    now rewrite (no_row db other Hother).
Qed.

Lemma promote_makes_long_term_witness :
  fst (promote_to_long_term default_memory_config 2 None three_notes) = true /\
  map (fun r => (id r, memory_type r, importance r))
    (snd (promote_to_long_term default_memory_config 2 None three_notes))
  = [(1, "working", 5 # 10); (2, "long_term", 7 # 10);
     (3, "working", 8 # 10)].
Proof.
  split; [| reflexivity].
  apply (promote_makes_long_term default_memory_config
           (note 2 None (2 # 10)) None three_notes).
  - repeat constructor; cbn; intuition discriminate.
  - right. now left.
Defined.

(** X20.  A row has an expiry time exactly when it is in the working or
    in the short-term tier, and no operation of the manager breaks this:
    adding, reading, promoting, forgetting and pruning all keep it, so
    that a long-term item never expires. *)
Theorem tier_expiry_is_kept (cfg : memory_config) (now : Z)
    (parse_uuid : string -> option string)
    (similarity : string -> string -> Q)
    (trigram_match : string -> string -> bool) (db : table) :
  Forall tier_expiry db ->
  (forall gen text tier owner conversation_id weight meta,
     Forall tier_expiry
       (snd (add_to_memory cfg now parse_uuid gen text tier owner
               conversation_id weight meta db))) /\
  (forall q tier owner conversation_id limit min_importance recency_weight
          include_content,
     Forall tier_expiry
       (snd (get_memory now parse_uuid similarity trigram_match q tier owner
               conversation_id limit min_importance recency_weight
               include_content db))) /\
  (forall memory_id new_importance,
     Forall tier_expiry
       (snd (promote_to_long_term cfg memory_id new_importance db))) /\
  (forall memory_id, Forall tier_expiry (snd (forget memory_id db))) /\
  (forall owner conversation_id tier,
     Forall tier_expiry
       (snd (forget_all parse_uuid owner conversation_id tier db))) /\
  (forall tier owner, Forall tier_expiry (_prune_memory cfg tier owner db)).
Proof.
  intros Hdb. split; [| split; [| split; [| split; [| split]]]].
  - intros gen text tier owner conv weight meta. unfold add_to_memory.
    destruct (String.eqb (PyStr.strip text) ""); [exact Hdb |].
    cbn [snd]. apply prune_keeps. apply Forall_app. split; [exact Hdb |].
    constructor; [| constructor].
    unfold tier_expiry, new_row. cbn [expires_at memory_type].
    destruct (valid_tier tier) eqn:Hv.
    + unfold valid_tier in Hv.
      destruct (String.eqb_spec tier "working") as [-> | _];
        [left; reflexivity |].
      destruct (String.eqb_spec tier "short_term") as [-> | _];
        [right; reflexivity |].
      cbn [orb] in Hv. now apply String.eqb_eq in Hv.
    + cbn. now left.
  - intros q tier owner conv limit mi rw inc.
    destruct (reader_shape now parse_uuid similarity trigram_match q tier
                owner conv limit mi rw inc db) as (rows & _ & _ & _ & ->).
    pose proof (update_touched now (map id rows) db) as Ht.
    induction Ht as [| r r' l l' Hr _ IH]; [constructor |].
    inversion Hdb as [| ? ? Hr0 Hdb']; subst.
    constructor; [| now apply IH].
    unfold touched in Hr. destruct (existsb _ _); [| now subst].
    destruct Hr as (_ & _ & _ & _ & _ & _ & Hty & _ & _ & _ & Hex).
    unfold tier_expiry in *. now rewrite Hex, Hty.
  - intros memory_id new_importance. unfold promote_to_long_term.
    destruct (filter _ db) as [| memory l]; [exact Hdb |].
    assert (Hset : forall w,
              Forall tier_expiry (map (set_importance memory_id w) db)).
    { intros w. apply Forall_forall. intros r Hr. apply in_map_iff in Hr.
      destruct Hr as (r0 & <- & Hr0). rewrite Forall_forall in Hdb.
      specialize (Hdb r0 Hr0). unfold set_importance.
      now destruct (id r0 =? memory_id). }
    destruct (String.eqb _ _).
    + destruct new_importance as [w |]; [| exact Hdb].
      destruct (negb _); [apply Hset | exact Hdb].
    + cbn [snd]. apply prune_keeps.
      apply Forall_forall. intros r Hr. apply in_map_iff in Hr.
      destruct Hr as (r0 & <- & Hr0). rewrite Forall_forall in Hdb.
      specialize (Hdb r0 Hr0). unfold make_long_term.
      destruct (id r0 =? memory_id); [reflexivity | exact Hdb].
  - intros memory_id. unfold forget. cbn [snd]. now apply filter_keeps.
  - intros owner conv tier. unfold forget_all.
    destruct (forget_conditions _ _ _ _); [exact Hdb |].
    cbn [snd]. now apply filter_keeps.
  - intros tier owner. now apply prune_keeps.
Qed.

Lemma tier_expiry_is_kept_witness :
  Forall tier_expiry
    (snd (add_to_memory default_memory_config 100 no_uuid
            (mkGenerated 9 100 100 0) "remember this" "long_term" (Some 7)
            None (9 # 10) [] [])).
Proof.
  apply (tier_expiry_is_kept default_memory_config 100 no_uuid
           no_similarity always_match []).
  constructor.
Defined.

(** *** The order of the recent items *)

Lemma recent_leb_flip a b : recent_leb a b = prune_leb b a.
Proof. reflexivity. Qed.

Lemma sorted_recent_order l :
  StronglySorted (fun a b => prune_le b a) (sort_by recent_leb l).
Proof.
  apply Sorted_StronglySorted.
  - intros a b c Hab Hbc. exact (prune_le_trans _ _ _ Hbc Hab).
  - apply Sorted_weaken with (R := fun a b => recent_leb a b = true).
    + intros a b. rewrite recent_leb_flip. apply prune_leb_iff.
    + apply sort_by_sorted. intros x y. rewrite !recent_leb_flip.
      apply prune_leb_total.
Qed.

Lemma StronglySorted_prefix {A : Type} (R : A -> A -> Prop) l1 l2 :
  StronglySorted R (l1 ++ l2) -> StronglySorted R l1.
Proof.
  induction l1 as [| x l1 IH]; cbn [app]; intros Hs; [constructor |].
  inversion Hs as [| ? ? Hs' Hall]; subst.
  constructor; [now apply IH |].
  apply Forall_app in Hall. tauto.
Qed.

Lemma StronglySorted_map {A B : Type} (R : A -> A -> Prop)
    (R' : B -> B -> Prop) (f : A -> B) l :
  (forall a b, R a b -> R' (f a) (f b)) ->
  StronglySorted R l -> StronglySorted R' (map f l).
Proof.
  intros Hf. induction 1 as [| a l Hs IH Hall]; cbn [map]; constructor;
    trivial.
  rewrite Forall_forall in *. intros y Hy. apply in_map_iff in Hy.
  destruct Hy as (b & <- & Hb). auto.
Qed.

(** X24.  Without a query, the items come ranked: by descending
    importance, then the later access first, then the later creation
    first.  They are the top of that ranking: when a row that passes the
    conditions of the call is not among the items returned, [limit] items
    were returned and every one of them ranks no later than that row. *)
Theorem recent_memory_is_ranked (now : Z)
    (parse_uuid : string -> option string)
    (tier conversation_id : option string) (owner : option Z) (limit : Z)
    (min_importance : Q) (include_content : bool) (db : table) :
  0 <= limit ->
  let views :=
    fst (_get_recent_memory now parse_uuid tier owner conversation_id limit
           min_importance include_content db) in
  StronglySorted ranks_before views /\
  forall r,
    In r db ->
    where_clause now
      (conditions parse_uuid tier owner conversation_id min_importance) r
    = true ->
    ~ In (id r) (map v_id views) ->
    Z.of_nat (List.length views) = limit /\
    Forall (fun v => ranks_before v (view include_content None r)) views.
Proof.
  intros Hlimit. cbv zeta. unfold _get_recent_memory.
  destruct (Z.ltb_spec limit 0) as [? | _]; [lia |]. cbn [fst].
  set (cs := conditions parse_uuid tier owner conversation_id min_importance).
  set (sorted := sort_by recent_leb (filter (where_clause now cs) db)).
  pose proof (sorted_recent_order (filter (where_clause now cs) db)) as Hs.
  fold sorted in Hs.
  rewrite <- (firstn_skipn (Z.to_nat limit) sorted) in Hs.
  split.
  - apply (StronglySorted_map (fun a b => prune_le b a)).
    + intros a b Hab. exact Hab.
    + exact (StronglySorted_prefix _ _ _ Hs).
  - intros r Hr Hpass Hout.
    assert (Hin : In r sorted).
    { apply (Permutation_in _ (sort_by_perm recent_leb _)).
      apply filter_In. now split. }
    rewrite <- (firstn_skipn (Z.to_nat limit) sorted) in Hin.
    apply in_app_or in Hin. destruct Hin as [Hin | Hin].
    + exfalso. apply Hout. rewrite map_map. cbn [v_id view].
      now apply in_map.
    + split.
      * rewrite length_map, length_firstn.
        assert (Hlen : (List.length (skipn (Z.to_nat limit) sorted) > 0)%nat)
          by (destruct (skipn _ sorted); [contradiction | cbn; lia]).
        rewrite length_skipn in Hlen. lia.
      * apply Forall_forall. intros v Hv. apply in_map_iff in Hv.
        destruct Hv as (a & <- & Ha).
        exact (strongly_sorted_app _ _ _ Hs a r Ha Hin).
Qed.

Lemma recent_memory_is_ranked_witness :
  map v_id
    (fst (_get_recent_memory 0 no_uuid None None None 2 0 true three_notes))
  = [3; 1] /\
  StronglySorted ranks_before
    (fst (_get_recent_memory 0 no_uuid None None None 2 0 true three_notes)).
Proof.
  split; [reflexivity |].
  apply (recent_memory_is_ranked 0 no_uuid None None None 2 0 true
           three_notes).
  lia.
Defined.

End MemoryMore.

(** ** The deep merge of configurations *)

Module ConfigFacts.
Import Py Config PyFacts PyMore.

Section Merge.

Context {scalar : Type}.
Implicit Types (base override : dict (cval scalar)) (c v : cval scalar).

(** The loop of the source, one item of [override] at a time. *)
Lemma deep_merge_nil base : _deep_merge_configs base [] = base.
Proof. reflexivity. Qed.

Lemma deep_merge_cons base key v rest :
  _deep_merge_configs base ((key, v) :: rest)
  = _deep_merge_configs
      (dict_set key
         match v, dict_get key base with
         | CDict items, Some (CDict result) =>
             CDict (_deep_merge_configs result items)
         | _, _ => v
         end base) rest.
Proof.
  unfold _deep_merge_configs. cbn [merge_value].
  destruct v as [a | items]; [reflexivity |].
  destruct (dict_get key base) as [[a | result] |]; reflexivity.
Qed.

Lemma deep_merge_get override : forall base key,
  NoDup (keys override) ->
  dict_get key (_deep_merge_configs base override)
  = match dict_get key override with
    | None => dict_get key base
    | Some v =>
        Some match v, dict_get key base with
             | CDict items, Some (CDict result) =>
                 CDict (_deep_merge_configs result items)
             | _, _ => v
             end
    end.
Proof.
  induction override as [| [k v] rest IH]; intros base key Hnd.
  - reflexivity.
  - cbn [keys map fst] in Hnd. inversion Hnd as [| ? ? Hnotin Hnd']; subst.
    rewrite deep_merge_cons, (IH _ _ Hnd'). cbn [dict_get].
    destruct (String.eqb_spec k key) as [-> | Hne].
    + rewrite (RetrieverMore.dict_get_notin key rest Hnotin).
      now rewrite dict_get_set, String.eqb_refl.
    + rewrite dict_get_set.
      destruct (String.eqb_spec k key) as [-> | _]; [contradiction |].
      reflexivity.
Qed.

Lemma deep_merge_keys override : forall base,
  keys (_deep_merge_configs base override)
  = fold_left remember (keys override) (keys base).
Proof.
  induction override as [| [k v] rest IH]; intros base; [reflexivity |].
  rewrite deep_merge_cons, IH, keys_set. reflexivity.
Qed.

Lemma well_formed_value (d : dict (cval scalar)) key v :
  well_formed (CDict d) -> dict_get key d = Some v -> well_formed v.
Proof.
  intros [_ Hall] Hget. apply dict_get_in in Hget.
  induction d as [| [k0 v0] d IH]; [contradiction |].
  destruct Hall as [Hv Hall].
  destruct Hget as [[= -> ->] | Hin]; [exact Hv | now apply IH].
Qed.

Lemma override_wins path : forall base override a,
  well_formed (CDict override) ->
  lookup path (CDict override) = Some (CVal a) ->
  lookup path (CDict (_deep_merge_configs base override)) = Some (CVal a).
Proof.
  induction path as [| key rest IH]; intros base override a Hwf;
    cbn [lookup]; [discriminate |].
  destruct (dict_get key override) as [v |] eqn:Hget; [| discriminate].
  intros Hv. rewrite (deep_merge_get _ _ _ (proj1 Hwf)), Hget.
  destruct v as [b | items]; [exact Hv |].
  destruct (dict_get key base) as [[b | result] |]; try exact Hv.
  apply IH; [| exact Hv].
  exact (well_formed_value _ _ _ Hwf Hget).
Qed.

Lemma base_stays path : forall base override a,
  well_formed (CDict override) ->
  lookup path (CDict base) = Some (CVal a) ->
  clear_of path (CDict override) = true ->
  lookup path (CDict (_deep_merge_configs base override)) = Some (CVal a).
Proof.
  induction path as [| key rest IH]; intros base override a Hwf;
    cbn [lookup clear_of]; [discriminate |].
  rewrite (deep_merge_get _ _ _ (proj1 Hwf)).
  destruct (dict_get key base) as [b |] eqn:Hbase; [| discriminate].
  intros Hb.
  destruct (dict_get key override) as [v |] eqn:Hget; [| now intros _].
  intros Hclear.
  destruct rest as [| key' rest'].
  - destruct v; discriminate.
  - destruct v as [x | items]; [discriminate |].
    destruct b as [x | result]; [discriminate |].
    apply IH; trivial.
    exact (well_formed_value _ _ _ Hwf Hget).
Qed.

(** X21.  [_deep_merge_configs] gives the override precedence at every
    depth: for configurations without repeated keys, a setting that the
    override reaches by a path of keys has the override's value in the
    result, and a setting of the base has the base's value in the result
    when the override says nothing at its path or above it.  The keys of
    the base keep their places and the new keys follow in the order of
    the override. *)
Theorem deep_merge_override_wins base override (path : list string)
    (a : scalar) :
  well_formed (CDict override) ->
  (lookup path (CDict override) = Some (CVal a) ->
   lookup path (CDict (_deep_merge_configs base override)) = Some (CVal a)) /\
  (lookup path (CDict base) = Some (CVal a) ->
   clear_of path (CDict override) = true ->
   lookup path (CDict (_deep_merge_configs base override)) = Some (CVal a)) /\
  keys (_deep_merge_configs base override)
  = fold_left remember (keys override) (keys base).
Proof.
  intros Hwf. split; [now apply override_wins |].
  split; [now apply base_stays | apply deep_merge_keys].
Qed.

End Merge.

Lemma deep_merge_override_wins_witness :
  lookup ["retrieval"; "top_k"]
    (CDict (_deep_merge_configs sample_default sample_mode))
  = Some (CVal (PInt 3)) /\
  lookup ["retrieval"; "hybrid"]
    (CDict (_deep_merge_configs sample_default sample_mode))
  = Some (CVal (PInt 1)).
Proof.
  split.
  - apply (proj1 (deep_merge_override_wins sample_default sample_mode
                    ["retrieval"; "top_k"] (PInt 3)
                    ltac:(cbn; repeat split; repeat constructor;
                          cbn; intuition discriminate))).
    reflexivity.
  - apply (proj1 (proj2 (deep_merge_override_wins sample_default sample_mode
                    ["retrieval"; "hybrid"] (PInt 1)
                    ltac:(cbn; repeat split; repeat constructor;
                          cbn; intuition discriminate)))); reflexivity.
Defined.

End ConfigFacts.

(** ** The chunk records of a document *)

Module IngestFacts.
Import Py PyStr Segmenter Ingest PyFacts.

Lemma enumerate_indices {A : Type} (l : list A) : forall i,
  map fst (enumerate_from i l)
  = map (fun n => i + Z.of_nat n) (seq 0 (List.length l)).
Proof.
  induction l as [| x l IH]; intros i; cbn [enumerate_from map List.length seq];
    [reflexivity |].
  change (i + Z.of_nat 0) with (i + 0). rewrite Z.add_0_r. f_equal.
  rewrite IH, <- seq_shift, map_map.
  apply map_ext. intros n. lia.
Qed.

Lemma enumerate_values {A : Type} (l : list A) : forall i,
  map snd (enumerate_from i l) = l.
Proof.
  induction l as [| x l IH]; intros i; cbn [enumerate_from map];
    [reflexivity |].
  now rewrite IH.
Qed.

Lemma enumerate_bounds {A : Type} (l : list A) : forall i j x,
  In (j, x) (enumerate_from i l) -> i <= j.
Proof.
  induction l as [| y l IH]; intros i j x; cbn [enumerate_from];
    [contradiction |].
  intros [[= <- _] | Hin]; [lia |].
  apply IH in Hin. lia.
Qed.

Lemma enumerate_NoDup {A : Type} (l : list A) : forall i,
  NoDup (map fst (enumerate_from i l)).
Proof.
  induction l as [| x l IH]; intros i; cbn [enumerate_from map];
    constructor; [| apply IH].
  intros Hin. apply in_map_iff in Hin. destruct Hin as ([j y] & Hj & Hin).
  cbn [fst] in Hj. subst j. apply enumerate_bounds in Hin. lia.
Qed.

Lemma append_inj (s t1 t2 : string) :
  (s ++ t1)%string = (s ++ t2)%string -> t1 = t2.
Proof.
  induction s as [| c s IH]; cbn; [trivial |].
  intros [= H]. now apply IH.
Qed.

Lemma chunk_id_of_inj document_id i j :
  chunk_id_of document_id i = chunk_id_of document_id j -> i = j.
Proof.
  unfold chunk_id_of. intros H.
  apply append_inj in H. apply (append_inj "_chunk_") in H.
  now apply str_of_Z_inj.
Qed.

Lemma update_get metadata items : forall key,
  ~ In key (keys items) ->
  dict_get key (update metadata items) = dict_get key metadata.
Proof.
  unfold update. revert metadata.
  induction items as [| [k v] items IH]; intros metadata key Hn;
    cbn [fold_left]; [reflexivity |].
  rewrite IH by (intros Hin; apply Hn; now right).
  rewrite dict_get_set. cbn [fst snd].
  destruct (String.eqb_spec k key) as [-> | _]; [| reflexivity].
  exfalso. apply Hn. now left.
Qed.

(** X22.  The chunk records that [process_document] prepares are
    numbered 0, 1, 2, ... in the order of the chunks and carry their
    texts; no two of them have the same id; and the metadata of each
    record names its own document, index, id and text length, whatever
    the metadata of the document say under these keys, and agrees with
    the metadata of the document on every other key. *)
Theorem chunk_data_is_indexed (document_id : string) (metadata : dict pyval)
    (chunks : list chunk) :
  let data := chunk_data document_id metadata chunks in
  map cd_chunk_index data = map Z.of_nat (seq 0 (List.length chunks)) /\
  map cd_text data = map text chunks /\
  NoDup (map cd_id data) /\
  Forall (describes_itself metadata) data.
Proof.
  cbv zeta. unfold chunk_data. split; [| split; [| split]].
  - rewrite map_map. cbn [cd_chunk_index].
    change (map (fun x : Z * chunk => fst x) (enumerate_from 0 chunks))
      with (map fst (enumerate_from 0 chunks)).
    rewrite enumerate_indices. apply map_ext. intros n. lia.
  - rewrite map_map. cbn [cd_text].
    rewrite <- (enumerate_values chunks 0) at 2. now rewrite map_map.
  - rewrite map_map. cbn [cd_id].
    pose proof (enumerate_NoDup chunks 0) as Hnd.
    induction (enumerate_from 0 chunks) as [| [i c] l IH]; cbn [map];
      [constructor |].
    cbn [map fst] in Hnd. inversion Hnd as [| ? ? Hnotin Hnd']; subst.
    constructor; [| now apply IH].
    intros Hin. apply in_map_iff in Hin. destruct Hin as ([j c'] & Hj & Hin).
    cbn [fst] in Hj. apply chunk_id_of_inj in Hj. subst j.
    apply Hnotin. apply in_map_iff. now exists (i, c').
  - apply Forall_forall. intros d Hd. apply in_map_iff in Hd.
    destruct Hd as ([i c] & <- & _). unfold describes_itself.
    cbn [cd_metadata cd_document_id cd_chunk_index cd_id cd_text fst snd].
    unfold update, chunk_metadata_of. cbn [fold_left fst snd].
    repeat split.
    + now rewrite !dict_get_set.
    + now rewrite !dict_get_set.
    + now rewrite !dict_get_set.
    + now rewrite !dict_get_set.
    + intros key Hkey.
      apply (update_get metadata (chunk_metadata_of document_id i c) key).
      exact Hkey.
Qed.

End IngestFacts.
